(** * Parking barrier firmware: slot allocator, gate state machine, card whitelist

    A shallow embedding of [SlotManager.cpp], [GateController.cpp] and
    [RFIDManager.cpp] (with the constants of [Config.h]), and the
    properties of these three components.

    Conventions of the embedding:
    - [int] values are [Z]; the sentinel [-1] of the source stays [-1];
    - [unsigned long] values are [Z] in [0, 2^32), subtraction wraps
      ([ulong]);
    - a [char buf[N]] holding a NUL-terminated text is the [string] before
      the NUL; [String::toCharArray(buf, N)] keeps at most [N-1] characters;
    - a fixed-size C array is a [list], read with [!!!] and written with
      [alter] / [<[i:=x]>]; its length is part of the well-formedness
      predicates below. *)

From Stdlib Require Import ZArith Lia Bool String DecimalString.
From stdpp Require Import base list.

Local Open Scope string_scope.
Local Open Scope list_scope.
Local Open Scope Z_scope.

(** ** Config.h *)

Module Config.

Definition TOTAL_SLOTS : Z := 10.
Definition MAX_RFID_CARDS : Z := 50.
Definition EEPROM_MAGIC : Z := 0xABCD1234.

Definition SERVO_CLOSED_ANGLE : Z := 0.
Definition SERVO_OPEN_ANGLE : Z := 90.

Definition GATE_CLOSE_DELAY : Z := 2000.
Definition CARD_SCAN_TIMEOUT : Z := 10000.
Definition DISPLAY_MESSAGE_DURATION : Z := 2000.

Definition ACCESS_REGULAR : Z := 0.
Definition ACCESS_ADMIN : Z := 1.
Definition ACCESS_TEMPORARY : Z := 2.

Definition DEFAULT_CARD_COUNT : Z := 5.

Inductive GateState :=
| STATE_IDLE
| STATE_WAITING_CARD
| STATE_BARRIER_OPEN
| STATE_CLOSING_DELAY.

Definition NTP_SERVER : string := "pool.ntp.org".
Definition GMT_OFFSET_SEC : Z := 25200.
Definition DAYLIGHT_OFFSET_SEC : Z := 0.

Definition I2C_SDA_PIN : Z := 33.
Definition I2C_SCL_PIN : Z := 32.
Definition LCD_COLS : Z := 16.
Definition LCD_ROWS : Z := 2.

End Config.

(** ** The parts of the Arduino core the sources rely on *)

Module Arduino.

(** Arithmetic on [unsigned long] (32 bits on the ESP32) is modulo 2^32. *)
Definition ULONG_MOD : Z := 2 ^ 32.
Definition ulong (x : Z) : Z := x mod ULONG_MOD.

(** Conversions between [int] and [unsigned int] (two's complement). *)
Definition to_uint (x : Z) : Z := x mod 2 ^ 32.
Definition to_int (x : Z) : Z := (x + 2 ^ 31) mod 2 ^ 32 - 2 ^ 31.

(** [String::toCharArray(buf, bufsize)]: copies at most [bufsize - 1]
    characters and terminates the buffer. *)
Definition toCharArray (s : string) (bufsize : nat) : string :=
  String.substring 0 (bufsize - 1) s.

(** [String::equals(const char* )] is [strcmp(...) == 0]. *)
Definition equals (s cstr : string) : bool := String.eqb s cstr.

(** The digit characters [utoa] writes in base 16: lower case. *)
Definition hexDigit (d : Z) : Ascii.ascii :=
  Ascii.ascii_of_nat (Z.to_nat (if d <? 10 then 48 + d else 87 + d)).

(** [String(value, HEX)] for an [unsigned char] (0 to 255): the digits
    of [utoa], without a leading zero. *)
Definition String_HEX (value : Z) : string :=
  if value <? 16 then String (hexDigit value) EmptyString
  else String (hexDigit (value / 16))
              (String (hexDigit (value mod 16)) EmptyString).

(** [toupper] on one character, and [String::toUpperCase]. *)
Definition toupper (c : Ascii.ascii) : Ascii.ascii :=
  let n := Ascii.nat_of_ascii c in
  if ((97 <=? n) && (n <=? 122))%nat then Ascii.ascii_of_nat (n - 32)
  else c.

Fixpoint toUpperCase (s : string) : string :=
  match s with
  | EmptyString => EmptyString
  | String c rest => String (toupper c) (toUpperCase rest)
  end.

(** One of the characters 0-9, A-F. *)
Definition isUpperHex (c : Ascii.ascii) : bool :=
  let n := Ascii.nat_of_ascii c in
  (((48 <=? n) && (n <=? 57)) || ((65 <=? n) && (n <=? 70)))%nat.

(** [String(int)]: the decimal digits, with a leading [-] for a negative
    value. *)
Definition String_int (value : Z) : string :=
  NilZero.string_of_int (Z.to_int value).

End Arduino.

(** ** SlotManager *)

Module SlotManager.
Import Config Arduino.

Record ParkingSlot := mkSlot {
  occupied : bool;
  cardUID : string;
  entryTime : Z;
  slotNumber : Z
}.

Record SlotManager := mkManager {
  _slots : list ParkingSlot;
  _availableSlots : Z;
  _initialized : bool
}.

#[export] Instance ParkingSlot_inhabited : Inhabited ParkingSlot :=
  populate (mkSlot false "" 0 0).

(** The constructor leaves [_slots] as the storage holds it. *)
Definition new (storage : list ParkingSlot) : SlotManager :=
  mkManager storage TOTAL_SLOTS false.

Definition isValidSlotNumber (slotNumber : Z) : bool :=
  (1 <=? slotNumber) && (slotNumber <=? TOTAL_SLOTS).

Definition slotNumberToIndex (slotNumber : Z) : Z := slotNumber - 1.

(** [begin]: every field of every slot is overwritten. *)
Definition begin_slot (i : nat) : ParkingSlot :=
  mkSlot false "" 0 (Z.of_nat i + 1).

Definition begin (m : SlotManager) : bool * SlotManager :=
  (true, mkManager (map begin_slot (seq 0 (Z.to_nat TOTAL_SLOTS)))
                   TOTAL_SLOTS true).

(** The loop of [findSlotByCard], over the array from index 0. *)
Fixpoint findSlotByCard_loop (slots : list ParkingSlot) (uid : string) : Z :=
  match slots with
  | [] => -1
  | s :: rest =>
      if occupied s && equals uid (cardUID s) then slotNumber s
      else findSlotByCard_loop rest uid
  end.

Definition findSlotByCard (m : SlotManager) (uid : string) : Z :=
  findSlotByCard_loop (_slots m) uid.

(** The loop of [findAvailableSlot]; [i] is the index of the head. *)
Fixpoint findAvailableSlot_loop (slots : list ParkingSlot) (i : Z) : Z :=
  match slots with
  | [] => -1
  | s :: rest =>
      if negb (occupied s) then i else findAvailableSlot_loop rest (i + 1)
  end.

Definition findAvailableSlot (m : SlotManager) : Z :=
  findAvailableSlot_loop (_slots m) 0.

(** The three assignments of [allocateSlot] to [_slots[slotIndex]]. *)
Definition occupy (uid : string) (entryTime millis : Z) (s : ParkingSlot)
  : ParkingSlot :=
  mkSlot true (toCharArray uid 20)
         (if entryTime =? 0 then millis / 1000 else entryTime)
         (slotNumber s).

(** The three assignments of [releaseSlot] / [clearAllSlots]. *)
Definition vacate (s : ParkingSlot) : ParkingSlot :=
  mkSlot false "" 0 (slotNumber s).

(** [millis] is the reading of [millis()] during the call. *)
Definition allocateSlot (m : SlotManager) (uid : string)
    (entryTime millis : Z) : Z * SlotManager :=
  if negb (_initialized m) then (-1, m) else
  let existingSlot := findSlotByCard m uid in
  if negb (existingSlot =? -1) then (existingSlot, m) else
  let slotIndex := findAvailableSlot m in
  if slotIndex =? -1 then (-1, m) else
  let idx := Z.to_nat slotIndex in
  let slots' := alter (occupy uid entryTime millis) idx (_slots m) in
  (slotNumber (slots' !!! idx),
   mkManager slots' (_availableSlots m - 1) (_initialized m)).

Definition releaseSlot (m : SlotManager) (slotNumber millis : Z)
  : Z * SlotManager :=
  if negb (_initialized m) || negb (isValidSlotNumber slotNumber)
  then (0, m) else
  let index := Z.to_nat (slotNumberToIndex slotNumber) in
  if negb (occupied (_slots m !!! index)) then (0, m) else
  let duration := ulong (millis / 1000 - entryTime (_slots m !!! index)) in
  (duration,
   mkManager (alter vacate index (_slots m))
             (_availableSlots m + 1) (_initialized m)).

(** Returns the duration, the output parameter [slotNumber] and the
    manager. *)
Definition releaseSlotByCard (m : SlotManager) (uid : string) (millis : Z)
  : Z * Z * SlotManager :=
  let slotNumber := findSlotByCard m uid in
  if slotNumber =? -1 then (0, slotNumber, m) else
  let '(duration, m') := releaseSlot m slotNumber millis in
  (duration, slotNumber, m').

Definition isSlotOccupied (m : SlotManager) (slotNumber : Z) : bool :=
  if negb (isValidSlotNumber slotNumber) then false
  else occupied (_slots m !!! Z.to_nat (slotNumberToIndex slotNumber)).

Definition getAvailableSlots (m : SlotManager) : Z := _availableSlots m.

Definition getTotalSlots (m : SlotManager) : Z := TOTAL_SLOTS.

Definition getSlotDuration (m : SlotManager) (slotNumber currentTime : Z)
  : Z :=
  if negb (isValidSlotNumber slotNumber) then 0 else
  let index := Z.to_nat (slotNumberToIndex slotNumber) in
  if negb (occupied (_slots m !!! index)) then 0
  else ulong (currentTime - entryTime (_slots m !!! index)).

Definition clearAllSlots (m : SlotManager) : SlotManager :=
  mkManager (map vacate (_slots m)) TOTAL_SLOTS (_initialized m).

(** *** Counting, well-formedness and the operations as a transition system *)

Fixpoint freeCount (slots : list ParkingSlot) : Z :=
  match slots with
  | [] => 0
  | s :: rest => (if occupied s then 0 else 1) + freeCount rest
  end.

Fixpoint occupiedCount (slots : list ParkingSlot) : Z :=
  match slots with
  | [] => 0
  | s :: rest => (if occupied s then 1 else 0) + occupiedCount rest
  end.

(** Slot [i] of the array carries the number [i + 1]. *)
Definition numbered (slots : list ParkingSlot) : Prop :=
  forall (i : nat) s, slots !! i = Some s -> slotNumber s = Z.of_nat i + 1.

Definition array_ok (m : SlotManager) : Prop :=
  length (_slots m) = Z.to_nat TOTAL_SLOTS /\ numbered (_slots m).

Definition count_ok (m : SlotManager) : Prop :=
  _availableSlots m = freeCount (_slots m).

Definition Inv (m : SlotManager) : Prop :=
  _initialized m = true /\ array_ok m /\ count_ok m.

Inductive Op :=
| OpBegin
| OpAllocateSlot (uid : string) (entryTime : Z)
| OpReleaseSlot (slotNumber : Z)
| OpReleaseSlotByCard (uid : string)
| OpClearAllSlots.

(** One public call, made when [millis()] reads [millis]. *)
Definition step (m : SlotManager) (call : Op * Z) : SlotManager :=
  let '(op, millis) := call in
  match op with
  | OpBegin => snd (begin m)
  | OpAllocateSlot uid entryTime => snd (allocateSlot m uid entryTime millis)
  | OpReleaseSlot n => snd (releaseSlot m n millis)
  | OpReleaseSlotByCard uid => snd (releaseSlotByCard m uid millis)
  | OpClearAllSlots => clearAllSlots m
  end.

Definition run (m : SlotManager) (calls : list (Op * Z)) : SlotManager :=
  foldl step m calls.

(** *** The read-only accessors *)

(** [slot] is the caller's variable behind the reference parameter; the
    second component is its value after the call. *)
Definition getSlotInfo (m : SlotManager) (slotNumber : Z) (slot : ParkingSlot)
  : bool * ParkingSlot :=
  if negb (isValidSlotNumber slotNumber) then (false, slot)
  else (true, _slots m !!! Z.to_nat (slotNumberToIndex slotNumber)).

(** The loop [slots[i] = _slots[i]] for [count] indices from [i]. *)
Fixpoint getAllSlots_loop (src dst : list ParkingSlot) (i count : nat)
  : list ParkingSlot :=
  match count with
  | O => dst
  | S k => getAllSlots_loop src (<[i := src !!! i]> dst) (S i) k
  end.

(** [slots] is the caller's array; the result is the count returned and
    the array after the call. A count that is not positive runs the loop
    zero times. *)
Definition getAllSlots (m : SlotManager) (slots : list ParkingSlot)
    (maxSlots : Z) : Z * list ParkingSlot :=
  let count := if maxSlots <? TOTAL_SLOTS then maxSlots else TOTAL_SLOTS in
  (count, getAllSlots_loop (_slots m) slots 0 (Z.to_nat count)).

(** *** Further predicates on the slot array *)

(** No two occupied slots carry the same card UID. *)
Definition holders_unique (slots : list ParkingSlot) : Prop :=
  forall (i j : nat) s s',
    slots !! i = Some s -> slots !! j = Some s' ->
    occupied s = true -> occupied s' = true ->
    cardUID s = cardUID s' -> i = j.

(** A slot that is not occupied has an empty UID and entry time 0. *)
Definition vacant_clean (slots : list ParkingSlot) : Prop :=
  forall s, s ∈ slots -> occupied s = false ->
            cardUID s = "" /\ entryTime s = 0.

(** The UID of an [allocateSlot] call fits the 20-byte buffer of a slot. *)
Definition fits_buffer (call : Op * Z) : Prop :=
  match fst call with
  | OpAllocateSlot uid _ => (String.length uid < 20)%nat
  | _ => True
  end.

(** [allocateSlot] for each UID of a list in turn, all at [millis]; the
    slot numbers returned, and the manager after the last call. *)
Fixpoint allocateAll (m : SlotManager) (uids : list string) (millis : Z)
  : list Z * SlotManager :=
  match uids with
  | [] => ([], m)
  | uid :: rest =>
      let '(n, m1) := allocateSlot m uid 0 millis in
      let '(ns, m2) := allocateAll m1 rest millis in
      (n :: ns, m2)
  end.

(** Every stored card UID fits the buffer: at most 19 characters. *)
Definition stored_short (slots : list ParkingSlot) : Prop :=
  forall s, s ∈ slots -> (String.length (cardUID s) <= 19)%nat.

End SlotManager.

(** ** GateController *)

Module GateController.
Import Config Arduino.

Inductive GateEvent :=
| EVENT_NONE
| EVENT_VEHICLE_DETECTED
| EVENT_VEHICLE_LEFT
| EVENT_CARD_SCANNED
| EVENT_CARD_DENIED
| EVENT_PARKING_FULL
| EVENT_VEHICLE_PASSED
| EVENT_TIMEOUT.

(** [None] in [slotNumber] / [duration]: the source leaves the field of
    the local [GateEventData] unassigned. *)
Record GateEventData := mkEventData {
  event : GateEvent;
  cardUID : string;
  slotNumber : option Z;
  duration : option Z
}.

(** [_eventCallback] records whether the pointer is non-null. The
    instance constants [_name], [_irPin], [_servoPin] are not state. *)
Record GateController := mkGate {
  _state : GateState;
  _lastScannedCard : string;
  _stateStartTime : Z;
  _eventCallback : bool;
  _vehicleWasDetected : bool;
  _initialized : bool
}.

Inductive PinLevel := LOW | HIGH.

(** What the board shows the controller: the clock and the level of the
    gate's IR pin. *)
Record Board := mkBoard {
  clock : Z;
  irPin : PinLevel
}.

(** What the controller does to the outside. *)
Inductive Effect :=
| ServoWrite (angle : Z)
| Callback (eventData : GateEventData)
| Delay (ms : Z).

Record Sys := mkSys {
  gate : GateController;
  board : Board
}.

(** Member functions run in a state monad over [Sys] that logs effects. *)
Definition M (A : Type) : Type := Sys -> A * Sys * list Effect.

Definition ret {A} (a : A) : M A := fun s => (a, s, []).

Definition bind {A B} (m : M A) (k : A -> M B) : M B :=
  fun s =>
    let '(a, s1, o1) := m s in
    let '(b, s2, o2) := k a s1 in
    (b, s2, o1 ++ o2).

Notation "x <- m ;; k" := (bind m (fun x => k))
  (at level 100, m at next level, right associativity).
Notation "m ;; k" := (bind m (fun _ => k))
  (at level 100, right associativity).

Definition when (b : bool) (m : M unit) : M unit :=
  if b then m else ret tt.

Definition member {A} (field : GateController -> A) : M A :=
  fun s => (field (gate s), s, []).

Definition assign (f : GateController -> GateController) : M unit :=
  fun s => (tt, mkSys (f (gate s)) (board s), []).

Definition emit (e : Effect) : M unit := fun s => (tt, s, [e]).

(** [millis()]: the clock stands still during a call, except in
    [delay]. *)
Definition millis : M Z := fun s => (clock (board s), s, []).

Definition digitalRead_irPin : M PinLevel :=
  fun s => (irPin (board s), s, []).

(** [delay(ms)] returns once the clock has advanced by [ms]. *)
Definition delay (ms : Z) : M unit :=
  fun s => (tt,
            mkSys (gate s) (mkBoard (ulong (clock (board s) + ms))
                                    (irPin (board s))),
            [Delay ms]).

Definition set_state (st : GateState) (t : Z) (g : GateController) :=
  mkGate st (_lastScannedCard g) t (_eventCallback g)
         (_vehicleWasDetected g) (_initialized g).

Definition set_lastScannedCard (c : string) (g : GateController) :=
  mkGate (_state g) c (_stateStartTime g) (_eventCallback g)
         (_vehicleWasDetected g) (_initialized g).

Definition set_eventCallback (cb : bool) (g : GateController) :=
  mkGate (_state g) (_lastScannedCard g) (_stateStartTime g) cb
         (_vehicleWasDetected g) (_initialized g).

Definition set_vehicleWasDetected (b : bool) (g : GateController) :=
  mkGate (_state g) (_lastScannedCard g) (_stateStartTime g)
         (_eventCallback g) b (_initialized g).

Definition set_initialized (b : bool) (g : GateController) :=
  mkGate (_state g) (_lastScannedCard g) (_stateStartTime g)
         (_eventCallback g) (_vehicleWasDetected g) b.

(** The constructor. *)
Definition new : GateController :=
  mkGate STATE_IDLE "" 0 false false false.

(** The IR sensor is active LOW. *)
Definition detects (level : PinLevel) : bool :=
  match level with LOW => true | HIGH => false end.

Definition readIRSensor : M bool :=
  level <- digitalRead_irPin ;;
  ret (detects level).

Definition setServoAngle (angle : Z) : M unit := emit (ServoWrite angle).

Definition setState (newState : GateState) : M unit :=
  t <- millis ;;
  assign (set_state newState t).

Definition fireEvent (eventData : GateEventData) : M unit :=
  cb <- member _eventCallback ;;
  when cb (emit (Callback eventData)).

Definition getStateElapsedTime : M Z :=
  t <- millis ;;
  start <- member _stateStartTime ;;
  ret (ulong (t - start)).

Definition begin : M bool :=
  setServoAngle SERVO_CLOSED_ANGLE ;;
  t <- millis ;;
  assign (set_state STATE_IDLE t) ;;
  assign (set_initialized true) ;;
  ret true.

Definition openGate (duration : Z) : M unit :=
  setServoAngle SERVO_OPEN_ANGLE ;;
  setState STATE_BARRIER_OPEN.

Definition closeGate : M unit := setServoAngle SERVO_CLOSED_ANGLE.

Definition update : M unit :=
  initialized <- member _initialized ;;
  if negb initialized then ret tt else
  vehicleDetected <- readIRSensor ;;
  state <- member _state ;;
  match state with
  | STATE_IDLE =>
      was <- member _vehicleWasDetected ;;
      when (vehicleDetected && negb was)
        (setState STATE_WAITING_CARD ;;
         fireEvent (mkEventData EVENT_VEHICLE_DETECTED "" None None))
  | STATE_WAITING_CARD =>
      was <- member _vehicleWasDetected ;;
      when (negb vehicleDetected && was)
        (setState STATE_IDLE ;;
         fireEvent (mkEventData EVENT_VEHICLE_LEFT "" None None)) ;;
      elapsed <- getStateElapsedTime ;;
      when (elapsed >? CARD_SCAN_TIMEOUT)
        (setState STATE_IDLE ;;
         fireEvent (mkEventData EVENT_TIMEOUT "" None None))
  | STATE_BARRIER_OPEN =>
      was <- member _vehicleWasDetected ;;
      when (negb vehicleDetected && was)
        (setState STATE_CLOSING_DELAY ;;
         fireEvent (mkEventData EVENT_VEHICLE_PASSED "" None None))
  | STATE_CLOSING_DELAY =>
      elapsed <- getStateElapsedTime ;;
      when (elapsed >=? GATE_CLOSE_DELAY)
        (closeGate ;;
         setState STATE_IDLE)
  end ;;
  assign (set_vehicleWasDetected vehicleDetected).

Definition is_waiting_card (st : GateState) : bool :=
  match st with STATE_WAITING_CARD => true | _ => false end.

Definition handleCardScanned (uid : string) (authorized : bool)
    (slot : Z) (parkingFull : bool) : M unit :=
  state <- member _state ;;
  if negb (is_waiting_card state) then ret tt else
  assign (set_lastScannedCard uid) ;;
  if negb authorized then
    fireEvent (mkEventData EVENT_CARD_DENIED uid (Some slot) None) ;;
    delay DISPLAY_MESSAGE_DURATION ;;
    setState STATE_IDLE
  else if parkingFull then
    fireEvent (mkEventData EVENT_PARKING_FULL uid (Some slot) None) ;;
    delay DISPLAY_MESSAGE_DURATION ;;
    setState STATE_IDLE
  else
    fireEvent (mkEventData EVENT_CARD_SCANNED uid (Some slot) None) ;;
    openGate 0.

Definition isOpen (g : GateController) : bool :=
  match _state g with
  | STATE_BARRIER_OPEN | STATE_CLOSING_DELAY => true
  | _ => false
  end.

Definition getState (g : GateController) : GateState := _state g.

Definition setEventCallback (callback : bool) : M unit :=
  assign (set_eventCallback callback).

Definition reset : M unit :=
  closeGate ;;
  setState STATE_IDLE ;;
  assign (set_lastScannedCard "").

(** The events handed to the callback, and the angles written to the
    servo, in an effect log. *)
Definition events (log : list Effect) : list GateEventData :=
  omap (fun e => match e with Callback d => Some d | _ => None end) log.

Definition servoWrites (log : list Effect) : list Z :=
  omap (fun e => match e with ServoWrite a => Some a | _ => None end) log.

(** One tick: the board shows [b] and [update] runs. *)
Definition tick (g : GateController) (b : Board)
  : GateController * list Effect :=
  let '(_, s, log) := update (mkSys g b) in (gate s, log).

(** Consecutive ticks, one board reading each. *)
Fixpoint ticks (g : GateController) (bs : list Board)
  : GateController * list Effect :=
  match bs with
  | [] => (g, [])
  | b :: rest =>
      let '(g1, log1) := tick g b in
      let '(g2, log2) := ticks g1 rest in
      (g2, log1 ++ log2)
  end.

Definition isVehicleDetected : M bool := readIRSensor.

(** *** The public calls as a transition system *)

Inductive Call :=
| CallBegin
| CallUpdate
| CallHandleCardScanned (uid : string) (authorized : bool) (slot : Z)
                        (parkingFull : bool)
| CallOpenGate (duration : Z)
| CallCloseGate
| CallReset
| CallSetEventCallback (callback : bool).

Definition call_body (c : Call) : M unit :=
  match c with
  | CallBegin => begin ;; ret tt
  | CallUpdate => update
  | CallHandleCardScanned uid authorized slot parkingFull =>
      handleCardScanned uid authorized slot parkingFull
  | CallOpenGate duration => openGate duration
  | CallCloseGate => closeGate
  | CallReset => reset
  | CallSetEventCallback callback => setEventCallback callback
  end.

(** One call, made while the board shows [snd c]. *)
Definition perform (g : GateController) (c : Call * Board)
  : GateController * list Effect :=
  let '(_, s, log) := call_body (fst c) (mkSys g (snd c)) in (gate s, log).

Fixpoint performAll (g : GateController) (cs : list (Call * Board))
  : GateController * list Effect :=
  match cs with
  | [] => (g, [])
  | c :: rest =>
      let '(g1, log1) := perform g c in
      let '(g2, log2) := performAll g1 rest in
      (g2, log1 ++ log2)
  end.

(** The angle the servo was told last; [angle] when the log has no
    write. *)
Fixpoint lastAngle (angle : Z) (log : list Effect) : Z :=
  match log with
  | [] => angle
  | ServoWrite a :: rest => lastAngle a rest
  | _ :: rest => lastAngle angle rest
  end.

End GateController.

(** ** RFIDManager *)

Module RFIDManager.
Import Config Arduino.

Record RFIDCard := mkCard {
  uid : string;
  isActive : bool;
  accessLevel : Z;
  ownerName : string
}.

(** The snapshot at offset 0 of the EEPROM buffer ([EEPROM.begin] has
    succeeded; [EEPROM.get] and [EEPROM.put] read and write that buffer).
    [cards] holds the entries of the stored array. *)
Record EEPROMData := mkData {
  magic : Z;
  numCards : Z;
  cards : list RFIDCard
}.

Record RFIDManager := mkRFID {
  _authorizedCards : list RFIDCard;
  _numCards : Z;
  _initialized : bool
}.

#[export] Instance RFIDCard_inhabited : Inhabited RFIDCard :=
  populate (mkCard "" false 0 "").

(** The constructor; the array is as the storage holds it. *)
Definition new (storage : list RFIDCard) : RFIDManager :=
  mkRFID storage 0 false.

(** The entries the loops [for (i = 0; i < _numCards; i++)] visit. *)
Definition whitelist (m : RFIDManager) : list RFIDCard :=
  take (Z.to_nat (_numCards m)) (_authorizedCards m).

Fixpoint isAuthorized_loop (l : list RFIDCard) (id : string) (level : Z)
  : bool * Z :=
  match l with
  | [] => (false, level)
  | c :: rest =>
      if equals id (uid c) && isActive c then (true, accessLevel c)
      else isAuthorized_loop rest id level
  end.

(** [level] is the caller's variable behind the reference parameter; the
    second component is its value after the call. *)
Definition isAuthorized (m : RFIDManager) (id : string) (level : Z)
  : bool * Z :=
  isAuthorized_loop (whitelist m) id level.

Fixpoint findCardIndex_loop (l : list RFIDCard) (id : string) (i : Z) : Z :=
  match l with
  | [] => -1
  | c :: rest =>
      if equals id (uid c) then i else findCardIndex_loop rest id (i + 1)
  end.

Definition findCardIndex (m : RFIDManager) (id : string) : Z :=
  findCardIndex_loop (whitelist m) id 0.

(** [EEPROM.put(0, data)] replaces the buffer; [commit] is what
    [EEPROM.commit()] answers. Only the first [_numCards] entries of
    [data.cards] are assigned. *)
Definition saveToEEPROM (m : RFIDManager) (commit : bool)
  : bool * EEPROMData :=
  (commit, mkData (to_int EEPROM_MAGIC) (_numCards m) (whitelist m)).

(** The copy loop [dst[i] = src[i]] for [count] indices from [i]. *)
Fixpoint copy_loop (src dst : list RFIDCard) (i count : nat)
  : list RFIDCard :=
  match count with
  | O => dst
  | S k => copy_loop src (<[i := src !!! i]> dst) (S i) k
  end.

(** The check of [loadFromEEPROM]: tag and bounded count. *)
Definition snapshot_valid (data : EEPROMData) : bool :=
  (to_uint (magic data) =? EEPROM_MAGIC)
  && (numCards data >=? 0)
  && (numCards data <=? MAX_RFID_CARDS).

Definition loadFromEEPROM (m : RFIDManager) (data : EEPROMData)
  : bool * RFIDManager :=
  if snapshot_valid data then
    (true,
     mkRFID (copy_loop (cards data) (_authorizedCards m) 0
                       (Z.to_nat (numCards data)))
            (numCards data) (_initialized m))
  else (false, m).

Definition defaultCards : list RFIDCard :=
  [ mkCard "0A1B2C3D" true ACCESS_ADMIN "Admin";
    mkCard "1A2B3C4D" true ACCESS_REGULAR "User1";
    mkCard "2A3B4C5D" true ACCESS_REGULAR "User2";
    mkCard "83DF0756" true ACCESS_REGULAR "Card1";
    mkCard "739E3F13" true ACCESS_REGULAR "Card2" ].

(** The result of [saveToEEPROM] is dropped. *)
Definition resetToDefaults (m : RFIDManager) (commit : bool)
  : RFIDManager * EEPROMData :=
  let m' :=
    mkRFID (copy_loop defaultCards (_authorizedCards m) 0 5)
           DEFAULT_CARD_COUNT (_initialized m) in
  (m', snd (saveToEEPROM m' commit)).

(** [EEPROM.get(0, magic)] reads the first field of the snapshot. *)
Definition initializeEEPROM (m : RFIDManager) (e : EEPROMData)
    (commit : bool) : RFIDManager * EEPROMData :=
  if negb (to_uint (magic e) =? EEPROM_MAGIC)
  then resetToDefaults m commit
  else (m, e).

Definition begin (m : RFIDManager) (e : EEPROMData) (commit : bool)
  : bool * RFIDManager * EEPROMData :=
  let '(m1, e1) := initializeEEPROM m e commit in
  let '(loaded, m2) := loadFromEEPROM m1 e1 in
  (loaded, mkRFID (_authorizedCards m2) (_numCards m2) true, e1).

Definition addCard (m : RFIDManager) (e : EEPROMData)
    (id name : string) (level : Z) (commit : bool)
  : bool * RFIDManager * EEPROMData :=
  if negb (findCardIndex m id =? -1) then (false, m, e) else
  if _numCards m >=? MAX_RFID_CARDS then (false, m, e) else
  let card := mkCard (toCharArray id 20) true level (toCharArray name 32) in
  let m' :=
    mkRFID (<[Z.to_nat (_numCards m) := card]> (_authorizedCards m))
           (_numCards m + 1) (_initialized m) in
  let '(success, e') := saveToEEPROM m' commit in
  (success, m', e').

(** The loop [a[i] = a[i + 1]] for [count] indices from [i]. *)
Fixpoint shift_loop (a : list RFIDCard) (i count : nat) : list RFIDCard :=
  match count with
  | O => a
  | S k => shift_loop (<[i := a !!! S i]> a) (S i) k
  end.

Definition removeCard (m : RFIDManager) (e : EEPROMData) (id : string)
    (commit : bool) : bool * RFIDManager * EEPROMData :=
  let index := findCardIndex m id in
  if index =? -1 then (false, m, e) else
  let m' :=
    mkRFID (shift_loop (_authorizedCards m) (Z.to_nat index)
                       (Z.to_nat (_numCards m - 1 - index)))
           (_numCards m - 1) (_initialized m) in
  let '(success, e') := saveToEEPROM m' commit in
  (success, m', e').

(** [name = None] is the null pointer; a name is cut to 31 characters. *)
Definition updateCard (m : RFIDManager) (e : EEPROMData) (id : string)
    (name : option string) (level : Z) (commit : bool)
  : bool * RFIDManager * EEPROMData :=
  let index := findCardIndex m id in
  if index =? -1 then (false, m, e) else
  let rename c :=
    match name with
    | Some n => mkCard (uid c) (isActive c) (accessLevel c)
                       (toCharArray n 32)
    | None => c
    end in
  let relevel c :=
    if level >=? 0 then mkCard (uid c) (isActive c) level (ownerName c)
    else c in
  let m' :=
    mkRFID (alter (fun c => relevel (rename c)) (Z.to_nat index)
                  (_authorizedCards m))
           (_numCards m) (_initialized m) in
  let '(success, e') := saveToEEPROM m' commit in
  (success, m', e').

Definition getCardCount (m : RFIDManager) : Z := _numCards m.

Definition clearAllCards (m : RFIDManager) (commit : bool)
  : bool * RFIDManager * EEPROMData :=
  let m' := mkRFID (_authorizedCards m) 0 (_initialized m) in
  let '(success, e') := saveToEEPROM m' commit in
  (success, m', e').

(** The array has [MAX_RFID_CARDS] entries. *)
Definition array_ok (m : RFIDManager) : Prop :=
  length (_authorizedCards m) = Z.to_nat MAX_RFID_CARDS.

(** No two entries of the whitelist carry the same UID. *)
Definition unique_uids (m : RFIDManager) : Prop :=
  NoDup (map uid (whitelist m)).

(** *** Reading a card *)

(** [card] is the caller's variable behind the reference parameter. *)
Definition getCardInfo (m : RFIDManager) (id : string) (card : RFIDCard)
  : bool * RFIDCard :=
  let index := findCardIndex m id in
  if index =? -1 then (false, card)
  else (true, _authorizedCards m !!! Z.to_nat index).

Inductive GateType := GATE_ENTRANCE | GATE_EXIT.

(** What each MFRC522 answers to [PICC_IsNewCardPresent] and
    [PICC_ReadCardSerial]: no new card, or the [uid.size] bytes of
    [uid.uidByte]. *)
Record Readers := mkReaders {
  _rfidEntrance : option (list Z);
  _rfidExit : option (list Z)
}.

(** The loop of [readCard] over the UID bytes; [uid] is the text so
    far. *)
Fixpoint readCard_loop (uidByte : list Z) (uid : string) : string :=
  match uidByte with
  | [] => uid
  | b :: rest =>
      readCard_loop rest
        (String.append (if b <? 16 then String.append uid "0" else uid)
                       (String_HEX b))
  end.

Definition readCard (r : Readers) (gate : GateType) : string :=
  let reader :=
    match gate with
    | GATE_ENTRANCE => _rfidEntrance r
    | GATE_EXIT => _rfidExit r
    end in
  match reader with
  | None => ""
  | Some uidByte => toUpperCase (readCard_loop uidByte "")
  end.

(** *** The mutating calls as a transition system *)

Inductive Request :=
| ReqAddCard (id name : string) (level : Z)
| ReqRemoveCard (id : string)
| ReqUpdateCard (id : string) (name : option string) (level : Z)
| ReqClearAllCards
| ReqResetToDefaults.

(** One call; [snd r] is what [EEPROM.commit()] answers during it. *)
Definition serve (st : RFIDManager * EEPROMData) (r : Request * bool)
  : RFIDManager * EEPROMData :=
  let '(m, e) := st in
  match fst r with
  | ReqAddCard id name level =>
      let '(_, m', e') := addCard m e id name level (snd r) in (m', e')
  | ReqRemoveCard id =>
      let '(_, m', e') := removeCard m e id (snd r) in (m', e')
  | ReqUpdateCard id name level =>
      let '(_, m', e') := updateCard m e id name level (snd r) in (m', e')
  | ReqClearAllCards =>
      let '(_, m', e') := clearAllCards m (snd r) in (m', e')
  | ReqResetToDefaults => resetToDefaults m (snd r)
  end.

Definition serveAll (st : RFIDManager * EEPROMData)
    (rs : list (Request * bool)) : RFIDManager * EEPROMData :=
  foldl serve st rs.

(** The UID of an [addCard] call fits the 20-byte buffer of a card. *)
Definition request_fits (r : Request * bool) : Prop :=
  match fst r with
  | ReqAddCard id _ _ => (String.length id < 20)%nat
  | _ => True
  end.

Definition count_ok (m : RFIDManager) : Prop :=
  0 <= _numCards m <= MAX_RFID_CARDS.

Definition whitelist_ok (m : RFIDManager) : Prop :=
  array_ok m /\ count_ok m /\ unique_uids m.

(** The EEPROM buffer holds the tag, the count and the cards of [m]. *)
Definition in_sync (m : RFIDManager) (e : EEPROMData) : Prop :=
  to_uint (magic e) = EEPROM_MAGIC
  /\ numCards e = _numCards m
  /\ take (Z.to_nat (numCards e)) (cards e) = whitelist m.

End RFIDManager.

(** ** LCDDisplay/LCDDisplay.cpp *)

Module LCDDisplay.
Import Config Arduino.

(** What the class sends to the I2C bus and to the LCD driver, and its
    [delay] calls, in the order they are made. *)
Inductive LcdCommand :=
| WireBegin (sda scl : Z)
| LcdInit
| LcdBacklight
| LcdNoBacklight
| LcdClear
| LcdSetCursor (col row : Z)
| LcdPrint (text : string)
| Delay (ms : Z).

Record LCDDisplay := mkDisplay {
  _line1Content : string;
  _line2Content : string;
  _initialized : bool
}.

(** The constructor. *)
Definition new : LCDDisplay := mkDisplay "" "" false.

Definition begin (d : LCDDisplay) : bool * LCDDisplay * list LcdCommand :=
  (true,
   mkDisplay (_line1Content d) (_line2Content d) true,
   [WireBegin I2C_SDA_PIN I2C_SCL_PIN; LcdInit; LcdBacklight; LcdClear]).

Definition clear (d : LCDDisplay) : LCDDisplay * list LcdCommand :=
  if negb (_initialized d) then (d, [])
  else (mkDisplay "" "" (_initialized d), [LcdClear]).

(** The padding loop of [formatLine]:
    [while (formatted.length() < LCD_COLS) formatted += " "]. *)
Fixpoint formatLine_pad (fuel : nat) (formatted : string) : string :=
  match fuel with
  | O => formatted
  | S fuel' =>
    if Z.of_nat (String.length formatted) <? LCD_COLS
    then formatLine_pad fuel' (String.append formatted " ")
    else formatted
  end.

Definition formatLine (text : string) : string :=
  let formatted :=
    if Z.of_nat (String.length text) >? LCD_COLS
    then String.substring 0 (Z.to_nat LCD_COLS) text
    else text in
  formatLine_pad (Z.to_nat LCD_COLS) formatted.

(** [row] is a [uint8_t]: 0 to 255. *)
Definition updateLine (d : LCDDisplay) (row : Z) (text : string)
  : LCDDisplay * list LcdCommand :=
  if negb (_initialized d) || (row >? 1) then (d, [])
  else
    let formattedText := formatLine text in
    (if row =? 0
     then mkDisplay formattedText (_line2Content d) (_initialized d)
     else mkDisplay (_line1Content d) formattedText (_initialized d),
     [LcdSetCursor 0 row; LcdPrint formattedText]).

Definition showMessage (d : LCDDisplay) (line1 line2 : string)
  : LCDDisplay * list LcdCommand :=
  if negb (_initialized d) then (d, [])
  else
    let '(d1, c1) := updateLine d 0 line1 in
    let '(d2, c2) := updateLine d1 1 line2 in
    (d2, c1 ++ c2).

Definition showTemporaryMessage (d : LCDDisplay) (line1 line2 : string)
    (duration : Z) : LCDDisplay * list LcdCommand :=
  if negb (_initialized d) then (d, [])
  else
    let savedLine1 := _line1Content d in
    let savedLine2 := _line2Content d in
    let '(d1, c1) := showMessage d line1 line2 in
    let '(d2, c2) := showMessage d1 savedLine1 savedLine2 in
    (d2, c1 ++ [Delay duration] ++ c2).

Definition setCursor (d : LCDDisplay) (col row : Z)
  : LCDDisplay * list LcdCommand :=
  if negb (_initialized d) then (d, []) else (d, [LcdSetCursor col row]).

Definition print (d : LCDDisplay) (text : string)
  : LCDDisplay * list LcdCommand :=
  if negb (_initialized d) then (d, []) else (d, [LcdPrint text]).

Definition setBacklight (d : LCDDisplay) (on : bool)
  : LCDDisplay * list LcdCommand :=
  if negb (_initialized d) then (d, [])
  else (d, [if on then LcdBacklight else LcdNoBacklight]).

Definition displaySlotStatus (d : LCDDisplay)
    (availableSlots totalSlots row : Z) : LCDDisplay * list LcdCommand :=
  if negb (_initialized d) then (d, [])
  else
    let message :=
      String.append
        (String.append
           (String.append "Slots: " (String_int availableSlots)) "/")
        (String_int totalSlots) in
    updateLine d row message.

Definition displayGateStatus (d : LCDDisplay) (gate status : string)
    (row : Z) : LCDDisplay * list LcdCommand :=
  if negb (_initialized d) then (d, [])
  else
    let message := String.append (String.append gate ": ") status in
    updateLine d row message.

(** A stored line is empty (constructor, [clear]) or 16 characters wide. *)
Definition line_ok (s : string) : Prop :=
  s = "" \/ String.length s = 16%nat.

(** The public interface as a transition system; the log collects the
    commands sent. *)
Inductive Call :=
| CallBegin
| CallClear
| CallUpdateLine (row : Z) (text : string)
| CallShowMessage (line1 line2 : string)
| CallShowTemporaryMessage (line1 line2 : string) (duration : Z)
| CallSetCursor (col row : Z)
| CallPrint (text : string)
| CallSetBacklight (on : bool)
| CallDisplaySlotStatus (availableSlots totalSlots row : Z)
| CallDisplayGateStatus (gate status : string) (row : Z).

Definition perform (d : LCDDisplay) (c : Call)
  : LCDDisplay * list LcdCommand :=
  match c with
  | CallBegin => let '(_, d', log) := begin d in (d', log)
  | CallClear => clear d
  | CallUpdateLine row text => updateLine d row text
  | CallShowMessage line1 line2 => showMessage d line1 line2
  | CallShowTemporaryMessage line1 line2 duration =>
      showTemporaryMessage d line1 line2 duration
  | CallSetCursor col row => setCursor d col row
  | CallPrint text => print d text
  | CallSetBacklight on => setBacklight d on
  | CallDisplaySlotStatus availableSlots totalSlots row =>
      displaySlotStatus d availableSlots totalSlots row
  | CallDisplayGateStatus gate status row =>
      displayGateStatus d gate status row
  end.

Fixpoint performAll (d : LCDDisplay) (calls : list Call)
  : LCDDisplay * list LcdCommand :=
  match calls with
  | [] => (d, [])
  | c :: rest =>
    let '(d1, log1) := perform d c in
    let '(d2, log2) := performAll d1 rest in
    (d2, log1 ++ log2)
  end.

End LCDDisplay.

(** ** TimeSync/TimeSync.cpp *)

Module TimeSync.
Import Config Arduino.

Inductive Effect :=
| ConfigTime (gmtOffset daylightOffset : Z) (server : string)
| Delay (ms : Z).

Record TimeSync := mkTimeSync {
  _synced : bool;
  _bootTime : Z
}.

(** The constructor, at the clock value [millis]. *)
Definition new (millis : Z) : TimeSync := mkTimeSync false (ulong millis / 1000).

Definition maxAttempts : Z := 10.

(** The loop of [begin]:
    [while (!getLocalTime(&timeinfo) && attempts < maxAttempts)
       { delay(500); attempts++; }].
    [getLocalTime] is answered by the SNTP client: [answers k] is the
    result of the call number [k] (from 0), and [call] counts the calls
    made.  The result is the final [attempts], the number of calls made
    and the delays. *)
Fixpoint begin_loop (fuel : nat) (answers : nat -> bool) (call : nat)
    (attempts : Z) : Z * nat * list Effect :=
  match fuel with
  | O => (attempts, call, [])
  | S fuel' =>
    if negb (answers call) && (attempts <? maxAttempts)
    then
      let '(attempts', calls, log) :=
        begin_loop fuel' answers (S call) (attempts + 1) in
      (attempts', calls, Delay 500 :: log)
    else (attempts, S call, [])
  end.

Definition begin_with (fuel : nat) (ts : TimeSync) (answers : nat -> bool)
  : bool * TimeSync * nat * list Effect :=
  let '(attempts, calls, log) := begin_loop fuel answers 0 0 in
  let log := ConfigTime GMT_OFFSET_SEC DAYLIGHT_OFFSET_SEC NTP_SERVER :: log in
  if attempts <? maxAttempts
  then (true, mkTimeSync true (_bootTime ts), calls, log)
  else (false, mkTimeSync false (_bootTime ts), calls, log).

(** The loop body runs at most [maxAttempts] times, so the condition is
    evaluated at most [maxAttempts + 1] times. *)
Definition begin (ts : TimeSync) (answers : nat -> bool)
  : bool * TimeSync * nat * list Effect :=
  begin_with (S (Z.to_nat maxAttempts)) ts answers.

Definition isSynced (ts : TimeSync) : bool := _synced ts.

(** [now] is what [time()] gives, [millis] the clock. *)
Definition getTimestamp (ts : TimeSync) (now millis : Z) : Z :=
  if _synced ts then ulong now else ulong millis / 1000.

(** [bufferNull]: the caller passed [nullptr]; [answer]: the result of
    [getLocalTime], when it is called. *)
Definition getFormattedTime (ts : TimeSync) (bufferNull : bool)
    (bufferSize : Z) (answer : bool) : bool :=
  if negb (_synced ts) || bufferNull || (bufferSize =? 0) then false
  else if negb answer then false
  else true.

Definition resync (ts : TimeSync) (answers : nat -> bool)
  : bool * TimeSync * nat * list Effect :=
  begin ts answers.

Definition getUptime (millis : Z) : Z := ulong millis / 1000.

End TimeSync.

(** * Properties *)

Module ArduinoFacts.
Import Arduino.

Lemma equals_true s t : equals s t = true <-> s = t.
Proof. apply String.eqb_eq. Qed.

Lemma equals_refl s : equals s s = true.
Proof. apply String.eqb_refl. Qed.

Lemma substring_whole (s : string) (n : nat) :
  (String.length s <= n)%nat -> String.substring 0 n s = s.
Proof.
  revert n. induction s as [|c s IH]; intros [|n] Hn; simpl in *;
    try reflexivity; try lia.
  f_equal. apply IH. lia.
Qed.

Lemma toCharArray_fits (s : string) (bufsize : nat) :
  (String.length s < bufsize)%nat -> toCharArray s bufsize = s.
Proof. intros H. apply substring_whole. lia. Qed.

Lemma ulong_small x : 0 <= x < ULONG_MOD -> ulong x = x.
Proof. intros H. apply Z.mod_small. exact H. Qed.

(** [String(int)] on a few values. *)
Example String_int_values :
  String_int 0 = "0" /\ String_int 7 = "7" /\ String_int 10 = "10"
  /\ String_int (-12) = "-12" /\ String_int 2147483647 = "2147483647".
Proof. vm_compute. repeat split. Qed.

End ArduinoFacts.

(** ** SlotManager: counting and the search loops *)

Module SlotManagerFacts.
Import Config Arduino ArduinoFacts SlotManager.

Lemma freeCount_occupiedCount slots :
  freeCount slots + occupiedCount slots = Z.of_nat (length slots).
Proof.
  induction slots as [|s rest IH]; [reflexivity|].
  cbn [freeCount occupiedCount length]. destruct (occupied s); lia.
Qed.

Lemma freeCount_alter f (slots : list ParkingSlot) (i : nat) s :
  slots !! i = Some s ->
  freeCount (alter f i slots)
  = freeCount slots - (if occupied s then 0 else 1)
                    + (if occupied (f s) then 0 else 1).
Proof.
  revert i. induction slots as [|h rest IH]; intros [|i] Hi;
    try discriminate.
  - injection Hi as ->. cbn. lia.
  - cbn in Hi |- *. rewrite (IH i Hi). lia.
Qed.

Lemma freeCount_vacate_all slots :
  freeCount (map vacate slots) = Z.of_nat (length slots).
Proof.
  induction slots as [|h rest IH]; [reflexivity|].
  cbn [map freeCount length vacate occupied]. lia.
Qed.

Lemma numbered_alter f (slots : list ParkingSlot) (i : nat) :
  (forall s, slotNumber (f s) = slotNumber s) ->
  numbered slots -> numbered (alter f i slots).
Proof.
  intros Hf Hn j s. destruct (decide (i = j)) as [->|Hij].
  - rewrite list_lookup_alter_eq.
    destruct (slots !! j) as [s0|] eqn:E; [|discriminate].
    cbn. intros [= <-]. rewrite Hf. apply Hn. exact E.
  - rewrite list_lookup_alter_ne by exact Hij. apply Hn.
Qed.

Lemma numbered_vacate_all slots :
  numbered slots -> numbered (map vacate slots).
Proof.
  intros Hn j s. change (map vacate slots) with (vacate <$> slots).
  rewrite list_lookup_fmap.
  destruct (slots !! j) as [s0|] eqn:E; [|discriminate].
  cbn. intros [= <-]. cbn. apply Hn. exact E.
Qed.

Lemma numbered_begin (n : nat) : numbered (map begin_slot (seq 0 n)).
Proof.
  intros j s. change (map begin_slot (seq 0 n)) with (begin_slot <$> seq 0 n).
  rewrite list_lookup_fmap.
  destruct (seq 0 n !! j) as [k|] eqn:E; [|discriminate].
  apply lookup_seq in E as [-> _].
  cbn. intros [= <-]. reflexivity.
Qed.

(** [findAvailableSlot]: either every slot is occupied and the answer is
    [-1], or the answer is the index of the first free slot. *)
Lemma findAvailableSlot_loop_spec slots k :
  (findAvailableSlot_loop slots k = -1
   /\ Forall (fun s => occupied s = true) slots)
  \/ (exists (i : nat) s,
        findAvailableSlot_loop slots k = k + Z.of_nat i
        /\ slots !! i = Some s /\ occupied s = false
        /\ forall (j : nat) s', (j < i)%nat -> slots !! j = Some s' ->
                                occupied s' = true).
Proof.
  revert k. induction slots as [|h rest IH]; intros k.
  - left. split; [reflexivity | constructor].
  - cbn [findAvailableSlot_loop]. destruct (occupied h) eqn:Hh; cbn [negb].
    + destruct (IH (k + 1)) as [[Hr Hall] | (i & s & Hr & Hi & Hs & Hlt)].
      * left. split; [exact Hr | constructor; assumption].
      * right. exists (S i), s. repeat split; try assumption.
        -- rewrite Hr. lia.
        -- intros [|j] s' Hj Hl.
           ++ injection Hl as <-. exact Hh.
           ++ apply (Hlt j); [lia | exact Hl].
    + right. exists 0%nat, h. repeat split; try reflexivity.
      * lia.
      * exact Hh.
      * intros j s' Hj. lia.
Qed.

Lemma findAvailableSlot_spec m :
  (findAvailableSlot m = -1
   /\ Forall (fun s => occupied s = true) (_slots m))
  \/ (exists (i : nat) s,
        findAvailableSlot m = Z.of_nat i
        /\ _slots m !! i = Some s /\ occupied s = false
        /\ forall (j : nat) s', (j < i)%nat -> _slots m !! j = Some s' ->
                                occupied s' = true).
Proof.
  unfold findAvailableSlot.
  destruct (findAvailableSlot_loop_spec (_slots m) 0)
    as [H | (i & s & Hr & H)]; [left; exact H|].
  right. exists i, s. split; [rewrite Hr; lia | exact H].
Qed.

(** Occupying a free slot either leaves the answer of [findSlotByCard]
    as it was, or makes it the number of that slot. *)
Lemma findSlotByCard_loop_alter f (slots : list ParkingSlot) (i : nat) s u :
  slots !! i = Some s -> occupied s = false ->
  findSlotByCard_loop (alter f i slots) u = findSlotByCard_loop slots u
  \/ findSlotByCard_loop (alter f i slots) u = slotNumber (f s).
Proof.
  revert i. induction slots as [|h rest IH]; intros [|i] Hi Hfree;
    try discriminate.
  - injection Hi as ->. cbn [alter list_alter findSlotByCard_loop].
    rewrite Hfree. cbn [andb].
    destruct (occupied (f s) && equals u (cardUID (f s)));
      [right | left]; reflexivity.
  - cbn in Hi. cbn [alter list_alter findSlotByCard_loop].
    destruct (occupied h && equals u (cardUID h)); [left; reflexivity|].
    apply IH; assumption.
Qed.

(** The four ways through [allocateSlot]. *)
Lemma allocateSlot_cases m uid entryTime millis :
  (_initialized m = false
   /\ allocateSlot m uid entryTime millis = (-1, m))
  \/ (_initialized m = true /\ findSlotByCard m uid <> -1
      /\ allocateSlot m uid entryTime millis = (findSlotByCard m uid, m))
  \/ (_initialized m = true /\ findSlotByCard m uid = -1
      /\ Forall (fun s => occupied s = true) (_slots m)
      /\ allocateSlot m uid entryTime millis = (-1, m))
  \/ (_initialized m = true /\ findSlotByCard m uid = -1
      /\ exists (i : nat) s,
           _slots m !! i = Some s /\ occupied s = false
           /\ (forall (j : nat) s', (j < i)%nat ->
                  _slots m !! j = Some s' -> occupied s' = true)
           /\ allocateSlot m uid entryTime millis
              = (slotNumber s,
                 mkManager (alter (occupy uid entryTime millis) i (_slots m))
                           (_availableSlots m - 1) true)).
Proof.
  unfold allocateSlot.
  destruct (_initialized m); cbn [negb]; [|left; split; reflexivity].
  right.
  destruct (findSlotByCard m uid =? -1) eqn:Hex; cbn [negb].
  2:{ left. apply Z.eqb_neq in Hex. repeat split. exact Hex. }
  apply Z.eqb_eq in Hex. right.
  destruct (findAvailableSlot_spec m)
    as [[Hr Hall] | (i & s & Hr & Hi & Hs & Hlt)]; rewrite Hr.
  { left. repeat split; assumption. }
  right. split; [reflexivity|]. split; [exact Hex|].
  exists i, s. repeat split; try assumption.
  replace (Z.of_nat i =? -1) with false by (symmetry; apply Z.eqb_neq; lia).
  rewrite Nat2Z.id.
  assert (Hnew : alter (occupy uid entryTime millis) i (_slots m) !! i
                 = Some (occupy uid entryTime millis s))
    by (rewrite list_lookup_alter_eq, Hi; reflexivity).
  rewrite (list_lookup_total_correct _ _ _ Hnew). reflexivity.
Qed.

(** *** The invariant *)

Lemma begin_Inv m : Inv (snd (begin m)).
Proof.
  unfold begin, Inv, array_ok, count_ok. cbn [snd _initialized _slots
    _availableSlots].
  repeat split.
  - apply numbered_begin.
Qed.

Lemma allocateSlot_Inv m uid entryTime millis :
  Inv m -> Inv (snd (allocateSlot m uid entryTime millis)).
Proof.
  intros HI.
  destruct (allocateSlot_cases m uid entryTime millis)
    as [[_ ->] | [(_ & _ & ->) | [(_ & _ & _ & ->)
                                 | (_ & _ & i & s & Hi & Hs & _ & ->)]]];
    try exact HI.
  destruct HI as (Hinit & (Hlen & Hnum) & Hcount).
  unfold Inv, array_ok, count_ok.
  cbn [snd _initialized _slots _availableSlots].
  repeat split.
  - rewrite length_alter. exact Hlen.
  - apply numbered_alter; [reflexivity | exact Hnum].
  - rewrite (freeCount_alter _ _ _ _ Hi), Hs. cbn [occupy occupied].
    unfold count_ok in Hcount. lia.
Qed.

Lemma releaseSlot_Inv m n millis :
  Inv m -> Inv (snd (releaseSlot m n millis)).
Proof.
  intros (Hinit & (Hlen & Hnum) & Hcount). unfold releaseSlot.
  rewrite Hinit. cbn [negb orb].
  destruct (isValidSlotNumber n) eqn:Hv; cbn [negb];
    [|cbn; repeat split; assumption].
  unfold isValidSlotNumber, slotNumberToIndex in *.
  apply andb_true_iff in Hv as [H1 H2].
  apply Z.leb_le in H1, H2.
  assert (Hlt : (Z.to_nat (n - 1) < length (_slots m))%nat)
    by (rewrite Hlen; unfold TOTAL_SLOTS in *; lia).
  apply list_lookup_lookup_total_lt in Hlt.
  destruct (occupied (_slots m !!! Z.to_nat (n - 1))) eqn:Ho; cbn [negb];
    [|cbn; repeat split; assumption].
  unfold Inv, array_ok, count_ok.
  cbn [snd _initialized _slots _availableSlots].
  repeat split.
  - rewrite length_alter. exact Hlen.
  - apply numbered_alter; [reflexivity | exact Hnum].
  - rewrite (freeCount_alter _ _ _ _ Hlt), Ho. cbn [vacate occupied].
    unfold count_ok in Hcount. lia.
Qed.

Lemma releaseSlotByCard_Inv m uid millis :
  Inv m -> Inv (snd (releaseSlotByCard m uid millis)).
Proof.
  intros HI. unfold releaseSlotByCard.
  destruct (findSlotByCard m uid =? -1); [exact HI|].
  pose proof (releaseSlot_Inv m (findSlotByCard m uid) millis HI) as H.
  destruct (releaseSlot m (findSlotByCard m uid) millis). exact H.
Qed.

Lemma clearAllSlots_Inv m : Inv m -> Inv (clearAllSlots m).
Proof.
  intros (Hinit & (Hlen & Hnum) & Hcount).
  unfold Inv, array_ok, count_ok, clearAllSlots.
  cbn [_initialized _slots _availableSlots].
  repeat split.
  - exact Hinit.
  - rewrite length_map. exact Hlen.
  - apply numbered_vacate_all. exact Hnum.
  - rewrite freeCount_vacate_all, Hlen. reflexivity.
Qed.

Lemma step_Inv m call : Inv m -> Inv (step m call).
Proof.
  destruct call as [[ | uid entryTime | n | uid | ] millis]; cbn [step].
  - intros _. apply begin_Inv.
  - apply allocateSlot_Inv.
  - apply releaseSlot_Inv.
  - apply releaseSlotByCard_Inv.
  - apply clearAllSlots_Inv.
Qed.

Lemma run_Inv calls : forall m, Inv m -> Inv (run m calls).
Proof.
  unfold run. induction calls as [|c rest IH]; intros m HI; [exact HI|].
  cbn [foldl]. apply IH, step_Inv, HI.
Qed.

(** C1: after [begin()], whatever public operations follow
    ([allocateSlot], [releaseSlot], [releaseSlotByCard], [clearAllSlots],
    or [begin] again), the cached count of available slots is the number
    of slots whose [occupied] flag is false, and together with the number
    of occupied slots it makes [TOTAL_SLOTS]. *)
Theorem available_count_invariant (m0 : SlotManager)
    (calls : list (Op * Z)) :
  getAvailableSlots (run (snd (begin m0)) calls)
    = freeCount (_slots (run (snd (begin m0)) calls))
  /\ getAvailableSlots (run (snd (begin m0)) calls)
     + occupiedCount (_slots (run (snd (begin m0)) calls))
     = TOTAL_SLOTS.
Proof.
  destruct (run_Inv calls _ (begin_Inv m0)) as (_ & (Hlen & _) & Hcount).
  unfold count_ok in Hcount. unfold getAvailableSlots.
  split; [exact Hcount|].
  rewrite Hcount, freeCount_occupiedCount, Hlen. reflexivity.
Qed.

(** *** Allocation *)

Lemma alter_as_insert {A} (f : A -> A) (l : list A) (i : nat) x :
  l !! i = Some x -> alter f i l = <[i := f x]> l.
Proof.
  revert i. induction l as [|h rest IH]; intros [|i] Hi; try discriminate.
  - injection Hi as ->. reflexivity.
  - cbn in Hi |- *. f_equal. apply IH. exact Hi.
Qed.

Lemma isValidSlotNumber_range n :
  isValidSlotNumber n = true <-> 1 <= n <= TOTAL_SLOTS.
Proof.
  unfold isValidSlotNumber. rewrite andb_true_iff, !Z.leb_le. reflexivity.
Qed.

(** Under [array_ok], slot number [i + 1] is entry [i] of the array. *)
Lemma isSlotOccupied_lookup m (i : nat) s :
  array_ok m -> _slots m !! i = Some s ->
  isValidSlotNumber (Z.of_nat i + 1) = true
  /\ isSlotOccupied m (Z.of_nat i + 1) = occupied s.
Proof.
  intros [Hlen _] Hi.
  assert (Hv : isValidSlotNumber (Z.of_nat i + 1) = true).
  { apply isValidSlotNumber_range. apply lookup_lt_Some in Hi.
    rewrite Hlen in Hi. unfold TOTAL_SLOTS in *. lia. }
  split; [exact Hv|].
  unfold isSlotOccupied, slotNumberToIndex. rewrite Hv. cbn [negb].
  replace (Z.to_nat (Z.of_nat i + 1 - 1)) with i by lia.
  rewrite (list_lookup_total_correct _ _ _ Hi). reflexivity.
Qed.

Lemma valid_slot_lookup m n :
  array_ok m -> isValidSlotNumber n = true ->
  exists s, _slots m !! Z.to_nat (n - 1) = Some s
            /\ isSlotOccupied m n = occupied s.
Proof.
  intros Hok Hv. pose proof Hv as Hr. apply isValidSlotNumber_range in Hr.
  destruct Hok as [Hlen Hnum].
  destruct (lookup_lt_is_Some_2 (_slots m) (Z.to_nat (n - 1))) as [s Hs].
  { rewrite Hlen. unfold TOTAL_SLOTS in *. lia. }
  exists s. split; [exact Hs|].
  unfold isSlotOccupied, slotNumberToIndex. rewrite Hv. cbn [negb].
  rewrite (list_lookup_total_correct _ _ _ Hs). reflexivity.
Qed.

(** On a numbered array a slot held by [u] is found. *)
Lemma findSlotByCard_loop_found (slots : list ParkingSlot) (i : nat) s u :
  (forall s', s' ∈ slots -> slotNumber s' <> -1) ->
  slots !! i = Some s -> occupied s = true -> cardUID s = u ->
  findSlotByCard_loop slots u <> -1.
Proof.
  revert i. induction slots as [|h rest IH]; intros [|i] Hnum Hi Ho Hu;
    try discriminate; cbn [findSlotByCard_loop].
  - injection Hi as ->. rewrite Ho, Hu, equals_refl. cbn [andb].
    apply Hnum. left.
  - destruct (occupied h && equals u (cardUID h)).
    + apply Hnum. left.
    + apply (IH i); try assumption.
      intros s' Hs'. apply Hnum. right. exact Hs'.
Qed.

Lemma numbered_ne_sentinel slots :
  numbered slots -> forall s, s ∈ slots -> slotNumber s <> -1.
Proof.
  intros Hn s Hs. apply list_elem_of_lookup_1 in Hs as [i Hi].
  rewrite (Hn i s Hi). lia.
Qed.

(** A card that already holds a slot gets that slot again, and nothing
    changes. *)
Lemma allocateSlot_existing m uid entryTime millis :
  _initialized m = true -> findSlotByCard m uid <> -1 ->
  allocateSlot m uid entryTime millis = (findSlotByCard m uid, m).
Proof.
  intros Hinit Hf. unfold allocateSlot. rewrite Hinit. cbn [negb].
  apply Z.eqb_neq in Hf. rewrite Hf. reflexivity.
Qed.

(** A successful allocation to a UID that fits the 20-byte buffer makes
    that UID the holder of the slot returned. *)
Lemma allocateSlot_then_holds m uid entryTime millis :
  array_ok m -> (String.length uid < 20)%nat ->
  fst (allocateSlot m uid entryTime millis) <> -1 ->
  findSlotByCard (snd (allocateSlot m uid entryTime millis)) uid
  = fst (allocateSlot m uid entryTime millis).
Proof.
  intros [Hlen Hnum] Hfit.
  destruct (allocateSlot_cases m uid entryTime millis)
    as [[_ ->] | [(_ & _ & ->) | [(_ & _ & _ & ->)
                                 | (_ & Hex & i & s & Hi & Hs & _ & ->)]]];
    cbn [fst snd]; try congruence.
  intros _. unfold findSlotByCard in *. cbn [_slots].
  destruct (findSlotByCard_loop_alter (occupy uid entryTime millis)
              (_slots m) i s uid Hi Hs) as [Hsame | Hthis];
    [|exact Hthis].
  exfalso.
  apply (findSlotByCard_loop_found
           (alter (occupy uid entryTime millis) i (_slots m)) i
           (occupy uid entryTime millis s) uid).
  - apply numbered_ne_sentinel, numbered_alter; [reflexivity | exact Hnum].
  - rewrite list_lookup_alter_eq, Hi. reflexivity.
  - reflexivity.
  - cbn [occupy cardUID]. apply toCharArray_fits. exact Hfit.
  - rewrite Hsame. exact Hex.
Qed.

(** A UID of 20 characters (a 10-byte card UID in hex) does not fit the
    buffer: the slot is held by its first 19 characters, and a second
    call takes a second slot. *)
Example allocateSlot_uid_of_20_characters :
  let m1 := snd (begin (new [])) in
  let uid := "0123456789ABCDEF0123" in
  let r1 := allocateSlot m1 uid 0 5000 in
  let r2 := allocateSlot (snd r1) uid 0 6000 in
  fst r1 = 1 /\ findSlotByCard (snd r1) uid = -1
  /\ fst r2 = 2 /\ getAvailableSlots (snd r2) = 8.
Proof. vm_compute. repeat split. Qed.

(** C2: the code breaks the claim for the text of a 10-byte card UID.
    On a freshly begun allocator, [allocateSlot] for the 20 characters
    [readCard] returns for such a card takes slot 1 and stores the first
    19 characters; [findSlotByCard] compares all 20 and does not find the
    card, so the second call (nothing released in between) takes slot 2
    instead of returning slot 1: the available count goes from 10 to 9
    and then to 8. *)
Theorem allocateSlot_twice_10_byte_uid :
  let uid := "04A1B2C3D4E5F6112233" in
  let m := snd (begin (new [])) in
  let r1 := allocateSlot m uid 0 5000 in
  let r2 := allocateSlot (snd r1) uid 0 6000 in
  RFIDManager.readCard
    (RFIDManager.mkReaders
       (Some [4; 161; 178; 195; 212; 229; 246; 17; 34; 51]) None)
    RFIDManager.GATE_ENTRANCE = uid
  /\ getAvailableSlots m = 10
  /\ fst r1 = 1
  /\ getAvailableSlots (snd r1) = 9
  /\ cardUID (_slots (snd r1) !!! 0%nat) = "04A1B2C3D4E5F611223"
  /\ findSlotByCard (snd r1) uid = -1
  /\ fst r2 = 2
  /\ getAvailableSlots (snd r2) = 8
  /\ r2 <> r1.
Proof.
  vm_compute. repeat (split; [reflexivity|]). discriminate.
Qed.

(** C5: for a UID that holds no slot, on an initialised allocator:
    if some slot is free, [allocateSlot] returns the lowest free slot
    number, writes holder and entry time into that slot only and
    decrements the count; if no slot is free it returns [-1] and the
    state is unchanged. *)
Theorem allocateSlot_first_fit (m : SlotManager) (uid : string)
    (entryTime millis : Z) :
  _initialized m = true -> array_ok m -> findSlotByCard m uid = -1 ->
  ((exists k, isValidSlotNumber k = true /\ isSlotOccupied m k = false) ->
   exists n m',
     allocateSlot m uid entryTime millis = (n, m')
     /\ isValidSlotNumber n = true
     /\ isSlotOccupied m n = false
     /\ (forall k, isValidSlotNumber k = true ->
                   isSlotOccupied m k = false -> n <= k)
     /\ _slots m'
        = <[Z.to_nat (n - 1) :=
              mkSlot true (toCharArray uid 20)
                     (if entryTime =? 0 then millis / 1000 else entryTime)
                     n]> (_slots m)
     /\ isSlotOccupied m' n = true
     /\ _availableSlots m' = _availableSlots m - 1)
  /\ ((forall k, isValidSlotNumber k = true -> isSlotOccupied m k = true) ->
      allocateSlot m uid entryTime millis = (-1, m)).
Proof.
  intros Hinit Hok Hnone.
  destruct (allocateSlot_cases m uid entryTime millis)
    as [[Hi0 _] | [(_ & Hex & _) | [(_ & _ & Hall & Hr)
                    | (_ & _ & i & s & Hi & Hs & Hlt & Hr)]]];
    try congruence.
  - (* every slot occupied *)
    split; [|intros _; exact Hr].
    intros (k & Hk & Hfree). exfalso.
    destruct (valid_slot_lookup m k Hok Hk) as (s & Hs & Ho).
    rewrite Forall_lookup in Hall. specialize (Hall _ _ Hs). congruence.
  - (* slot [i] is the first free one *)
    destruct (isSlotOccupied_lookup m i s Hok Hi) as [Hv Ho].
    pose proof Hok as [Hlen Hnum]. pose proof (Hnum i s Hi) as Hn.
    split.
    + intros _. eexists _, _. split; [exact Hr|]. rewrite Hn.
      replace (Z.to_nat (Z.of_nat i + 1 - 1)) with i by lia.
      repeat split.
      * exact Hv.
      * rewrite Ho. exact Hs.
      * intros k Hk Hfree.
        destruct (valid_slot_lookup m k Hok Hk) as (s' & Hs' & Ho').
        apply isValidSlotNumber_range in Hk.
        destruct (Z_lt_le_dec k (Z.of_nat i + 1)) as [Hlt'|]; [|lia].
        exfalso. assert (occupied s' = true)
          by (apply (Hlt (Z.to_nat (k - 1))); [lia | exact Hs']).
        congruence.
      * cbn [_slots]. rewrite (alter_as_insert _ _ _ _ Hi).
        unfold occupy. rewrite Hn. reflexivity.
      * unfold isSlotOccupied, slotNumberToIndex. rewrite Hv. cbn [negb _slots].
        replace (Z.to_nat (Z.of_nat i + 1 - 1)) with i by lia.
        rewrite list_lookup_total_alter_eq
          by (apply lookup_lt_Some in Hi; exact Hi).
        reflexivity.
    + intros Hfull. exfalso. specialize (Hfull _ Hv). congruence.
Qed.

(** An allocator with slots 1 and 2 taken, and a full one. *)
Lemma allocateSlot_first_fit_witness :
  let m := run (snd (begin (new [])))
               [(OpAllocateSlot "1A2B3C4D" 0, 1000);
                (OpAllocateSlot "2A3B4C5D" 0, 2000)] in
  let full := mkManager (map (fun i => mkSlot true "1A2B3C4D" 7
                                             (Z.of_nat i + 1))
                             (seq 0 10)) 0 true in
  (exists n m',
     allocateSlot m "0A1B2C3D" 0 5000 = (n, m')
     /\ isValidSlotNumber n = true
     /\ isSlotOccupied m n = false
     /\ (forall k, isValidSlotNumber k = true ->
                   isSlotOccupied m k = false -> n <= k)
     /\ _slots m'
        = <[Z.to_nat (n - 1) :=
              mkSlot true (toCharArray "0A1B2C3D" 20)
                     (if 0 =? 0 then 5000 / 1000 else 0) n]> (_slots m)
     /\ isSlotOccupied m' n = true
     /\ _availableSlots m' = _availableSlots m - 1)
  /\ allocateSlot full "0A1B2C3D" 0 5000 = (-1, full).
Proof.
  intros m full. split.
  - apply (allocateSlot_first_fit m "0A1B2C3D" 0 5000).
    + reflexivity.
    + split; [reflexivity|].
      intros i s Hi.
      do 10 (destruct i as [|i]; [injection Hi as <-; reflexivity|]).
      discriminate.
    + reflexivity.
    + exists 3. split; reflexivity.
  - apply (allocateSlot_first_fit full "0A1B2C3D" 0 5000).
    + reflexivity.
    + split; [reflexivity|].
      intros i s Hi.
      do 10 (destruct i as [|i]; [injection Hi as <-; reflexivity|]).
      discriminate.
    + reflexivity.
    + intros k Hk. apply isValidSlotNumber_range in Hk.
      unfold TOTAL_SLOTS in Hk.
      assert (Hc : k = 1 \/ k = 2 \/ k = 3 \/ k = 4 \/ k = 5 \/ k = 6
                   \/ k = 7 \/ k = 8 \/ k = 9 \/ k = 10) by lia.
      repeat (destruct Hc as [-> | Hc]; [reflexivity|]).
      rewrite Hc. reflexivity.
Defined.

(** *** Release *)

(** C6: [releaseSlot] returns 0 and changes nothing when the slot is not
    occupied (an invalid number included); when the slot is occupied, on
    an initialised allocator, it clears holder and entry time of that
    slot only, increments the count and returns the seconds elapsed
    since the entry time, computed in [unsigned long]. *)
Theorem releaseSlot_contract (m : SlotManager) (n millis : Z) :
  (isSlotOccupied m n = false -> releaseSlot m n millis = (0, m))
  /\ (_initialized m = true -> isSlotOccupied m n = true ->
      exists s m',
        _slots m !! Z.to_nat (n - 1) = Some s
        /\ releaseSlot m n millis
           = (ulong (millis / 1000 - entryTime s), m')
        /\ _slots m'
           = <[Z.to_nat (n - 1) := mkSlot false "" 0 (slotNumber s)]>
               (_slots m)
        /\ isSlotOccupied m' n = false
        /\ _availableSlots m' = _availableSlots m + 1
        /\ _initialized m' = true
        /\ (0 <= entryTime s <= millis / 1000 -> millis < 2 ^ 32 ->
            ulong (millis / 1000 - entryTime s)
            = millis / 1000 - entryTime s)).
Proof.
  unfold isSlotOccupied, releaseSlot, slotNumberToIndex. split.
  - destruct (_initialized m); cbn [negb orb]; [|reflexivity].
    destruct (isValidSlotNumber n); cbn [negb]; [|reflexivity].
    intros ->. reflexivity.
  - intros -> Hocc. cbn [negb orb].
    destruct (isValidSlotNumber n) eqn:Hv; cbn [negb] in *;
      [|discriminate].
    rewrite Hocc. cbn [negb].
    destruct (_slots m !! Z.to_nat (n - 1)) as [s|] eqn:Hs.
    2:{ exfalso. apply lookup_ge_None in Hs.
        rewrite list_lookup_total_alt in Hocc.
        apply lookup_ge_None in Hs. rewrite Hs in Hocc.
        discriminate. }
    rewrite (list_lookup_total_correct _ _ _ Hs) in *.
    eexists s, _. split; [reflexivity|]. split; [reflexivity|].
    cbn [_slots _availableSlots _initialized].
    repeat split.
    + rewrite (alter_as_insert _ _ _ _ Hs). reflexivity.
    + rewrite list_lookup_total_alter_eq
        by (apply lookup_lt_Some in Hs; exact Hs).
      reflexivity.
    + intros Hrange Hm. apply ulong_small. unfold ULONG_MOD.
      pose proof (Z.div_mod millis 1000 ltac:(lia)).
      pose proof (Z.mod_pos_bound millis 1000 ltac:(lia)).
      lia.
Qed.

(** Slot 1 released twice: 12 seconds, then 0. *)
Lemma releaseSlot_contract_witness :
  let m := snd (allocateSlot (snd (begin (new []))) "0A1B2C3D" 0 5000) in
  releaseSlot (snd (releaseSlot m 1 17000)) 1 18000
  = (0, snd (releaseSlot m 1 17000))
  /\ exists s m',
       _slots m !! Z.to_nat (1 - 1) = Some s
       /\ releaseSlot m 1 17000 = (ulong (17000 / 1000 - entryTime s), m')
       /\ _slots m'
          = <[Z.to_nat (1 - 1) := mkSlot false "" 0 (slotNumber s)]>
              (_slots m)
       /\ isSlotOccupied m' 1 = false
       /\ _availableSlots m' = _availableSlots m + 1
       /\ _initialized m' = true
       /\ (0 <= entryTime s <= 17000 / 1000 -> 17000 < 2 ^ 32 ->
           ulong (17000 / 1000 - entryTime s)
           = 17000 / 1000 - entryTime s).
Proof.
  intros m. split.
  - apply (releaseSlot_contract (snd (releaseSlot m 1 17000)) 1 18000).
    reflexivity.
  - apply (releaseSlot_contract m 1 17000); reflexivity.
Defined.

(** *** Further facts on counting and searching *)

Lemma freeCount_nonneg slots : 0 <= freeCount slots.
Proof.
  induction slots as [|s rest IH]; cbn [freeCount]; [lia|].
  destruct (occupied s); lia.
Qed.

Lemma freeCount_zero_all_occupied slots :
  freeCount slots = 0 -> Forall (fun s => occupied s = true) slots.
Proof.
  induction slots as [|s rest IH]; cbn [freeCount]; intros H; constructor.
  - destruct (occupied s); [reflexivity|].
    pose proof (freeCount_nonneg rest). lia.
  - apply IH. pose proof (freeCount_nonneg rest).
    destruct (occupied s); lia.
Qed.

Lemma all_occupied_freeCount_zero slots :
  Forall (fun s => occupied s = true) slots -> freeCount slots = 0.
Proof.
  induction 1 as [|s rest Hs _ IH]; cbn [freeCount]; [reflexivity|].
  rewrite Hs, IH. reflexivity.
Qed.

(** [findSlotByCard]: [-1] when no occupied slot carries the UID,
    otherwise the number of the first one that does. *)
Lemma findSlotByCard_loop_spec (slots : list ParkingSlot) (u : string) :
  (findSlotByCard_loop slots u = -1
   /\ forall s, s ∈ slots -> occupied s = true -> cardUID s <> u)
  \/ (exists (i : nat) s,
        slots !! i = Some s /\ occupied s = true /\ cardUID s = u
        /\ findSlotByCard_loop slots u = slotNumber s).
Proof.
  induction slots as [|h rest IH]; cbn [findSlotByCard_loop].
  - left. split; [reflexivity|]. intros s Hs. inversion Hs.
  - destruct (occupied h) eqn:Ho; cbn [andb].
    + destruct (equals u (cardUID h)) eqn:He.
      * right. exists 0%nat, h. repeat split; try assumption.
        symmetry. apply equals_true. exact He.
      * destruct IH as [[Hr Hall] | (i & s & Hi & Hs & Hu & Hr)].
        -- left. split; [exact Hr|]. intros s Hs Hso.
           apply elem_of_cons in Hs as [-> | Hs]; [|exact (Hall s Hs Hso)].
           intros E. rewrite E, equals_refl in He. discriminate.
        -- right. exists (S i), s. repeat split; assumption.
    + destruct IH as [[Hr Hall] | (i & s & Hi & Hs & Hu & Hr)].
      * left. split; [exact Hr|]. intros s Hs Hso.
        apply elem_of_cons in Hs as [-> | Hs]; [congruence|].
        exact (Hall s Hs Hso).
      * right. exists (S i), s. repeat split; assumption.
Qed.

Lemma findSlotByCard_loop_none (slots : list ParkingSlot) (u : string) :
  (forall s, s ∈ slots -> occupied s = true -> cardUID s <> u) ->
  findSlotByCard_loop slots u = -1.
Proof.
  induction slots as [|h rest IH]; intros Hall; [reflexivity|].
  cbn [findSlotByCard_loop].
  destruct (occupied h) eqn:Ho; cbn [andb].
  - destruct (equals u (cardUID h)) eqn:He.
    + apply equals_true in He. exfalso.
      apply (Hall h); [left | exact Ho | congruence].
    + apply IH. intros s Hs. apply Hall. right. exact Hs.
  - apply IH. intros s Hs. apply Hall. right. exact Hs.
Qed.

(** On a numbered array, the answer [-1] means that no occupied slot
    carries the UID. *)
Lemma findSlotByCard_none_inv (slots : list ParkingSlot) (u : string) :
  numbered slots -> findSlotByCard_loop slots u = -1 ->
  forall s, s ∈ slots -> occupied s = true -> cardUID s <> u.
Proof.
  intros Hnum Hr s Hs Ho Hu.
  apply list_elem_of_lookup_1 in Hs as [i Hi].
  apply (findSlotByCard_loop_found slots i s u); try assumption.
  apply numbered_ne_sentinel. exact Hnum.
Qed.

(** Rewriting a slot that does not match [u], before or after, leaves the
    answer of [findSlotByCard] for [u] as it was. *)
Lemma findSlotByCard_loop_alter_other f (slots : list ParkingSlot)
    (i : nat) s u :
  slots !! i = Some s ->
  occupied s && equals u (cardUID s) = false ->
  occupied (f s) && equals u (cardUID (f s)) = false ->
  findSlotByCard_loop (alter f i slots) u = findSlotByCard_loop slots u.
Proof.
  revert i. induction slots as [|h rest IH]; intros [|i] Hi Hb Ha;
    try discriminate.
  - injection Hi as ->. cbn [alter list_alter findSlotByCard_loop].
    rewrite Hb, Ha. reflexivity.
  - cbn in Hi. cbn [alter list_alter findSlotByCard_loop].
    rewrite (IH i Hi Hb Ha). reflexivity.
Qed.

(** *** Invariants of the reachable states *)

Lemma vacant_clean_alter f (slots : list ParkingSlot) (i : nat) :
  (forall s, occupied (f s) = false -> cardUID (f s) = "" /\ entryTime (f s) = 0) ->
  vacant_clean slots -> vacant_clean (alter f i slots).
Proof.
  intros Hf Hc s Hs Ho. apply list_elem_of_lookup_1 in Hs as [j Hj].
  destruct (decide (i = j)) as [->|Hij].
  - rewrite list_lookup_alter_eq in Hj.
    destruct (slots !! j) as [s0|]; [|discriminate].
    cbn in Hj. injection Hj as <-. apply Hf. exact Ho.
  - rewrite list_lookup_alter_ne in Hj by exact Hij.
    apply Hc; [|exact Ho]. apply (list_elem_of_lookup_2 _ j). exact Hj.
Qed.

Lemma vacant_clean_begin (n : nat) :
  vacant_clean (map begin_slot (seq 0 n)).
Proof.
  intros s Hs _. change (map begin_slot (seq 0 n)) with (begin_slot <$> seq 0 n) in Hs.
  apply list_elem_of_fmap in Hs as (k & -> & _). split; reflexivity.
Qed.

Lemma vacant_clean_vacate_all slots : vacant_clean (map vacate slots).
Proof.
  intros s Hs _. change (map vacate slots) with (vacate <$> slots) in Hs.
  apply list_elem_of_fmap in Hs as (k & -> & _). split; reflexivity.
Qed.

Lemma step_vacant_clean m call :
  vacant_clean (_slots m) -> vacant_clean (_slots (step m call)).
Proof.
  intros Hc. destruct call as [[ | uid entryTime | n | uid | ] millis];
    cbn [step].
  - apply vacant_clean_begin.
  - destruct (allocateSlot_cases m uid entryTime millis)
      as [[_ ->] | [(_ & _ & ->) | [(_ & _ & _ & ->)
                                   | (_ & _ & i & s & _ & _ & _ & ->)]]];
      try exact Hc.
    cbn [snd _slots]. apply vacant_clean_alter; [|exact Hc].
    intros s0 Ho. discriminate Ho.
  - unfold releaseSlot.
    destruct (negb (_initialized m) || negb (isValidSlotNumber n));
      [exact Hc|].
    destruct (negb (occupied (_slots m !!! Z.to_nat (slotNumberToIndex n))));
      [exact Hc|].
    cbn [snd _slots]. apply vacant_clean_alter; [|exact Hc].
    intros s0 _. split; reflexivity.
  - unfold releaseSlotByCard.
    destruct (findSlotByCard m uid =? -1); [exact Hc|].
    unfold releaseSlot.
    destruct (negb (_initialized m)
              || negb (isValidSlotNumber (findSlotByCard m uid)));
      [exact Hc|].
    destruct (negb (occupied (_slots m !!! Z.to_nat
                (slotNumberToIndex (findSlotByCard m uid)))));
      [exact Hc|].
    cbn [snd _slots]. apply vacant_clean_alter; [|exact Hc].
    intros s0 _. split; reflexivity.
  - apply vacant_clean_vacate_all.
Qed.

Lemma run_vacant_clean calls :
  forall m, vacant_clean (_slots m) -> vacant_clean (_slots (run m calls)).
Proof.
  unfold run. induction calls as [|c rest IH]; intros m Hc; [exact Hc|].
  cbn [foldl]. apply IH, step_vacant_clean, Hc.
Qed.

Lemma reachable_Inv m0 calls : Inv (run (snd (begin m0)) calls).
Proof. apply run_Inv, begin_Inv. Qed.

Lemma reachable_vacant_clean m0 calls :
  vacant_clean (_slots (run (snd (begin m0)) calls)).
Proof. apply run_vacant_clean. cbn. apply vacant_clean_begin. Qed.

(** Under the invariant, a positive count means a free slot, and an
    allocation for a card without a slot takes the fourth way through
    [allocateSlot]. *)
Lemma allocateSlot_fresh m uid entryTime millis :
  Inv m -> findSlotByCard m uid = -1 -> 0 < _availableSlots m ->
  exists (i : nat) s,
    _slots m !! i = Some s /\ occupied s = false
    /\ slotNumber s = Z.of_nat i + 1
    /\ isValidSlotNumber (Z.of_nat i + 1) = true
    /\ allocateSlot m uid entryTime millis
       = (Z.of_nat i + 1,
          mkManager (alter (occupy uid entryTime millis) i (_slots m))
                    (_availableSlots m - 1) true).
Proof.
  intros (Hinit & Hok & Hcount) Hnone Hpos.
  destruct (allocateSlot_cases m uid entryTime millis)
    as [[Hi0 _] | [(_ & Hex & _) | [(_ & _ & Hall & _)
                    | (_ & _ & i & s & Hi & Hs & _ & Hr)]]];
    try congruence.
  - apply all_occupied_freeCount_zero in Hall.
    unfold count_ok in Hcount. lia.
  - exists i, s. destruct (isSlotOccupied_lookup m i s Hok Hi) as [Hv _].
    destruct Hok as [_ Hnum]. rewrite <- (Hnum i s Hi).
    repeat split; try assumption.
    + rewrite (Hnum i s Hi). exact Hv.
Qed.

(** *** Allocation followed by release *)

(** X1: after [begin()] and any calls, for a card that holds no slot and
    a positive available count: [allocateSlot] returns a valid slot
    number, and [releaseSlot] of that number gives back the allocator
    exactly as it was before the allocation, returning the seconds between
    the entry time and the release. *)
Theorem allocate_release_round_trip (m0 : SlotManager)
    (calls : list (Op * Z)) (uid : string) (entryTime millis1 millis2 : Z) :
  findSlotByCard (run (snd (begin m0)) calls) uid = -1 ->
  0 < getAvailableSlots (run (snd (begin m0)) calls) ->
  isValidSlotNumber
    (fst (allocateSlot (run (snd (begin m0)) calls) uid entryTime millis1))
  = true
  /\ releaseSlot
       (snd (allocateSlot (run (snd (begin m0)) calls) uid entryTime millis1))
       (fst (allocateSlot (run (snd (begin m0)) calls) uid entryTime millis1))
       millis2
     = (ulong (millis2 / 1000
               - (if entryTime =? 0 then millis1 / 1000 else entryTime)),
        run (snd (begin m0)) calls).
Proof.
  pose proof (reachable_Inv m0 calls) as HI.
  pose proof (reachable_vacant_clean m0 calls) as Hc.
  set (m := run (snd (begin m0)) calls) in *.
  intros Hnone Hpos.
  destruct (allocateSlot_fresh m uid entryTime millis1 HI Hnone Hpos)
    as (i & s & Hi & Hs & Hn & Hv & ->).
  cbn [fst snd]. split; [exact Hv|].
  unfold releaseSlot, slotNumberToIndex.
  cbn [_initialized _slots _availableSlots negb orb]. rewrite Hv.
  cbn [negb]. replace (Z.to_nat (Z.of_nat i + 1 - 1)) with i by lia.
  rewrite list_lookup_total_alter_eq
    by (apply lookup_lt_Some in Hi; exact Hi).
  rewrite (list_lookup_total_correct _ _ _ Hi).
  cbn [occupy occupied SlotManager.entryTime negb]. f_equal.
  destruct HI as (Hinit & _ & _).
  destruct m as [slots avail init]. cbn [_slots _availableSlots _initialized] in *.
  subst init. f_equal; [|lia].
  rewrite list_alter_alter_eq.
  destruct (Hc s (list_elem_of_lookup_2 _ _ _ Hi) Hs) as [Hu He].
  rewrite (alter_as_insert _ _ _ _ Hi). apply list_insert_id.
  rewrite Hi. f_equal. destruct s as [o c e n]. cbn in *. subst. reflexivity.
Qed.

(** At a fresh allocator, and after another card has come and gone. *)
Lemma allocate_release_round_trip_witness :
  let calls := [(OpAllocateSlot "1A2B3C4D" 0, 1000);
                (OpAllocateSlot "2A3B4C5D" 0, 2000);
                (OpReleaseSlot 1, 3000)] in
  let m := run (snd (begin (new []))) calls in
  isValidSlotNumber (fst (allocateSlot m "0A1B2C3D" 0 5000)) = true
  /\ releaseSlot (snd (allocateSlot m "0A1B2C3D" 0 5000))
                 (fst (allocateSlot m "0A1B2C3D" 0 5000)) 65000
     = (ulong (65000 / 1000 - (if 0 =? 0 then 5000 / 1000 else 0)), m).
Proof.
  intros calls m.
  apply (allocate_release_round_trip (new []) calls "0A1B2C3D" 0 5000 65000).
  - reflexivity.
  - reflexivity.
Defined.

(** *** One slot per card *)

Lemma holders_unique_vacant slots :
  (forall s, s ∈ slots -> occupied s = false) -> holders_unique slots.
Proof.
  intros Hall i j s s' Hi _ Ho _ _.
  rewrite (Hall s (list_elem_of_lookup_2 _ _ _ Hi)) in Ho. discriminate.
Qed.

Lemma holders_unique_occupy (slots : list ParkingSlot) (i : nat) uid e t :
  holders_unique slots ->
  (forall s', s' ∈ slots -> occupied s' = true ->
              cardUID s' <> toCharArray uid 20) ->
  holders_unique (alter (occupy uid e t) i slots).
Proof.
  intros HU Hfresh a b sa sb Ha Hb Hoa Hob Hu.
  destruct (decide (a = i)) as [->|Hai], (decide (b = i)) as [->|Hbi];
    [reflexivity | | |].
  - exfalso. rewrite list_lookup_alter_eq in Ha.
    destruct (slots !! i) as [s0|]; [|discriminate]. cbn in Ha.
    injection Ha as <-. rewrite list_lookup_alter_ne in Hb by congruence.
    apply (Hfresh sb (list_elem_of_lookup_2 _ _ _ Hb) Hob).
    rewrite <- Hu. reflexivity.
  - exfalso. rewrite list_lookup_alter_eq in Hb.
    destruct (slots !! i) as [s0|]; [|discriminate]. cbn in Hb.
    injection Hb as <-. rewrite list_lookup_alter_ne in Ha by congruence.
    apply (Hfresh sa (list_elem_of_lookup_2 _ _ _ Ha) Hoa).
    rewrite Hu. reflexivity.
  - rewrite list_lookup_alter_ne in Ha by congruence.
    rewrite list_lookup_alter_ne in Hb by congruence.
    exact (HU a b sa sb Ha Hb Hoa Hob Hu).
Qed.

Lemma holders_unique_vacate (slots : list ParkingSlot) (i : nat) :
  holders_unique slots -> holders_unique (alter vacate i slots).
Proof.
  intros HU a b sa sb Ha Hb Hoa Hob Hu.
  assert (Hold : forall k sk, alter vacate i slots !! k = Some sk ->
                              occupied sk = true -> slots !! k = Some sk).
  { intros k sk Hk Hok. destruct (decide (i = k)) as [->|Hik].
    - rewrite list_lookup_alter_eq in Hk.
      destruct (slots !! k) as [s0|]; [|discriminate]. cbn in Hk.
      injection Hk as <-. discriminate Hok.
    - rewrite list_lookup_alter_ne in Hk by exact Hik. exact Hk. }
  exact (HU a b sa sb (Hold _ _ Ha Hoa) (Hold _ _ Hb Hob) Hoa Hob Hu).
Qed.

Lemma releaseSlot_holders_unique m n millis :
  holders_unique (_slots m) ->
  holders_unique (_slots (snd (releaseSlot m n millis))).
Proof.
  intros HU. unfold releaseSlot.
  destruct (negb (_initialized m) || negb (isValidSlotNumber n));
    [exact HU|].
  destruct (negb (occupied (_slots m !!! Z.to_nat (slotNumberToIndex n))));
    [exact HU|].
  cbn [snd _slots]. apply holders_unique_vacate. exact HU.
Qed.

Lemma step_holders_unique m call :
  Inv m -> fits_buffer call -> holders_unique (_slots m) ->
  holders_unique (_slots (step m call)).
Proof.
  intros (_ & (_ & Hnum) & _) Hfit HU.
  destruct call as [[ | uid entryTime | n | uid | ] millis]; cbn [step].
  - apply holders_unique_vacant. intros s Hs.
    cbn in Hs. change (map begin_slot (seq 0 (Z.to_nat TOTAL_SLOTS)))
      with (begin_slot <$> seq 0 (Z.to_nat TOTAL_SLOTS)) in Hs.
    apply list_elem_of_fmap in Hs as (k & -> & _). reflexivity.
  - destruct (allocateSlot_cases m uid entryTime millis)
      as [[_ ->] | [(_ & _ & ->) | [(_ & _ & _ & ->)
                                   | (_ & Hex & i & s & _ & _ & _ & ->)]]];
      try exact HU.
    cbn [snd _slots]. apply holders_unique_occupy; [exact HU|].
    cbn [fits_buffer fst] in Hfit. rewrite (toCharArray_fits _ _ Hfit).
    apply findSlotByCard_none_inv; assumption.
  - apply releaseSlot_holders_unique. exact HU.
  - unfold releaseSlotByCard.
    destruct (findSlotByCard m uid =? -1); [exact HU|].
    pose proof (releaseSlot_holders_unique m (findSlotByCard m uid) millis HU)
      as H.
    destruct (releaseSlot m (findSlotByCard m uid) millis). exact H.
  - apply holders_unique_vacant. intros s Hs. cbn in Hs.
    change (map vacate (_slots m)) with (vacate <$> _slots m) in Hs.
    apply list_elem_of_fmap in Hs as (k & -> & _). reflexivity.
Qed.

Lemma run_holders_unique calls :
  forall m, Inv m -> Forall fits_buffer calls ->
            holders_unique (_slots m) ->
            holders_unique (_slots (run m calls)).
Proof.
  unfold run. induction calls as [|c rest IH]; intros m HI Hfit HU;
    [exact HU|].
  apply Forall_cons in Hfit as [Hc Hrest]. cbn [foldl].
  apply IH; [apply step_Inv, HI | exact Hrest |].
  apply step_holders_unique; assumption.
Qed.

Lemma reachable_holders_unique m0 calls :
  Forall fits_buffer calls ->
  holders_unique (_slots (run (snd (begin m0)) calls)).
Proof.
  intros Hfit. apply run_holders_unique; [apply begin_Inv | exact Hfit |].
  apply holders_unique_vacant. intros s Hs. cbn in Hs.
  change (map begin_slot (seq 0 (Z.to_nat TOTAL_SLOTS)))
    with (begin_slot <$> seq 0 (Z.to_nat TOTAL_SLOTS)) in Hs.
  apply list_elem_of_fmap in Hs as (k & -> & _). reflexivity.
Qed.

(** X2: after [begin()] and any calls in which every UID handed to
    [allocateSlot] has fewer than 20 characters, no two occupied slots
    carry the same card UID; and a card found by [findSlotByCard] sits in
    exactly the slot whose number is returned. *)
Theorem one_slot_per_card (m0 : SlotManager) (calls : list (Op * Z)) :
  Forall fits_buffer calls ->
  holders_unique (_slots (run (snd (begin m0)) calls))
  /\ forall uid k,
       isValidSlotNumber k = true ->
       isSlotOccupied (run (snd (begin m0)) calls) k = true ->
       cardUID (_slots (run (snd (begin m0)) calls) !!! Z.to_nat (k - 1))
       = uid ->
       findSlotByCard (run (snd (begin m0)) calls) uid = k.
Proof.
  intros Hfit.
  pose proof (reachable_holders_unique m0 calls Hfit) as HU.
  pose proof (reachable_Inv m0 calls) as (Hinit & Hok & Hcount).
  set (m := run (snd (begin m0)) calls) in *.
  split; [exact HU|]. intros uid k Hk Hocc Hc.
  destruct (valid_slot_lookup m k Hok Hk) as (s & Hs & Ho).
  rewrite (list_lookup_total_correct _ _ _ Hs) in Hc.
  rewrite Ho in Hocc. destruct Hok as [Hlen Hnum].
  unfold findSlotByCard.
  destruct (findSlotByCard_loop_spec (_slots m) uid)
    as [[_ Hall] | (i & s' & Hi & Ho' & Hu' & ->)].
  - exfalso. exact (Hall s (list_elem_of_lookup_2 _ _ _ Hs) Hocc Hc).
  - assert (i = Z.to_nat (k - 1))
      by (apply (HU i _ s' s Hi Hs Ho' Hocc); congruence).
    subst i. rewrite (Hnum _ _ Hi).
    apply isValidSlotNumber_range in Hk. lia.
Qed.

(** Three cards come, one leaves and comes back. *)
Lemma one_slot_per_card_witness :
  let calls := [(OpAllocateSlot "1A2B3C4D" 0, 1000);
                (OpAllocateSlot "2A3B4C5D" 0, 2000);
                (OpAllocateSlot "0A1B2C3D" 0, 3000);
                (OpReleaseSlotByCard "1A2B3C4D", 4000);
                (OpAllocateSlot "1A2B3C4D" 0, 5000)] in
  holders_unique (_slots (run (snd (begin (new []))) calls))
  /\ findSlotByCard (run (snd (begin (new []))) calls) "2A3B4C5D" = 2.
Proof.
  intros calls.
  assert (Hfit : Forall fits_buffer calls)
    by (repeat constructor; cbn; lia).
  split.
  - apply (proj1 (one_slot_per_card (new []) calls Hfit)).
  - apply (proj2 (one_slot_per_card (new []) calls Hfit) "2A3B4C5D" 2);
      reflexivity.
Defined.

(** *** Release by card *)

Lemma equals_false_ne (u v : string) : u <> v -> equals u v = false.
Proof.
  intros Hne. destruct (equals u v) eqn:E; [|reflexivity].
  apply equals_true in E. contradiction.
Qed.

(** X3: [releaseSlotByCard] for a card that holds no slot returns 0,
    sets the output slot number to [-1] and changes nothing. After
    [begin()] and any calls whose UIDs fit the buffer, for a card that
    holds a slot it frees exactly that slot, reports its number and the
    seconds parked, increments the count, leaves the card without a slot
    and leaves every other card's slot as it was. *)
Theorem releaseSlotByCard_contract (m0 : SlotManager)
    (calls : list (Op * Z)) (uid : string) (millis : Z) :
  Forall fits_buffer calls ->
  (findSlotByCard (run (snd (begin m0)) calls) uid = -1 ->
   releaseSlotByCard (run (snd (begin m0)) calls) uid millis
   = (0, -1, run (snd (begin m0)) calls))
  /\ (findSlotByCard (run (snd (begin m0)) calls) uid <> -1 ->
      exists s m',
        _slots (run (snd (begin m0)) calls)
          !! Z.to_nat (findSlotByCard (run (snd (begin m0)) calls) uid - 1)
        = Some s
        /\ cardUID s = uid
        /\ releaseSlotByCard (run (snd (begin m0)) calls) uid millis
           = (ulong (millis / 1000 - entryTime s),
              findSlotByCard (run (snd (begin m0)) calls) uid, m')
        /\ isSlotOccupied m'
             (findSlotByCard (run (snd (begin m0)) calls) uid) = false
        /\ _availableSlots m'
           = _availableSlots (run (snd (begin m0)) calls) + 1
        /\ findSlotByCard m' uid = -1
        /\ forall u', u' <> uid ->
             findSlotByCard m' u'
             = findSlotByCard (run (snd (begin m0)) calls) u').
Proof.
  intros Hfit.
  pose proof (reachable_holders_unique m0 calls Hfit) as HU.
  pose proof (reachable_Inv m0 calls) as (Hinit & Hok & Hcount).
  set (m := run (snd (begin m0)) calls) in *.
  split.
  - intros Hnone. unfold releaseSlotByCard. rewrite Hnone. reflexivity.
  - intros Hsome. unfold releaseSlotByCard.
    replace (findSlotByCard m uid =? -1) with false
      by (symmetry; apply Z.eqb_neq; exact Hsome).
    unfold findSlotByCard in *.
    destruct (findSlotByCard_loop_spec (_slots m) uid)
      as [[Hr _] | (i & s & Hi & Ho & Hu & Hr)]; [congruence|].
    rewrite Hr. pose proof Hok as [Hlen Hnum].
    rewrite (Hnum i s Hi).
    destruct (isSlotOccupied_lookup m i s Hok Hi) as [Hv Hocc].
    replace (Z.to_nat (Z.of_nat i + 1 - 1)) with i by lia.
    unfold releaseSlot, slotNumberToIndex. rewrite Hinit, Hv.
    cbn [negb orb].
    replace (Z.to_nat (Z.of_nat i + 1 - 1)) with i by lia.
    rewrite (list_lookup_total_correct _ _ _ Hi), Ho. cbn [negb].
    eexists s, _. split; [exact Hi|]. split; [exact Hu|].
    split; [reflexivity|].
    cbn [_slots _availableSlots]. repeat split.
    + unfold isSlotOccupied, slotNumberToIndex. rewrite Hv. cbn [negb _slots].
      replace (Z.to_nat (Z.of_nat i + 1 - 1)) with i by lia.
      rewrite list_lookup_total_alter_eq
        by (apply lookup_lt_Some in Hi; exact Hi).
      reflexivity.
    + apply findSlotByCard_loop_none. intros s' Hs' Ho' Hu'.
      apply list_elem_of_lookup_1 in Hs' as [j Hj].
      destruct (decide (i = j)) as [->|Hij].
      * rewrite list_lookup_alter_eq, Hi in Hj. cbn in Hj.
        injection Hj as <-. discriminate Ho'.
      * rewrite list_lookup_alter_ne in Hj by exact Hij.
        apply Hij. apply (HU i j s s' Hi Hj Ho Ho'). congruence.
    + intros u' Hne.
      apply (findSlotByCard_loop_alter_other vacate (_slots m) i s u' Hi).
      * rewrite Hu, (equals_false_ne u' uid Hne). apply andb_false_r.
      * reflexivity.
Qed.

(** A card that never came, and the card in slot 2. *)
Lemma releaseSlotByCard_contract_witness :
  let calls := [(OpAllocateSlot "1A2B3C4D" 0, 1000);
                (OpAllocateSlot "2A3B4C5D" 0, 2000)] in
  let m := run (snd (begin (new []))) calls in
  releaseSlotByCard m "0A1B2C3D" 9000 = (0, -1, m)
  /\ exists s m',
       _slots m !! Z.to_nat (findSlotByCard m "2A3B4C5D" - 1) = Some s
       /\ cardUID s = "2A3B4C5D"
       /\ releaseSlotByCard m "2A3B4C5D" 9000
          = (ulong (9000 / 1000 - entryTime s),
             findSlotByCard m "2A3B4C5D", m')
       /\ isSlotOccupied m' (findSlotByCard m "2A3B4C5D") = false
       /\ _availableSlots m' = _availableSlots m + 1
       /\ findSlotByCard m' "2A3B4C5D" = -1
       /\ forall u', u' <> "2A3B4C5D" ->
            findSlotByCard m' u' = findSlotByCard m u'.
Proof.
  intros calls m.
  assert (Hfit : Forall fits_buffer calls)
    by (repeat constructor; cbn; lia).
  split.
  - apply (proj1 (releaseSlotByCard_contract (new []) calls "0A1B2C3D" 9000
                    Hfit)).
    reflexivity.
  - apply (proj2 (releaseSlotByCard_contract (new []) calls "2A3B4C5D" 9000
                    Hfit)).
    vm_compute. discriminate.
Defined.

(** *** What the count promises *)

Lemma findSlotByCard_valid m uid :
  array_ok m -> findSlotByCard m uid <> -1 ->
  isValidSlotNumber (findSlotByCard m uid) = true.
Proof.
  intros Hok Hne. unfold findSlotByCard in *.
  destruct (findSlotByCard_loop_spec (_slots m) uid)
    as [[Hr _] | (i & s & Hi & _ & _ & Hr)]; [congruence|].
  rewrite Hr. destruct (isSlotOccupied_lookup m i s Hok Hi) as [Hv _].
  destruct Hok as [_ Hnum]. rewrite (Hnum i s Hi). exact Hv.
Qed.

(** X4: after [begin()] and any calls the available count stays within
    [0, TOTAL_SLOTS]; while it is positive [allocateSlot] returns a valid
    slot number for any card; when it is 0 a card without a slot gets
    [-1] and nothing changes; and [allocateSlot] never returns anything
    but [-1] or a valid slot number. *)
Theorem available_count_decides_allocation (m0 : SlotManager)
    (calls : list (Op * Z)) (uid : string) (entryTime millis : Z) :
  0 <= getAvailableSlots (run (snd (begin m0)) calls) <= TOTAL_SLOTS
  /\ (0 < getAvailableSlots (run (snd (begin m0)) calls) ->
      isValidSlotNumber
        (fst (allocateSlot (run (snd (begin m0)) calls) uid entryTime millis))
      = true)
  /\ (getAvailableSlots (run (snd (begin m0)) calls) = 0 ->
      findSlotByCard (run (snd (begin m0)) calls) uid = -1 ->
      allocateSlot (run (snd (begin m0)) calls) uid entryTime millis
      = (-1, run (snd (begin m0)) calls))
  /\ (fst (allocateSlot (run (snd (begin m0)) calls) uid entryTime millis)
      = -1
      \/ isValidSlotNumber
           (fst (allocateSlot (run (snd (begin m0)) calls) uid entryTime
                              millis)) = true).
Proof.
  pose proof (reachable_Inv m0 calls) as HI.
  set (m := run (snd (begin m0)) calls) in *.
  pose proof HI as (Hinit & Hok & Hcount). unfold count_ok in Hcount.
  unfold getAvailableSlots.
  assert (Hvalid : findSlotByCard m uid <> -1 ->
            isValidSlotNumber
              (fst (allocateSlot m uid entryTime millis)) = true).
  { intros Hne. rewrite (allocateSlot_existing m uid entryTime millis Hinit Hne).
    apply findSlotByCard_valid; assumption. }
  assert (Hfresh : findSlotByCard m uid = -1 -> 0 < _availableSlots m ->
            isValidSlotNumber
              (fst (allocateSlot m uid entryTime millis)) = true).
  { intros Hnone Hpos.
    destruct (allocateSlot_fresh m uid entryTime millis HI Hnone Hpos)
      as (i & s & _ & _ & _ & Hv & ->). exact Hv. }
  assert (Hfull : _availableSlots m = 0 -> findSlotByCard m uid = -1 ->
            allocateSlot m uid entryTime millis = (-1, m)).
  { intros Hz Hnone.
    destruct (allocateSlot_cases m uid entryTime millis)
      as [[Hi0 _] | [(_ & Hex & _) | [(_ & _ & _ & Hr)
                      | (_ & _ & i & s & Hi & Hs & _ & _)]]];
      try congruence.
    exfalso.
    assert (Hall := freeCount_zero_all_occupied (_slots m) ltac:(lia)).
    rewrite Forall_lookup in Hall. specialize (Hall i s Hi). congruence. }
  pose proof (freeCount_nonneg (_slots m)) as Hnn.
  pose proof (freeCount_occupiedCount (_slots m)) as Hsum.
  assert (Hocc : 0 <= occupiedCount (_slots m)).
  { clear. induction (_slots m) as [|s rest IH]; cbn [occupiedCount]; [lia|].
    destruct (occupied s); lia. }
  destruct Hok as [Hlen Hnum].
  split; [unfold TOTAL_SLOTS in *; lia|].
  split; [|split].
  - intros Hpos. destruct (Z.eq_dec (findSlotByCard m uid) (-1));
      [apply Hfresh | apply Hvalid]; assumption.
  - exact Hfull.
  - destruct (Z.eq_dec (findSlotByCard m uid) (-1)) as [Hnone|Hne];
      [|right; apply Hvalid; exact Hne].
    destruct (Z.eq_dec (_availableSlots m) 0) as [Hz|Hnz].
    + left. rewrite (Hfull Hz Hnone). reflexivity.
    + right. apply Hfresh; [exact Hnone | lia].
Qed.

(** With eight slots free, and with none. *)
Lemma available_count_decides_allocation_witness :
  let some := [(OpAllocateSlot "1A2B3C4D" 0, 1000);
               (OpAllocateSlot "2A3B4C5D" 0, 2000)] in
  let all := map (fun u => (OpAllocateSlot u 0, 1000))
                 ["A0"; "A1"; "A2"; "A3"; "A4"; "A5"; "A6"; "A7"; "A8";
                  "A9"] in
  isValidSlotNumber
    (fst (allocateSlot (run (snd (begin (new []))) some) "0A1B2C3D" 0 5000))
  = true
  /\ allocateSlot (run (snd (begin (new []))) all) "0A1B2C3D" 0 5000
     = (-1, run (snd (begin (new []))) all).
Proof.
  intros some all. split.
  - apply (available_count_decides_allocation (new []) some "0A1B2C3D" 0
             5000).
    reflexivity.
  - apply (available_count_decides_allocation (new []) all "0A1B2C3D" 0
             5000); reflexivity.
Defined.

(** *** Durations *)

(** X5: on an initialised allocator, what [releaseSlot] returns at
    [millis] is what [getSlotDuration] reports for the same slot at the
    time [millis / 1000]: 0 for a slot number out of range or a free
    slot, the wrapped difference to the entry time otherwise. *)
Theorem releaseSlot_returns_getSlotDuration (m : SlotManager)
    (n millis : Z) :
  _initialized m = true ->
  fst (releaseSlot m n millis) = getSlotDuration m n (millis / 1000)
  /\ (isSlotOccupied m n = false -> getSlotDuration m n (millis / 1000) = 0).
Proof.
  intros Hinit. unfold releaseSlot, getSlotDuration, isSlotOccupied.
  rewrite Hinit. cbn [negb orb].
  destruct (isValidSlotNumber n); cbn [negb]; [|split; reflexivity].
  destruct (occupied (_slots m !!! Z.to_nat (slotNumberToIndex n)));
    cbn [negb]; split; try reflexivity; discriminate.
Qed.

Lemma releaseSlot_returns_getSlotDuration_witness :
  let m := snd (allocateSlot (snd (begin (new []))) "0A1B2C3D" 0 5000) in
  fst (releaseSlot m 1 17000) = getSlotDuration m 1 (17000 / 1000)
  /\ getSlotDuration m 2 (17000 / 1000) = 0.
Proof.
  intros m. split.
  - apply (releaseSlot_returns_getSlotDuration m 1 17000). reflexivity.
  - apply (releaseSlot_returns_getSlotDuration m 2 17000); reflexivity.
Defined.

(** *** Clearing *)

(** X6: [clearAllSlots] does not look at [_initialized]: in any state it
    leaves no slot occupied and no card with a slot, sets the count to
    [TOTAL_SLOTS] and keeps the slot numbers; on an initialised allocator
    the next allocation then gets slot 1. *)
Theorem clearAllSlots_frees_everything (m : SlotManager) :
  (forall k, isSlotOccupied (clearAllSlots m) k = false)
  /\ (forall uid, findSlotByCard (clearAllSlots m) uid = -1)
  /\ getAvailableSlots (clearAllSlots m) = TOTAL_SLOTS
  /\ map slotNumber (_slots (clearAllSlots m)) = map slotNumber (_slots m)
  /\ (_initialized m = true -> array_ok m ->
      forall uid entryTime millis,
        fst (allocateSlot (clearAllSlots m) uid entryTime millis) = 1).
Proof.
  assert (Hfree : forall s, s ∈ _slots (clearAllSlots m) -> occupied s = false).
  { intros s Hs. cbn in Hs. change (map vacate (_slots m))
      with (vacate <$> _slots m) in Hs.
    apply list_elem_of_fmap in Hs as (k & -> & _). reflexivity. }
  assert (Hnone : forall uid, findSlotByCard (clearAllSlots m) uid = -1).
  { intros uid. apply findSlotByCard_loop_none. intros s Hs Ho.
    rewrite (Hfree s Hs) in Ho. discriminate. }
  split; [|split; [exact Hnone | split; [reflexivity | split]]].
  - intros k. unfold isSlotOccupied.
    destruct (isValidSlotNumber k); cbn [negb]; [|reflexivity].
    destruct (_slots (clearAllSlots m) !! Z.to_nat (slotNumberToIndex k))
      as [s|] eqn:Hs.
    + rewrite (list_lookup_total_correct _ _ _ Hs).
      apply Hfree. exact (list_elem_of_lookup_2 _ _ _ Hs).
    + rewrite list_lookup_total_alt, Hs. reflexivity.
  - cbn [clearAllSlots _slots]. rewrite map_map. apply map_ext.
    intros s. reflexivity.
  - intros Hinit [Hlen Hnum] uid entryTime millis.
    destruct (allocateSlot_cases (clearAllSlots m) uid entryTime millis)
      as [[Hi0 _] | [(_ & Hex & _) | [(_ & _ & Hall & _)
                      | (_ & _ & i & s & Hi & Hs & Hlt & ->)]]].
    + cbn in Hi0. congruence.
    + exfalso. exact (Hex (Hnone uid)).
    + exfalso. destruct (lookup_lt_is_Some_2 (_slots (clearAllSlots m)) 0)
        as [s Hs].
      { cbn. rewrite length_map, Hlen. unfold TOTAL_SLOTS. lia. }
      rewrite Forall_lookup in Hall. specialize (Hall 0%nat s Hs).
      rewrite (Hfree s (list_elem_of_lookup_2 _ _ _ Hs)) in Hall.
      discriminate.
    + cbn [fst]. destruct i as [|i].
      * assert (Hn : numbered (_slots (clearAllSlots m)))
          by (apply numbered_vacate_all; exact Hnum).
        rewrite (Hn 0%nat s Hi). reflexivity.
      * exfalso.
        destruct (lookup_lt_is_Some_2 (_slots (clearAllSlots m)) 0)
          as [s0 Hs0].
        { apply lookup_lt_Some in Hi. lia. }
        pose proof (Hlt 0%nat s0 ltac:(lia) Hs0) as Ho.
        rewrite (Hfree s0 (list_elem_of_lookup_2 _ _ _ Hs0)) in Ho.
        discriminate.
Qed.

Lemma clearAllSlots_frees_everything_witness :
  let m := run (snd (begin (new [])))
               [(OpAllocateSlot "1A2B3C4D" 0, 1000);
                (OpAllocateSlot "2A3B4C5D" 0, 2000)] in
  fst (allocateSlot (clearAllSlots m) "2A3B4C5D" 0 5000) = 1.
Proof.
  intros m.
  apply (clearAllSlots_frees_everything m).
  - reflexivity.
  - split; [reflexivity|]. intros i s Hi.
    do 10 (destruct i as [|i]; [injection Hi as <-; reflexivity|]).
    discriminate.
Defined.

(** *** Copying the array out *)

Lemma getAllSlots_loop_length src dst i count :
  length (getAllSlots_loop src dst i count) = length dst.
Proof.
  revert dst i. induction count as [|k IH]; intros dst i; [reflexivity|].
  cbn [getAllSlots_loop]. rewrite IH, length_insert. reflexivity.
Qed.

Lemma getAllSlots_loop_lookup src dst (i count j : nat) :
  getAllSlots_loop src dst i count !! j
  = if decide (i <= j < i + count /\ j < length dst)%nat
    then Some (src !!! j) else dst !! j.
Proof.
  revert dst i. induction count as [|k IH]; intros dst i.
  - cbn [getAllSlots_loop]. destruct (decide _) as [H|_]; [lia|reflexivity].
  - cbn [getAllSlots_loop]. rewrite IH, length_insert.
    destruct (decide (S i <= j < S i + k /\ j < length dst)%nat) as [H|H].
    + destruct (decide _) as [_|H']; [reflexivity | lia].
    + destruct (decide (i = j)) as [->|Hij].
      * destruct (decide (j < length dst)%nat) as [Hl|Hl].
        -- rewrite list_lookup_insert_eq by exact Hl.
           destruct (decide _) as [_|H']; [reflexivity | lia].
        -- rewrite list_insert_ge by lia.
           destruct (decide _) as [H'|_]; [lia | reflexivity].
      * rewrite list_lookup_insert_ne by exact Hij.
        destruct (decide _) as [H'|_]; [lia | reflexivity].
Qed.

(** X7: [getAllSlots] returns the smaller of [maxSlots] and
    [TOTAL_SLOTS] (a negative [maxSlots] itself), writes entries
    [0 .. count-1] of the caller's array with the slots of the same index
    and touches no entry from [count] on. *)
Theorem getAllSlots_copies_prefix (m : SlotManager)
    (out : list ParkingSlot) (maxSlots : Z) :
  fst (getAllSlots m out maxSlots) = Z.min maxSlots TOTAL_SLOTS
  /\ length (snd (getAllSlots m out maxSlots)) = length out
  /\ (forall j : nat,
        Z.of_nat j < fst (getAllSlots m out maxSlots) ->
        (j < length out)%nat ->
        snd (getAllSlots m out maxSlots) !! j = Some (_slots m !!! j))
  /\ (forall j : nat,
        fst (getAllSlots m out maxSlots) <= Z.of_nat j ->
        snd (getAllSlots m out maxSlots) !! j = out !! j).
Proof.
  unfold getAllSlots. cbn [fst snd].
  assert (Hc : (if maxSlots <? TOTAL_SLOTS then maxSlots else TOTAL_SLOTS)
               = Z.min maxSlots TOTAL_SLOTS).
  { destruct (Z.ltb_spec maxSlots TOTAL_SLOTS); lia. }
  rewrite Hc. split; [reflexivity|]. split; [|split].
  - apply getAllSlots_loop_length.
  - intros j Hj Hl. rewrite getAllSlots_loop_lookup.
    destruct (decide _) as [_|H]; [reflexivity | lia].
  - intros j Hj. rewrite getAllSlots_loop_lookup.
    destruct (decide _) as [H|_]; [lia | reflexivity].
Qed.

(** A caller's array of 10 entries and [maxSlots = 3]. *)
Lemma getAllSlots_copies_prefix_witness :
  let m := snd (allocateSlot (snd (begin (new []))) "0A1B2C3D" 0 5000) in
  let out := replicate 10 (mkSlot true "stale" 9 9) in
  snd (getAllSlots m out 3) !! 0%nat = Some (_slots m !!! 0%nat)
  /\ snd (getAllSlots m out 3) !! 3%nat = out !! 3%nat.
Proof.
  intros m out. split.
  - apply (getAllSlots_copies_prefix m out 3 : _ /\ _ /\ _ /\ _).
    + reflexivity.
    + cbn. lia.
  - apply (proj2 (proj2 (proj2 (getAllSlots_copies_prefix m out 3)))).
    vm_compute. discriminate.
Defined.

(** *** Filling the car park *)

(** The first [k] slots are occupied, by cards of [prev], and the others
    are free. *)
Lemma allocateAll_from (uids : list string) :
  forall (m : SlotManager) (k : nat) (prev : list string) (millis : Z),
    Inv m ->
    (forall (i : nat) s, _slots m !! i = Some s -> occupied s = (i <? k)%nat) ->
    (forall s, s ∈ _slots m -> occupied s = true -> cardUID s ∈ prev) ->
    NoDup uids -> (forall u, u ∈ uids -> u ∉ prev) ->
    Forall (fun u => (String.length u < 20)%nat) uids ->
    (k + length uids <= Z.to_nat TOTAL_SLOTS)%nat ->
    fst (allocateAll m uids millis)
    = map (fun i => Z.of_nat i + 1) (seq k (length uids))
    /\ Inv (snd (allocateAll m uids millis))
    /\ _availableSlots (snd (allocateAll m uids millis))
       = _availableSlots m - Z.of_nat (length uids)
    /\ (forall (i : nat) s,
          _slots (snd (allocateAll m uids millis)) !! i = Some s ->
          occupied s = (i <? k + length uids)%nat)
    /\ (forall s, s ∈ _slots (snd (allocateAll m uids millis)) ->
                  occupied s = true -> cardUID s ∈ prev ++ uids).
Proof.
  induction uids as [|uid rest IH];
    intros m k prev millis HI Hfill Hprev Hnd Hnew Hshort Hroom.
  - cbn [allocateAll fst snd length seq map].
    refine (conj _ (conj _ (conj _ (conj _ _)))).
    + reflexivity.
    + exact HI.
    + lia.
    + intros i s Hi. rewrite Nat.add_0_r. apply Hfill. exact Hi.
    + intros s Hs Ho. rewrite app_nil_r. apply Hprev; assumption.
  - apply NoDup_cons in Hnd as [Hnotin Hnd].
    apply Forall_cons in Hshort as [Hfit Hshort].
    cbn [length] in Hroom.
    pose proof HI as (Hinit & [Hlen Hnum] & Hcount).
    assert (Hnone : findSlotByCard m uid = -1).
    { apply findSlotByCard_loop_none. intros s Hs Ho Hu.
      apply (Hnew uid); [left|]. rewrite <- Hu. apply Hprev; assumption. }
    destruct (lookup_lt_is_Some_2 (_slots m) k) as [sk Hsk]; [lia|].
    assert (Hskfree : occupied sk = false).
    { rewrite (Hfill k sk Hsk). apply Nat.ltb_irrefl. }
    destruct (allocateSlot_cases m uid 0 millis)
      as [[Hi0 _] | [(_ & Hex & _) | [(_ & _ & Hall & _)
                      | (_ & _ & i & s & Hi & Hs & Hlt & Hr)]]];
      try congruence.
    { exfalso. rewrite Forall_lookup in Hall.
      specialize (Hall k sk Hsk). congruence. }
    assert (i = k).
    { destruct (Nat.lt_trichotomy i k) as [Hlt'|[->|Hgt]]; [|reflexivity|].
      - rewrite (Hfill i s Hi) in Hs. apply Nat.ltb_ge in Hs. lia.
      - specialize (Hlt k sk Hgt Hsk). congruence. }
    subst i.
    set (m1 := mkManager (alter (occupy uid 0 millis) k (_slots m))
                         (_availableSlots m - 1) true) in *.
    assert (HI1 : Inv m1).
    { pose proof (allocateSlot_Inv m uid 0 millis HI) as H.
      rewrite Hr in H. exact H. }
    assert (Hfill1 : forall (i : nat) s', _slots m1 !! i = Some s' ->
                       occupied s' = (i <? S k)%nat).
    { intros i s' Hi'. cbn [m1 _slots] in Hi'.
      destruct (decide (k = i)) as [<-|Hki].
      - rewrite list_lookup_alter_eq, Hi in Hi'. cbn in Hi'.
        injection Hi' as <-. cbn [occupy occupied]. symmetry.
        apply Nat.ltb_lt. lia.
      - rewrite list_lookup_alter_ne in Hi' by exact Hki.
        rewrite (Hfill i s' Hi').
        destruct (Nat.ltb_spec i k), (Nat.ltb_spec i (S k)); lia || reflexivity. }
    assert (Hprev1 : forall s', s' ∈ _slots m1 -> occupied s' = true ->
                       cardUID s' ∈ prev ++ [uid]).
    { intros s' Hs' Ho'. apply list_elem_of_lookup_1 in Hs' as [i Hi'].
      cbn [m1 _slots] in Hi'. apply elem_of_app.
      destruct (decide (k = i)) as [<-|Hki].
      - rewrite list_lookup_alter_eq, Hi in Hi'. cbn in Hi'.
        injection Hi' as <-. right. cbn [occupy cardUID].
        rewrite (toCharArray_fits _ _ Hfit). left.
      - rewrite list_lookup_alter_ne in Hi' by exact Hki.
        left. apply Hprev; [|exact Ho'].
        exact (list_elem_of_lookup_2 _ _ _ Hi'). }
    assert (Hnew1 : forall u, u ∈ rest -> u ∉ prev ++ [uid]).
    { intros u Hu Hin. apply elem_of_app in Hin as [Hin|Hin].
      - apply (Hnew u); [right; exact Hu | exact Hin].
      - apply list_elem_of_singleton in Hin. subst u. contradiction. }
    destruct (IH m1 (S k) (prev ++ [uid]) millis HI1 Hfill1 Hprev1 Hnd Hnew1
                 Hshort ltac:(lia))
      as (Hres & HIr & Hav & Hfillr & Hprevr).
    cbn [allocateAll]. rewrite Hr.
    destruct (allocateAll m1 rest millis) as [ns m2] eqn:Hall.
    cbn [fst snd] in *.
    refine (conj _ (conj _ (conj _ (conj _ _)))).
    + cbn [length seq map]. rewrite Hres, (Hnum k s Hi). reflexivity.
    + exact HIr.
    + rewrite Hav. cbn [m1 _availableSlots length]. lia.
    + intros i s' Hi'. rewrite (Hfillr i s' Hi'). cbn [length].
      replace (k + S (length rest))%nat with (S k + length rest)%nat by lia.
      reflexivity.
    + intros s' Hs' Ho'. specialize (Hprevr s' Hs' Ho').
      rewrite <- app_assoc in Hprevr. exact Hprevr.
Qed.

(** X8: from a fresh allocator, allocations for distinct UIDs of fewer
    than 20 characters each, at most [TOTAL_SLOTS] of them, return the
    slot numbers 1, 2, 3, ... in order and lower the available count by
    one each; once [TOTAL_SLOTS] cards are in, any further card gets
    [-1] and nothing changes. *)
Theorem allocateAll_fills_in_order (m0 : SlotManager) (uids : list string)
    (millis : Z) :
  NoDup uids ->
  Forall (fun u => (String.length u < 20)%nat) uids ->
  (length uids <= Z.to_nat TOTAL_SLOTS)%nat ->
  fst (allocateAll (snd (begin m0)) uids millis)
  = map (fun i => Z.of_nat i + 1) (seq 0 (length uids))
  /\ getAvailableSlots (snd (allocateAll (snd (begin m0)) uids millis))
     = TOTAL_SLOTS - Z.of_nat (length uids)
  /\ (length uids = Z.to_nat TOTAL_SLOTS ->
      forall u entryTime t,
        u ∉ uids ->
        allocateSlot (snd (allocateAll (snd (begin m0)) uids millis)) u
                     entryTime t
        = (-1, snd (allocateAll (snd (begin m0)) uids millis))).
Proof.
  intros Hnd Hshort Hroom.
  destruct (allocateAll_from uids (snd (begin m0)) 0 [] millis)
    as (Hres & HI & Hav & Hfill & Hprev); try assumption.
  - apply begin_Inv.
  - intros i s Hi. cbn in Hi.
    change (map begin_slot (seq 0 (Z.to_nat TOTAL_SLOTS)))
      with (begin_slot <$> seq 0 (Z.to_nat TOTAL_SLOTS)) in Hi.
    rewrite list_lookup_fmap in Hi.
    destruct (seq 0 (Z.to_nat TOTAL_SLOTS) !! i); [|discriminate].
    cbn in Hi. injection Hi as <-. reflexivity.
  - intros s Hs Ho. cbn in Hs.
    change (map begin_slot (seq 0 (Z.to_nat TOTAL_SLOTS)))
      with (begin_slot <$> seq 0 (Z.to_nat TOTAL_SLOTS)) in Hs.
    apply list_elem_of_fmap in Hs as (k & -> & _). discriminate Ho.
  - intros u _ Hin. inversion Hin.
  - split; [exact Hres|]. split; [exact Hav|].
    intros Hfull u entryTime t Hu.
    set (m := snd (allocateAll (snd (begin m0)) uids millis)) in *.
    destruct (allocateSlot_cases m u entryTime t)
      as [[Hi0 _] | [(_ & Hex & _) | [(_ & _ & _ & Hr)
                      | (_ & _ & i & s & Hi & Hs & _ & _)]]].
    + destruct HI as (Hinit & _). congruence.
    + exfalso. apply Hex. apply findSlotByCard_loop_none.
      intros s Hs Ho Hc. apply Hu. rewrite <- Hc.
      apply (Hprev s Hs Ho).
    + exact Hr.
    + exfalso. rewrite (Hfill i s Hi) in Hs. apply Nat.ltb_ge in Hs.
      apply lookup_lt_Some in Hi. destruct HI as (_ & [Hlen _] & _).
      cbn [Nat.add] in Hs. lia.
Qed.

(** Ten cards fill the car park; the eleventh is turned away. *)
Lemma allocateAll_fills_in_order_witness :
  let uids := ["A0"; "A1"; "A2"; "A3"; "A4"; "A5"; "A6"; "A7"; "A8"; "A9"] in
  fst (allocateAll (snd (begin (new []))) uids 1000)
  = map (fun i => Z.of_nat i + 1) (seq 0 (length uids))
  /\ getAvailableSlots (snd (allocateAll (snd (begin (new []))) uids 1000))
     = TOTAL_SLOTS - Z.of_nat (length uids)
  /\ allocateSlot (snd (allocateAll (snd (begin (new []))) uids 1000))
                  "0A1B2C3D" 0 2000
     = (-1, snd (allocateAll (snd (begin (new []))) uids 1000)).
Proof.
  intros uids.
  assert (Hnd : NoDup uids).
  { unfold uids. repeat (apply NoDup_cons; split;
      [intros Hin; repeat (apply elem_of_cons in Hin as [Hin|Hin];
                           [discriminate|]); inversion Hin|]).
    constructor. }
  assert (Hshort : Forall (fun u => (String.length u < 20)%nat) uids)
    by (repeat constructor; cbn; lia).
  assert (Hroom : (length uids <= Z.to_nat TOTAL_SLOTS)%nat)
    by (vm_compute; lia).
  destruct (allocateAll_fills_in_order (new []) uids 1000 Hnd Hshort Hroom)
    as (H1 & H2 & H3).
  split; [exact H1|]. split; [exact H2|].
  apply H3; [reflexivity|].
  intros Hin. unfold uids in Hin.
  repeat (apply elem_of_cons in Hin as [Hin|Hin]; [discriminate|]).
  inversion Hin.
Defined.

(** *** Card UIDs and the 20-byte buffer *)

(** On a reachable state a UID that fits the buffer is handled
    idempotently, whether the first call succeeds or not. *)
Lemma allocateSlot_twice m uid e1 t1 e2 t2 :
  Inv m -> (String.length uid < 20)%nat ->
  allocateSlot (snd (allocateSlot m uid e1 t1)) uid e2 t2
  = allocateSlot m uid e1 t1.
Proof.
  intros HI Hfit. pose proof HI as (Hinit & Hok & _).
  destruct (allocateSlot_cases m uid e1 t1)
    as [[Hi0 _] | [(_ & Hex & Hr) | [(_ & Hnone & Hall & Hr)
                    | (_ & Hnone & i & s & Hi & Hs & _ & Hr)]]].
  - congruence.
  - rewrite Hr. cbn [snd]. apply allocateSlot_existing; assumption.
  - rewrite Hr. cbn [snd].
    destruct (allocateSlot_cases m uid e2 t2)
      as [[Hi0 _] | [(_ & Hex & _) | [(_ & _ & _ & Hr2)
                      | (_ & _ & i & s & Hi & Hs & _ & _)]]];
      try congruence.
    exfalso. rewrite Forall_lookup in Hall. specialize (Hall i s Hi).
    congruence.
  - pose proof (allocateSlot_then_holds m uid e1 t1 Hok Hfit) as Hh.
    rewrite Hr in *. cbn [fst snd] in *.
    destruct Hok as [_ Hnum].
    assert (Hn : slotNumber s <> -1) by (rewrite (Hnum i s Hi); lia).
    specialize (Hh Hn).
    rewrite allocateSlot_existing; [|reflexivity | congruence].
    rewrite Hh. reflexivity.
Qed.

Lemma substring_length_le (n : nat) (s : string) :
  (String.length (String.substring 0 n s) <= n)%nat.
Proof.
  revert n. induction s as [|c s IH]; intros [|n]; cbn; try lia.
  specialize (IH n). lia.
Qed.

Lemma step_stored_short m call :
  stored_short (_slots m) -> stored_short (_slots (step m call)).
Proof.
  intros Hc.
  assert (Halter : forall f i,
            (forall s, (String.length (cardUID (f s)) <= 19)%nat) ->
            stored_short (alter f i (_slots m))).
  { intros f i Hf s Hs. apply list_elem_of_lookup_1 in Hs as [j Hj].
    destruct (decide (i = j)) as [->|Hij].
    - rewrite list_lookup_alter_eq in Hj.
      destruct (_slots m !! j) as [s0|]; [|discriminate].
      cbn in Hj. injection Hj as <-. apply Hf.
    - rewrite list_lookup_alter_ne in Hj by exact Hij.
      apply Hc. exact (list_elem_of_lookup_2 _ _ _ Hj). }
  assert (Hrel : forall n millis,
            stored_short (_slots (snd (releaseSlot m n millis)))).
  { intros n millis. unfold releaseSlot.
    destruct (negb (_initialized m) || negb (isValidSlotNumber n));
      [exact Hc|].
    destruct (negb (occupied (_slots m !!! Z.to_nat (slotNumberToIndex n))));
      [exact Hc|].
    cbn [snd _slots]. apply Halter. intros s. cbn. lia. }
  destruct call as [[ | uid entryTime | n | uid | ] millis]; cbn [step].
  - intros s Hs. cbn in Hs.
    change (map begin_slot (seq 0 (Z.to_nat TOTAL_SLOTS)))
      with (begin_slot <$> seq 0 (Z.to_nat TOTAL_SLOTS)) in Hs.
    apply list_elem_of_fmap in Hs as (k & -> & _). cbn. lia.
  - destruct (allocateSlot_cases m uid entryTime millis)
      as [[_ ->] | [(_ & _ & ->) | [(_ & _ & _ & ->)
                                   | (_ & _ & i & s & _ & _ & _ & ->)]]];
      try exact Hc.
    cbn [snd _slots]. apply Halter. intros s0. cbn [occupy cardUID].
    apply substring_length_le.
  - apply Hrel.
  - unfold releaseSlotByCard.
    destruct (findSlotByCard m uid =? -1); [exact Hc|].
    pose proof (Hrel (findSlotByCard m uid) millis) as H.
    destruct (releaseSlot m (findSlotByCard m uid) millis). exact H.
  - intros s Hs. cbn in Hs.
    change (map vacate (_slots m)) with (vacate <$> _slots m) in Hs.
    apply list_elem_of_fmap in Hs as (k & -> & _). cbn. lia.
Qed.

Lemma reachable_stored_short m0 calls :
  stored_short (_slots (run (snd (begin m0)) calls)).
Proof.
  assert (H : forall m, stored_short (_slots m) ->
                        stored_short (_slots (run m calls))).
  { unfold run. induction calls as [|c rest IH]; intros m Hc; [exact Hc|].
    cbn [foldl]. apply IH, step_stored_short, Hc. }
  apply H. intros s Hs. cbn in Hs.
  change (map begin_slot (seq 0 (Z.to_nat TOTAL_SLOTS)))
    with (begin_slot <$> seq 0 (Z.to_nat TOTAL_SLOTS)) in Hs.
  apply list_elem_of_fmap in Hs as (k & -> & _). cbn. lia.
Qed.

Lemma long_uid_not_found m uid :
  stored_short (_slots m) -> (20 <= String.length uid)%nat ->
  findSlotByCard m uid = -1.
Proof.
  intros Hc Hlong. apply findSlotByCard_loop_none. intros s Hs _ Hu.
  specialize (Hc s Hs). rewrite Hu in Hc. lia.
Qed.

(** X26: a UID of 20 characters or more is cut to 19 when stored, so
    after [begin()] and any calls [findSlotByCard] never finds it and
    [releaseSlotByCard] releases nothing for it; with two slots
    available, two [allocateSlot] calls for it take two different slots
    and lower the available count by two. *)
Theorem long_uid_takes_a_slot_per_call (m0 : SlotManager)
    (calls : list (Op * Z)) (uid : string) (e1 t1 e2 t2 millis : Z) :
  (20 <= String.length uid)%nat ->
  findSlotByCard (run (snd (begin m0)) calls) uid = -1
  /\ releaseSlotByCard (run (snd (begin m0)) calls) uid millis
     = (0, -1, run (snd (begin m0)) calls)
  /\ (2 <= getAvailableSlots (run (snd (begin m0)) calls) ->
      isValidSlotNumber
        (fst (allocateSlot (run (snd (begin m0)) calls) uid e1 t1)) = true
      /\ isValidSlotNumber
           (fst (allocateSlot
                   (snd (allocateSlot (run (snd (begin m0)) calls) uid e1 t1))
                   uid e2 t2)) = true
      /\ fst (allocateSlot
                (snd (allocateSlot (run (snd (begin m0)) calls) uid e1 t1))
                uid e2 t2)
         <> fst (allocateSlot (run (snd (begin m0)) calls) uid e1 t1)
      /\ getAvailableSlots
           (snd (allocateSlot
                   (snd (allocateSlot (run (snd (begin m0)) calls) uid e1 t1))
                   uid e2 t2))
         = getAvailableSlots (run (snd (begin m0)) calls) - 2).
Proof.
  intros Hlong.
  pose proof (reachable_Inv m0 calls) as HI.
  pose proof (reachable_stored_short m0 calls) as Hshort.
  set (m := run (snd (begin m0)) calls) in *.
  pose proof (long_uid_not_found m uid Hshort Hlong) as Hnone.
  split; [exact Hnone|]. split.
  { unfold releaseSlotByCard. rewrite Hnone. reflexivity. }
  unfold getAvailableSlots. intros Hav.
  destruct (allocateSlot_fresh m uid e1 t1 HI Hnone ltac:(lia))
    as (i & s & Hi & Hs & Hn & Hv & Hr).
  pose proof (allocateSlot_Inv m uid e1 t1 HI) as HI1.
  pose proof (step_stored_short m (OpAllocateSlot uid e1, t1) Hshort)
    as Hshort1.
  cbn [step] in Hshort1. rewrite Hr in *. cbn [fst snd] in *.
  set (m1 := mkManager (alter (occupy uid e1 t1) i (_slots m))
                       (_availableSlots m - 1) true) in *.
  pose proof (long_uid_not_found m1 uid Hshort1 Hlong) as Hnone1.
  destruct (allocateSlot_fresh m1 uid e2 t2 HI1 Hnone1)
    as (i' & s' & Hi' & Hs' & Hn' & Hv' & Hr');
    [cbn [m1 _availableSlots]; lia|].
  rewrite Hr'. cbn [fst snd _availableSlots m1].
  split; [exact Hv|]. split; [exact Hv'|]. split; [|lia].
  intros E. assert (i' = i) by lia. subst i'.
  cbn [m1 _slots] in Hi'. rewrite list_lookup_alter_eq, Hi in Hi'.
  cbn in Hi'. injection Hi' as <-. discriminate Hs'.
Qed.

(** The text of a 10-byte card UID, on a fresh allocator. *)
Lemma long_uid_takes_a_slot_per_call_witness :
  let m := run (snd (begin (new []))) [] in
  let uid := "0123456789ABCDEF0123" in
  findSlotByCard m uid = -1
  /\ releaseSlotByCard m uid 9000 = (0, -1, m)
  /\ fst (allocateSlot (snd (allocateSlot m uid 0 1000)) uid 0 2000)
     <> fst (allocateSlot m uid 0 1000).
Proof.
  intros m uid.
  destruct (long_uid_takes_a_slot_per_call (new []) [] uid 0 1000 0 2000
              9000 ltac:(cbn; lia))
    as (H1 & H2 & H3).
  split; [exact H1|]. split; [exact H2|].
  apply H3. vm_compute. discriminate.
Defined.

End SlotManagerFacts.

(** ** GateController *)

Module GateControllerFacts.
Import Config Arduino ArduinoFacts GateController.

(** Runs the monadic code of a member function on a symbolic state. *)
Ltac run_gate :=
  cbv [tick update handleCardScanned openGate closeGate setState fireEvent
       getStateElapsedTime readIRSensor setServoAngle delay millis
       digitalRead_irPin member assign emit when bind ret
       gate board clock irPin
       _state _lastScannedCard _stateStartTime _eventCallback
       _vehicleWasDetected _initialized
       set_state set_lastScannedCard set_vehicleWasDetected
       is_waiting_card app];
  cbn [negb andb].

(** C3: in every state other than [STATE_WAITING_CARD], whatever the
    arguments, [handleCardScanned] returns with the controller (and the
    clock) unchanged and an empty effect log: no callback is invoked, the
    servo is not written, nothing is delayed. *)
Theorem handleCardScanned_ignored_outside_waiting_card (s : Sys)
    (uid : string) (authorized : bool) (slot : Z) (parkingFull : bool) :
  _state (gate s) <> STATE_WAITING_CARD ->
  handleCardScanned uid authorized slot parkingFull s = (tt, s, []).
Proof.
  destruct s as [[st card start cb was init] b]. cbn [gate _state].
  intros Hst. destruct st; try congruence; reflexivity.
Qed.

(** A card result delivered while the barrier is open. *)
Lemma handleCardScanned_ignored_outside_waiting_card_witness :
  let s := mkSys (mkGate STATE_BARRIER_OPEN "0A1B2C3D" 4000 true true true)
                 (mkBoard 9000 LOW) in
  _state (gate s) <> STATE_WAITING_CARD
  /\ handleCardScanned "1A2B3C4D" true 3 false s = (tt, s, []).
Proof.
  intros s. split.
  - discriminate.
  - apply (handleCardScanned_ignored_outside_waiting_card s "1A2B3C4D"
             true 3 false).
    discriminate.
Defined.

(** *** The three outcomes of a scan in [STATE_WAITING_CARD] *)

Example handleCardScanned_granted :
  handleCardScanned "0A1B2C3D" true 3 false
    (mkSys (mkGate STATE_WAITING_CARD "" 4000 true true true)
           (mkBoard 6000 LOW))
  = (tt,
     mkSys (mkGate STATE_BARRIER_OPEN "0A1B2C3D" 6000 true true true)
           (mkBoard 6000 LOW),
     [Callback (mkEventData EVENT_CARD_SCANNED "0A1B2C3D" (Some 3) None);
      ServoWrite SERVO_OPEN_ANGLE]).
Proof. reflexivity. Qed.

Example handleCardScanned_denied :
  handleCardScanned "DEADBEEF" false (-1) false
    (mkSys (mkGate STATE_WAITING_CARD "" 4000 true true true)
           (mkBoard 6000 LOW))
  = (tt,
     mkSys (mkGate STATE_IDLE "DEADBEEF" 8000 true true true)
           (mkBoard 8000 LOW),
     [Callback (mkEventData EVENT_CARD_DENIED "DEADBEEF" (Some (-1)) None);
      Delay DISPLAY_MESSAGE_DURATION]).
Proof. reflexivity. Qed.

Example handleCardScanned_parking_full :
  handleCardScanned "0A1B2C3D" true (-1) true
    (mkSys (mkGate STATE_WAITING_CARD "" 4000 true true true)
           (mkBoard 6000 LOW))
  = (tt,
     mkSys (mkGate STATE_IDLE "0A1B2C3D" 8000 true true true)
           (mkBoard 8000 LOW),
     [Callback (mkEventData EVENT_PARKING_FULL "0A1B2C3D" (Some (-1)) None);
      Delay DISPLAY_MESSAGE_DURATION]).
Proof. reflexivity. Qed.

(** The vehicle passes, and the barrier closes once [GATE_CLOSE_DELAY]
    has elapsed. *)
Example ticks_barrier_open_to_idle :
  ticks (mkGate STATE_BARRIER_OPEN "0A1B2C3D" 6000 true true true)
        [mkBoard 9000 HIGH; mkBoard 10999 HIGH; mkBoard 11000 HIGH]
  = (mkGate STATE_IDLE "0A1B2C3D" 11000 true false true,
     [Callback (mkEventData EVENT_VEHICLE_PASSED "" None None);
      ServoWrite SERVO_CLOSED_ANGLE]).
Proof. reflexivity. Qed.

(** *** The scan timeout *)

(** The comparison of [update] is strict: when the elapsed time equals
    [CARD_SCAN_TIMEOUT] and the vehicle is still there, the gate stays in
    [STATE_WAITING_CARD] and no event is handed to the callback. *)
Lemma update_at_exact_scan_timeout :
  let g := mkGate STATE_WAITING_CARD "" 5000 true true true in
  let b := mkBoard 15000 LOW in
  ulong (clock b - _stateStartTime g) >= CARD_SCAN_TIMEOUT
  /\ negb (detects (irPin b)) && _vehicleWasDetected g = false
  /\ _state (fst (tick g b)) = STATE_WAITING_CARD
  /\ _state (fst (tick g b)) <> STATE_IDLE
  /\ events (snd (tick g b)) = [].
Proof.
  cbn zeta. repeat split; try reflexivity; vm_compute; discriminate.
Qed.

(** C4, as the code has it: in [STATE_WAITING_CARD] with no falling edge
    of the presence reading, [update] goes to [STATE_IDLE] and hands
    exactly one [EVENT_TIMEOUT] to the callback when the time elapsed in
    the state is strictly greater than [CARD_SCAN_TIMEOUT]; up to and
    including the timeout itself it stays in [STATE_WAITING_CARD] with no
    effect. *)
Theorem update_waiting_card_timeout (g : GateController) (b : Board) :
  _initialized g = true -> _eventCallback g = true ->
  _state g = STATE_WAITING_CARD ->
  negb (detects (irPin b)) && _vehicleWasDetected g = false ->
  (ulong (clock b - _stateStartTime g) > CARD_SCAN_TIMEOUT ->
   tick g b
   = (mkGate STATE_IDLE (_lastScannedCard g) (clock b) true
             (detects (irPin b)) true,
      [Callback (mkEventData EVENT_TIMEOUT "" None None)]))
  /\ (ulong (clock b - _stateStartTime g) <= CARD_SCAN_TIMEOUT ->
      tick g b = (set_vehicleWasDetected (detects (irPin b)) g, [])).
Proof.
  destruct g as [st card start cb was init], b as [t pin].
  cbn [_initialized _eventCallback _state _vehicleWasDetected
       _stateStartTime _lastScannedCard clock irPin].
  intros -> -> -> Hedge. run_gate. rewrite Hedge.
  split; intros Hcmp.
  - apply Z.gt_lt, Z.gtb_lt in Hcmp. rewrite Hcmp. reflexivity.
  - destruct (Z.gtb_spec (ulong (t - start)) CARD_SCAN_TIMEOUT) as [Hgt|_];
      [lia | reflexivity].
Qed.

(** One millisecond after the timeout, and exactly at the timeout. *)
Lemma update_waiting_card_timeout_witness :
  let g := mkGate STATE_WAITING_CARD "" 5000 true true true in
  tick g (mkBoard 15001 LOW)
  = (mkGate STATE_IDLE "" 15001 true true true,
     [Callback (mkEventData EVENT_TIMEOUT "" None None)])
  /\ tick g (mkBoard 15000 LOW) = (g, []).
Proof.
  intros g. split.
  - apply (update_waiting_card_timeout g (mkBoard 15001 LOW));
      reflexivity.
  - apply (update_waiting_card_timeout g (mkBoard 15000 LOW));
      try reflexivity; vm_compute; discriminate.
Defined.

(** *** Presence edges in [STATE_IDLE] *)

Lemma tick_idle g b :
  _initialized g = true -> _state g = STATE_IDLE ->
  tick g b
  = if detects (irPin b) && negb (_vehicleWasDetected g)
    then (mkGate STATE_WAITING_CARD (_lastScannedCard g) (clock b)
                 (_eventCallback g) (detects (irPin b)) true,
          if _eventCallback g
          then [Callback (mkEventData EVENT_VEHICLE_DETECTED "" None None)]
          else [])
    else (set_vehicleWasDetected (detects (irPin b)) g, []).
Proof.
  destruct g as [st card start cb was init], b as [t pin].
  cbn [_initialized _eventCallback _state _vehicleWasDetected
       _stateStartTime _lastScannedCard clock irPin].
  intros -> ->. run_gate.
  destruct (detects pin), was, cb; reflexivity.
Qed.

(** A vehicle that stays in front of an idle gate: no tick does anything. *)
Lemma ticks_idle_steady_presence (bs : list Board) g :
  _initialized g = true -> _state g = STATE_IDLE ->
  _vehicleWasDetected g = true ->
  Forall (fun b => detects (irPin b) = true) bs ->
  ticks g bs = (g, []).
Proof.
  intros Hinit Hst Hwas Hall.
  induction Hall as [|b rest Hb _ IH]; [reflexivity|].
  cbn [ticks]. rewrite (tick_idle g b Hinit Hst), Hb, Hwas. cbn [andb negb].
  replace (set_vehicleWasDetected true g) with g
    by (destruct g; cbn in Hwas; subst; reflexivity).
  rewrite IH. reflexivity.
Qed.

(** C9: in [STATE_IDLE], a tick whose reading is "present" while the
    previous one was "absent" moves to [STATE_WAITING_CARD] and hands
    exactly one [EVENT_VEHICLE_DETECTED] to the callback; every other tick
    only records the reading; and while the vehicle stays present nothing
    happens however many ticks pass. *)
Theorem update_idle_edge_triggered (g : GateController) (b : Board) :
  _initialized g = true -> _eventCallback g = true ->
  _state g = STATE_IDLE ->
  (detects (irPin b) = true -> _vehicleWasDetected g = false ->
   tick g b
   = (mkGate STATE_WAITING_CARD (_lastScannedCard g) (clock b) true true
             true,
      [Callback (mkEventData EVENT_VEHICLE_DETECTED "" None None)]))
  /\ (detects (irPin b) && negb (_vehicleWasDetected g) = false ->
      tick g b = (set_vehicleWasDetected (detects (irPin b)) g, []))
  /\ (_vehicleWasDetected g = true ->
      forall bs : list Board,
        Forall (fun b' => detects (irPin b') = true) bs ->
        ticks g bs = (g, [])).
Proof.
  intros Hinit Hcb Hst. rewrite (tick_idle g b Hinit Hst), Hcb.
  split; [|split].
  - intros -> ->. reflexivity.
  - intros ->. reflexivity.
  - intros Hwas bs Hall. apply ticks_idle_steady_presence; assumption.
Qed.

(** A vehicle arrives at an idle gate; no vehicle arrives; a vehicle seen
    on the previous tick stays for three more ticks. *)
Lemma update_idle_edge_triggered_witness :
  let idle_absent := mkGate STATE_IDLE "" 0 true false true in
  let idle_present := mkGate STATE_IDLE "" 0 true true true in
  tick idle_absent (mkBoard 700 LOW)
  = (mkGate STATE_WAITING_CARD "" 700 true true true,
     [Callback (mkEventData EVENT_VEHICLE_DETECTED "" None None)])
  /\ tick idle_absent (mkBoard 700 HIGH) = (idle_absent, [])
  /\ ticks idle_present
           [mkBoard 800 LOW; mkBoard 900 LOW; mkBoard 1000 LOW]
     = (idle_present, []).
Proof.
  intros idle_absent idle_present. split; [|split].
  - apply (update_idle_edge_triggered idle_absent (mkBoard 700 LOW));
      reflexivity.
  - apply (update_idle_edge_triggered idle_absent (mkBoard 700 HIGH));
      reflexivity.
  - apply (update_idle_edge_triggered idle_present (mkBoard 800 LOW));
      try reflexivity.
    repeat constructor.
Defined.

(** *** One tick in each of the other states *)

Lemma ulong_zero (t : Z) : ulong (t - t) = 0.
Proof. rewrite Z.sub_diag. reflexivity. Qed.

Lemma tick_uninitialized g b : _initialized g = false -> tick g b = (g, []).
Proof.
  destruct g as [st card start cb was init]. cbn [_initialized].
  intros ->. reflexivity.
Qed.

Lemma tick_waiting_card g b :
  _initialized g = true -> _state g = STATE_WAITING_CARD ->
  tick g b
  = if negb (detects (irPin b)) && _vehicleWasDetected g
    then (mkGate STATE_IDLE (_lastScannedCard g) (clock b)
                 (_eventCallback g) (detects (irPin b)) true,
          if _eventCallback g
          then [Callback (mkEventData EVENT_VEHICLE_LEFT "" None None)]
          else [])
    else if ulong (clock b - _stateStartTime g) >? CARD_SCAN_TIMEOUT
    then (mkGate STATE_IDLE (_lastScannedCard g) (clock b)
                 (_eventCallback g) (detects (irPin b)) true,
          if _eventCallback g
          then [Callback (mkEventData EVENT_TIMEOUT "" None None)]
          else [])
    else (set_vehicleWasDetected (detects (irPin b)) g, []).
Proof.
  destruct g as [st card start cb was init], b as [t pin].
  cbn [_initialized _eventCallback _state _vehicleWasDetected
       _stateStartTime _lastScannedCard clock irPin].
  intros -> ->.
  destruct cb, pin, was; run_gate; cbn [detects negb andb]; run_gate;
    rewrite ?ulong_zero; try reflexivity;
    destruct (ulong (t - start) >? CARD_SCAN_TIMEOUT); reflexivity.
Qed.

Lemma tick_barrier_open g b :
  _initialized g = true -> _state g = STATE_BARRIER_OPEN ->
  tick g b
  = if negb (detects (irPin b)) && _vehicleWasDetected g
    then (mkGate STATE_CLOSING_DELAY (_lastScannedCard g) (clock b)
                 (_eventCallback g) (detects (irPin b)) true,
          if _eventCallback g
          then [Callback (mkEventData EVENT_VEHICLE_PASSED "" None None)]
          else [])
    else (set_vehicleWasDetected (detects (irPin b)) g, []).
Proof.
  destruct g as [st card start cb was init], b as [t pin].
  cbn [_initialized _eventCallback _state _vehicleWasDetected
       _stateStartTime _lastScannedCard clock irPin].
  intros -> ->.
  destruct cb, pin, was; run_gate; cbn [detects negb andb]; run_gate;
    reflexivity.
Qed.

Lemma tick_closing_delay g b :
  _initialized g = true -> _state g = STATE_CLOSING_DELAY ->
  tick g b
  = if ulong (clock b - _stateStartTime g) >=? GATE_CLOSE_DELAY
    then (mkGate STATE_IDLE (_lastScannedCard g) (clock b)
                 (_eventCallback g) (detects (irPin b)) true,
          [ServoWrite SERVO_CLOSED_ANGLE])
    else (set_vehicleWasDetected (detects (irPin b)) g, []).
Proof.
  destruct g as [st card start cb was init], b as [t pin].
  cbn [_initialized _eventCallback _state _vehicleWasDetected
       _stateStartTime _lastScannedCard clock irPin].
  intros -> ->. run_gate.
  destruct (ulong (t - start) >=? GATE_CLOSE_DELAY); reflexivity.
Qed.

Lemma set_vehicleWasDetected_same g :
  set_vehicleWasDetected (_vehicleWasDetected g) g = g.
Proof. destruct g. reflexivity. Qed.

(** X9: in [STATE_WAITING_CARD] a present-to-absent edge sends the gate
    back to [STATE_IDLE] with exactly one [EVENT_VEHICLE_LEFT], whatever
    time has passed: the timeout test of the same call sees the state
    just entered and does not fire as well. *)
Theorem update_waiting_card_vehicle_left (g : GateController) (b : Board) :
  _initialized g = true -> _eventCallback g = true ->
  _state g = STATE_WAITING_CARD ->
  detects (irPin b) = false -> _vehicleWasDetected g = true ->
  tick g b
  = (mkGate STATE_IDLE (_lastScannedCard g) (clock b) true false true,
     [Callback (mkEventData EVENT_VEHICLE_LEFT "" None None)]).
Proof.
  intros Hinit Hcb Hst Hd Hwas.
  rewrite (tick_waiting_card g b Hinit Hst), Hd, Hwas, Hcb. reflexivity.
Qed.

(** The vehicle leaves 50 seconds after it was detected. *)
Lemma update_waiting_card_vehicle_left_witness :
  tick (mkGate STATE_WAITING_CARD "" 5000 true true true)
       (mkBoard 55000 HIGH)
  = (mkGate STATE_IDLE "" 55000 true false true,
     [Callback (mkEventData EVENT_VEHICLE_LEFT "" None None)]).
Proof.
  apply (update_waiting_card_vehicle_left
           (mkGate STATE_WAITING_CARD "" 5000 true true true)
           (mkBoard 55000 HIGH)); reflexivity.
Defined.

Lemma ticks_barrier_open_steady (bs : list Board) g :
  _initialized g = true -> _state g = STATE_BARRIER_OPEN ->
  Forall (fun b => detects (irPin b) = _vehicleWasDetected g) bs ->
  ticks g bs = (g, []).
Proof.
  intros Hinit Hst Hall.
  induction Hall as [|b rest Hb _ IH]; [reflexivity|].
  cbn [ticks]. rewrite (tick_barrier_open g b Hinit Hst), Hb.
  replace (negb (_vehicleWasDetected g) && _vehicleWasDetected g) with false
    by (destruct (_vehicleWasDetected g); reflexivity).
  rewrite set_vehicleWasDetected_same, IH. reflexivity.
Qed.

(** X10: in [STATE_BARRIER_OPEN] a present-to-absent edge moves to
    [STATE_CLOSING_DELAY] with exactly one [EVENT_VEHICLE_PASSED] and no
    servo write; any other tick only records the reading; and as long as
    the reading does not change the barrier stays open, however much time
    passes. *)
Theorem update_barrier_open (g : GateController) (b : Board) :
  _initialized g = true -> _eventCallback g = true ->
  _state g = STATE_BARRIER_OPEN ->
  (detects (irPin b) = false -> _vehicleWasDetected g = true ->
   tick g b
   = (mkGate STATE_CLOSING_DELAY (_lastScannedCard g) (clock b) true false
             true,
      [Callback (mkEventData EVENT_VEHICLE_PASSED "" None None)]))
  /\ (negb (detects (irPin b)) && _vehicleWasDetected g = false ->
      tick g b = (set_vehicleWasDetected (detects (irPin b)) g, []))
  /\ (forall bs : list Board,
        Forall (fun b' => detects (irPin b') = _vehicleWasDetected g) bs ->
        ticks g bs = (g, [])).
Proof.
  intros Hinit Hcb Hst. rewrite (tick_barrier_open g b Hinit Hst), Hcb.
  split; [|split].
  - intros -> ->. reflexivity.
  - intros ->. reflexivity.
  - intros bs Hall. apply ticks_barrier_open_steady; assumption.
Qed.

(** A vehicle drives through; a barrier opened with nobody there stays
    open for an hour of ticks. *)
Lemma update_barrier_open_witness :
  let car := mkGate STATE_BARRIER_OPEN "0A1B2C3D" 6000 true true true in
  let empty := mkGate STATE_BARRIER_OPEN "" 6000 true false true in
  tick car (mkBoard 9000 HIGH)
  = (mkGate STATE_CLOSING_DELAY "0A1B2C3D" 9000 true false true,
     [Callback (mkEventData EVENT_VEHICLE_PASSED "" None None)])
  /\ tick car (mkBoard 9000 LOW) = (car, [])
  /\ ticks empty [mkBoard 7000 HIGH; mkBoard 3606000 HIGH] = (empty, []).
Proof.
  intros car empty. split; [|split].
  - apply (update_barrier_open car (mkBoard 9000 HIGH)); reflexivity.
  - apply (update_barrier_open car (mkBoard 9000 LOW)); reflexivity.
  - apply (update_barrier_open empty (mkBoard 7000 HIGH));
      try reflexivity.
    repeat constructor.
Defined.

(** X11: in [STATE_CLOSING_DELAY] the barrier is closed (one servo write
    of the closed angle, no event) and the gate returns to [STATE_IDLE]
    as soon as the time in the state is at least [GATE_CLOSE_DELAY],
    bound included; before that a tick only records the reading. The
    presence reading plays no part. *)
Theorem update_closing_delay (g : GateController) (b : Board) :
  _initialized g = true -> _state g = STATE_CLOSING_DELAY ->
  (GATE_CLOSE_DELAY <= ulong (clock b - _stateStartTime g) ->
   tick g b
   = (mkGate STATE_IDLE (_lastScannedCard g) (clock b) (_eventCallback g)
             (detects (irPin b)) true,
      [ServoWrite SERVO_CLOSED_ANGLE]))
  /\ (ulong (clock b - _stateStartTime g) < GATE_CLOSE_DELAY ->
      tick g b = (set_vehicleWasDetected (detects (irPin b)) g, [])).
Proof.
  intros Hinit Hst. rewrite (tick_closing_delay g b Hinit Hst).
  split; intros Hcmp.
  - apply Z.geb_le in Hcmp. rewrite Hcmp. reflexivity.
  - destruct (Z.geb_spec (ulong (clock b - _stateStartTime g))
                         GATE_CLOSE_DELAY); [lia | reflexivity].
Qed.

(** Exactly at the delay, and one millisecond before. *)
Lemma update_closing_delay_witness :
  let g := mkGate STATE_CLOSING_DELAY "0A1B2C3D" 9000 true false true in
  tick g (mkBoard 11000 LOW)
  = (mkGate STATE_IDLE "0A1B2C3D" 11000 true true true,
     [ServoWrite SERVO_CLOSED_ANGLE])
  /\ tick g (mkBoard 10999 HIGH) = (g, []).
Proof.
  intros g. split.
  - apply (update_closing_delay g (mkBoard 11000 LOW));
      try reflexivity; vm_compute; discriminate.
  - apply (update_closing_delay g (mkBoard 10999 HIGH)); reflexivity.
Defined.

(** Closes a goal of the form "no such effect in this explicit log". *)
Ltac no_such_effect Hin :=
  repeat (apply elem_of_cons in Hin as [Hin|Hin]; [discriminate|]);
  inversion Hin.

Ltac bounded_effects :=
  cbn; repeat split;
  first [ lia | reflexivity | assumption
        | solve [let Hin := fresh in intros Hin; no_such_effect Hin]
        | solve [let ms := fresh in let Hin := fresh in
                 intros ms Hin; no_such_effect Hin] ].

(** [update] never tells the servo the open angle. *)
Lemma tick_never_opens (g : GateController) (b : Board) :
  ServoWrite SERVO_OPEN_ANGLE ∉ snd (tick g b).
Proof.
  destruct (_initialized g) eqn:Hinit.
  2:{ rewrite (tick_uninitialized g b Hinit). bounded_effects. }
  destruct (_state g) eqn:Hst.
  - rewrite (tick_idle g b Hinit Hst).
    destruct (detects (irPin b) && negb (_vehicleWasDetected g)),
      (_eventCallback g) eqn:Hcb; bounded_effects.
  - rewrite (tick_waiting_card g b Hinit Hst).
    destruct (negb (detects (irPin b)) && _vehicleWasDetected g),
      (ulong (clock b - _stateStartTime g) >? CARD_SCAN_TIMEOUT),
      (_eventCallback g) eqn:Hcb; bounded_effects.
  - rewrite (tick_barrier_open g b Hinit Hst).
    destruct (negb (detects (irPin b)) && _vehicleWasDetected g),
      (_eventCallback g) eqn:Hcb; bounded_effects.
  - rewrite (tick_closing_delay g b Hinit Hst).
    destruct (ulong (clock b - _stateStartTime g) >=? GATE_CLOSE_DELAY);
      bounded_effects.
Qed.

(** X12: whatever the state and the board, one call of [update] hands at
    most one event to the callback, writes the servo at most once and
    never to the open angle, never delays, and leaves the last scanned
    card, the callback and the initialised flag alone. *)
Theorem update_effects_bounded (g : GateController) (b : Board) :
  (length (events (snd (tick g b))) <= 1)%nat
  /\ (length (servoWrites (snd (tick g b))) <= 1)%nat
  /\ (ServoWrite SERVO_OPEN_ANGLE ∉ snd (tick g b))
  /\ (forall ms, Delay ms ∉ snd (tick g b))
  /\ _lastScannedCard (fst (tick g b)) = _lastScannedCard g
  /\ _eventCallback (fst (tick g b)) = _eventCallback g
  /\ _initialized (fst (tick g b)) = _initialized g.
Proof.
  destruct (_initialized g) eqn:Hinit.
  2:{ rewrite (tick_uninitialized g b Hinit). bounded_effects. }
  destruct (_state g) eqn:Hst.
  - rewrite (tick_idle g b Hinit Hst).
    destruct (detects (irPin b) && negb (_vehicleWasDetected g)),
      (_eventCallback g) eqn:Hcb; bounded_effects.
  - rewrite (tick_waiting_card g b Hinit Hst).
    destruct (negb (detects (irPin b)) && _vehicleWasDetected g),
      (ulong (clock b - _stateStartTime g) >? CARD_SCAN_TIMEOUT),
      (_eventCallback g) eqn:Hcb; bounded_effects.
  - rewrite (tick_barrier_open g b Hinit Hst).
    destruct (negb (detects (irPin b)) && _vehicleWasDetected g),
      (_eventCallback g) eqn:Hcb; bounded_effects.
  - rewrite (tick_closing_delay g b Hinit Hst).
    destruct (ulong (clock b - _stateStartTime g) >=? GATE_CLOSE_DELAY);
      bounded_effects.
Qed.

(** *** A scan result in [STATE_WAITING_CARD] *)

Lemma handleCardScanned_not_waiting (s : Sys) uid authorized slot full :
  _state (gate s) <> STATE_WAITING_CARD ->
  handleCardScanned uid authorized slot full s = (tt, s, []).
Proof.
  destruct s as [[st card start cb was init] b]. cbn [gate _state].
  intros Hst. destruct st; try congruence; reflexivity.
Qed.

Lemma handleCardScanned_waiting (s : Sys) uid authorized slot full :
  _state (gate s) = STATE_WAITING_CARD ->
  handleCardScanned uid authorized slot full s
  = if authorized && negb full
    then (tt,
          mkSys (mkGate STATE_BARRIER_OPEN uid (clock (board s))
                        (_eventCallback (gate s))
                        (_vehicleWasDetected (gate s))
                        (_initialized (gate s)))
                (board s),
          (if _eventCallback (gate s)
           then [Callback (mkEventData EVENT_CARD_SCANNED uid (Some slot)
                                       None)]
           else [])
          ++ [ServoWrite SERVO_OPEN_ANGLE])
    else (tt,
          mkSys (mkGate STATE_IDLE uid
                        (ulong (clock (board s) + DISPLAY_MESSAGE_DURATION))
                        (_eventCallback (gate s))
                        (_vehicleWasDetected (gate s))
                        (_initialized (gate s)))
                (mkBoard (ulong (clock (board s) + DISPLAY_MESSAGE_DURATION))
                         (irPin (board s))),
          (if _eventCallback (gate s)
           then [Callback (mkEventData
                             (if authorized then EVENT_PARKING_FULL
                              else EVENT_CARD_DENIED)
                             uid (Some slot) None)]
           else [])
          ++ [Delay DISPLAY_MESSAGE_DURATION]).
Proof.
  destruct s as [[st card start cb was init] [t pin]].
  cbn [gate board _state _eventCallback _vehicleWasDetected _initialized
       clock irPin].
  intros ->. destruct authorized, full, cb; reflexivity.
Qed.

(** X13: a scan result delivered in [STATE_WAITING_CARD] records the UID
    as last scanned card and hands exactly one event to the callback. An
    authorised card with room opens the servo and enters
    [STATE_BARRIER_OPEN] at once; an unauthorised card
    ([EVENT_CARD_DENIED], checked first) or a full car park
    ([EVENT_PARKING_FULL]) leaves the servo alone, blocks for
    [DISPLAY_MESSAGE_DURATION] and then enters [STATE_IDLE]. *)
Theorem handleCardScanned_in_waiting_card (s : Sys) (uid : string)
    (authorized : bool) (slot : Z) (parkingFull : bool) :
  _state (gate s) = STATE_WAITING_CARD -> _eventCallback (gate s) = true ->
  handleCardScanned uid authorized slot parkingFull s
  = if authorized && negb parkingFull
    then (tt,
          mkSys (mkGate STATE_BARRIER_OPEN uid (clock (board s)) true
                        (_vehicleWasDetected (gate s))
                        (_initialized (gate s)))
                (board s),
          [Callback (mkEventData EVENT_CARD_SCANNED uid (Some slot) None);
           ServoWrite SERVO_OPEN_ANGLE])
    else (tt,
          mkSys (mkGate STATE_IDLE uid
                        (ulong (clock (board s) + DISPLAY_MESSAGE_DURATION))
                        true
                        (_vehicleWasDetected (gate s))
                        (_initialized (gate s)))
                (mkBoard (ulong (clock (board s) + DISPLAY_MESSAGE_DURATION))
                         (irPin (board s))),
          [Callback (mkEventData
                       (if authorized then EVENT_PARKING_FULL
                        else EVENT_CARD_DENIED)
                       uid (Some slot) None);
           Delay DISPLAY_MESSAGE_DURATION]).
Proof.
  intros Hst Hcb.
  rewrite (handleCardScanned_waiting s uid authorized slot parkingFull Hst),
    Hcb.
  reflexivity.
Qed.

(** An unauthorised card while the car park is also full: denied. *)
Lemma handleCardScanned_in_waiting_card_witness :
  handleCardScanned "DEADBEEF" false (-1) true
    (mkSys (mkGate STATE_WAITING_CARD "" 4000 true true true)
           (mkBoard 6000 LOW))
  = (tt,
     mkSys (mkGate STATE_IDLE "DEADBEEF" 8000 true true true)
           (mkBoard 8000 LOW),
     [Callback (mkEventData EVENT_CARD_DENIED "DEADBEEF" (Some (-1)) None);
      Delay DISPLAY_MESSAGE_DURATION]).
Proof.
  apply (handleCardScanned_in_waiting_card
           (mkSys (mkGate STATE_WAITING_CARD "" 4000 true true true)
                  (mkBoard 6000 LOW))
           "DEADBEEF" false (-1) true); reflexivity.
Defined.

(** *** Calls in sequence *)

Lemma perform_update g b : perform g (CallUpdate, b) = tick g b.
Proof. reflexivity. Qed.

Lemma perform_handleCardScanned g b uid authorized slot full :
  perform g (CallHandleCardScanned uid authorized slot full, b)
  = if is_waiting_card (_state g)
    then if authorized && negb full
         then (mkGate STATE_BARRIER_OPEN uid (clock b) (_eventCallback g)
                      (_vehicleWasDetected g) (_initialized g),
               (if _eventCallback g
                then [Callback (mkEventData EVENT_CARD_SCANNED uid
                                            (Some slot) None)]
                else [])
               ++ [ServoWrite SERVO_OPEN_ANGLE])
         else (mkGate STATE_IDLE uid
                      (ulong (clock b + DISPLAY_MESSAGE_DURATION))
                      (_eventCallback g) (_vehicleWasDetected g)
                      (_initialized g),
               (if _eventCallback g
                then [Callback (mkEventData
                                  (if authorized then EVENT_PARKING_FULL
                                   else EVENT_CARD_DENIED)
                                  uid (Some slot) None)]
                else [])
               ++ [Delay DISPLAY_MESSAGE_DURATION])
    else (g, []).
Proof.
  unfold perform. cbn [fst snd call_body].
  destruct (is_waiting_card (_state g)) eqn:Hw.
  - rewrite handleCardScanned_waiting
      by (cbn [gate]; destruct (_state g); try discriminate; reflexivity).
    destruct (authorized && negb full); reflexivity.
  - rewrite handleCardScanned_not_waiting
      by (cbn [gate]; intros E; rewrite E in Hw; discriminate).
    reflexivity.
Qed.

(** X14: among all public calls, in any state, the servo is told the
    open angle only by [openGate], or by [handleCardScanned] delivering
    an authorised card with room while the gate is in
    [STATE_WAITING_CARD]. *)
Theorem servo_opened_only_on_grant_or_override (g : GateController)
    (c : Call) (b : Board) :
  ServoWrite SERVO_OPEN_ANGLE ∈ snd (perform g (c, b)) ->
  (exists duration, c = CallOpenGate duration)
  \/ (exists uid slot,
        c = CallHandleCardScanned uid true slot false
        /\ _state g = STATE_WAITING_CARD).
Proof.
  destruct c as [ | | uid authorized slot full | d | | | cb].
  - cbn. intros Hin. no_such_effect Hin.
  - rewrite perform_update. intros Hin. exfalso.
    exact (tick_never_opens g b Hin).
  - rewrite perform_handleCardScanned.
    destruct (_state g) eqn:Hst; cbn [is_waiting_card];
      try solve [intros Hin; inversion Hin].
    destruct authorized, full; cbn [andb negb]; intros Hin.
    + destruct (_eventCallback g); cbn in Hin; no_such_effect Hin.
    + right. exists uid, slot. split; reflexivity.
    + destruct (_eventCallback g); cbn in Hin; no_such_effect Hin.
    + destruct (_eventCallback g); cbn in Hin; no_such_effect Hin.
  - intros _. left. exists d. reflexivity.
  - cbn. intros Hin. no_such_effect Hin.
  - cbn. intros Hin. no_such_effect Hin.
  - cbn. intros Hin. no_such_effect Hin.
Qed.

(** The grant of slot 3 at the entrance. *)
Lemma servo_opened_only_on_grant_or_override_witness :
  let g := mkGate STATE_WAITING_CARD "" 4000 true true true in
  (exists duration,
     CallHandleCardScanned "0A1B2C3D" true 3 false = CallOpenGate duration)
  \/ (exists uid slot,
        CallHandleCardScanned "0A1B2C3D" true 3 false
        = CallHandleCardScanned uid true slot false
        /\ _state g = STATE_WAITING_CARD).
Proof.
  intros g.
  apply (servo_opened_only_on_grant_or_override g
           (CallHandleCardScanned "0A1B2C3D" true 3 false)
           (mkBoard 6000 LOW)).
  apply (list_elem_of_lookup_2 _ 1%nat). reflexivity.
Defined.

(** X15: one vehicle through the gate. From an idle, initialised gate
    with a callback: the vehicle appears, its card is granted a slot,
    the vehicle leaves the sensor, and a tick comes at least
    [GATE_CLOSE_DELAY] later. The gate is idle again, and the outside
    has seen, in this order: vehicle detected, card scanned with UID and
    slot, servo opened, vehicle passed, servo closed. *)
Theorem entry_cycle (g : GateController) (b1 b2 b3 b4 : Board)
    (uid : string) (slot : Z) :
  _initialized g = true -> _eventCallback g = true ->
  _state g = STATE_IDLE -> _vehicleWasDetected g = false ->
  detects (irPin b1) = true -> detects (irPin b3) = false ->
  GATE_CLOSE_DELAY <= ulong (clock b4 - clock b3) ->
  performAll g [(CallUpdate, b1);
                (CallHandleCardScanned uid true slot false, b2);
                (CallUpdate, b3);
                (CallUpdate, b4)]
  = (mkGate STATE_IDLE uid (clock b4) true (detects (irPin b4)) true,
     [Callback (mkEventData EVENT_VEHICLE_DETECTED "" None None);
      Callback (mkEventData EVENT_CARD_SCANNED uid (Some slot) None);
      ServoWrite SERVO_OPEN_ANGLE;
      Callback (mkEventData EVENT_VEHICLE_PASSED "" None None);
      ServoWrite SERVO_CLOSED_ANGLE]).
Proof.
  intros Hinit Hcb Hst Hwas Hd1 Hd3 Hdelay.
  cbn [performAll].
  rewrite perform_update, (tick_idle g b1 Hinit Hst), Hd1, Hwas, Hcb.
  cbn [andb negb].
  rewrite perform_handleCardScanned. cbn [_state is_waiting_card andb negb
    _eventCallback _vehicleWasDetected _initialized].
  rewrite perform_update, tick_barrier_open by reflexivity.
  cbn [irPin clock _vehicleWasDetected _eventCallback _lastScannedCard].
  rewrite Hd3. cbn [andb negb].
  rewrite perform_update, tick_closing_delay by reflexivity.
  cbn [_stateStartTime _lastScannedCard _eventCallback].
  apply Z.geb_le in Hdelay. rewrite Hdelay. reflexivity.
Qed.

Lemma entry_cycle_witness :
  performAll (mkGate STATE_IDLE "" 0 true false true)
    [(CallUpdate, mkBoard 1000 LOW);
     (CallHandleCardScanned "0A1B2C3D" true 3 false, mkBoard 4000 LOW);
     (CallUpdate, mkBoard 9000 HIGH);
     (CallUpdate, mkBoard 11000 HIGH)]
  = (mkGate STATE_IDLE "0A1B2C3D" 11000 true false true,
     [Callback (mkEventData EVENT_VEHICLE_DETECTED "" None None);
      Callback (mkEventData EVENT_CARD_SCANNED "0A1B2C3D" (Some 3) None);
      ServoWrite SERVO_OPEN_ANGLE;
      Callback (mkEventData EVENT_VEHICLE_PASSED "" None None);
      ServoWrite SERVO_CLOSED_ANGLE]).
Proof.
  apply (entry_cycle (mkGate STATE_IDLE "" 0 true false true)
           (mkBoard 1000 LOW) (mkBoard 4000 LOW) (mkBoard 9000 HIGH)
           (mkBoard 11000 HIGH) "0A1B2C3D" 3);
    try reflexivity; vm_compute; discriminate.
Defined.

(** *** [isOpen] and the servo *)

Lemma lastAngle_app a l1 l2 :
  lastAngle a (l1 ++ l2) = lastAngle (lastAngle a l1) l2.
Proof.
  revert a. induction l1 as [|e rest IH]; intros a; [reflexivity|].
  destruct e; cbn [app lastAngle]; apply IH.
Qed.

(** Every call but a bare [closeGate] keeps [isOpen] in step with the
    angle last written. *)
Lemma perform_isOpen_servo g c b a :
  c <> CallCloseGate ->
  isOpen g = (a =? SERVO_OPEN_ANGLE) ->
  isOpen (fst (perform g (c, b)))
  = (lastAngle a (snd (perform g (c, b))) =? SERVO_OPEN_ANGLE).
Proof.
  intros Hc HJ. destruct c as [ | | uid authorized slot full | d | | | cb];
    try congruence.
  - reflexivity.
  - rewrite perform_update.
    destruct (_initialized g) eqn:Hinit;
      [|rewrite (tick_uninitialized g b Hinit); exact HJ].
    unfold isOpen in *. destruct (_state g) eqn:Hst.
    + rewrite (tick_idle g b Hinit Hst).
      destruct (detects (irPin b) && negb (_vehicleWasDetected g)),
        (_eventCallback g); cbn; try rewrite Hst; exact HJ.
    + rewrite (tick_waiting_card g b Hinit Hst).
      destruct (negb (detects (irPin b)) && _vehicleWasDetected g),
        (ulong (clock b - _stateStartTime g) >? CARD_SCAN_TIMEOUT),
        (_eventCallback g); cbn; try rewrite Hst; exact HJ.
    + rewrite (tick_barrier_open g b Hinit Hst).
      destruct (negb (detects (irPin b)) && _vehicleWasDetected g),
        (_eventCallback g); cbn; try rewrite Hst; exact HJ.
    + rewrite (tick_closing_delay g b Hinit Hst).
      destruct (ulong (clock b - _stateStartTime g) >=? GATE_CLOSE_DELAY);
        cbn; try rewrite Hst; try exact HJ; reflexivity.
  - rewrite perform_handleCardScanned. unfold isOpen in *.
    destruct (_state g) eqn:Hst; cbn [is_waiting_card fst snd lastAngle];
      try (rewrite Hst; exact HJ).
    destruct (authorized && negb full), (_eventCallback g); cbn;
      try exact HJ; reflexivity.
  - reflexivity.
  - cbn. reflexivity.
  - unfold isOpen in *. destruct g. cbn in *. exact HJ.
Qed.

Lemma performAll_isOpen_servo cs :
  forall g a,
    Forall (fun c => fst c <> CallCloseGate) cs ->
    isOpen g = (a =? SERVO_OPEN_ANGLE) ->
    isOpen (fst (performAll g cs))
    = (lastAngle a (snd (performAll g cs)) =? SERVO_OPEN_ANGLE).
Proof.
  induction cs as [|[c b] rest IH]; intros g a Hall HJ; [exact HJ|].
  apply Forall_cons in Hall as [Hc Hrest]. cbn [fst] in Hc.
  cbn [performAll].
  pose proof (perform_isOpen_servo g c b a Hc HJ) as H1.
  destruct (perform g (c, b)) as [g1 log1]. cbn [fst snd] in H1.
  pose proof (IH g1 (lastAngle a log1) Hrest H1) as H2.
  destruct (performAll g1 rest) as [g2 log2]. cbn [fst snd] in *.
  rewrite lastAngle_app. exact H2.
Qed.

(** X16: after [begin()], through any sequence of public calls that
    does not contain a bare [closeGate()], [isOpen()] is true exactly
    when the last angle written to the servo is the open angle. *)
Theorem isOpen_matches_servo (g0 : GateController) (b0 : Board)
    (cs : list (Call * Board)) :
  Forall (fun c => fst c <> CallCloseGate) cs ->
  isOpen (fst (performAll g0 ((CallBegin, b0) :: cs)))
  = (lastAngle SERVO_CLOSED_ANGLE
               (snd (performAll g0 ((CallBegin, b0) :: cs)))
     =? SERVO_OPEN_ANGLE).
Proof.
  intros Hall. cbn [performAll].
  assert (Hb : perform g0 (CallBegin, b0)
               = (mkGate STATE_IDLE (_lastScannedCard g0) (clock b0)
                         (_eventCallback g0) (_vehicleWasDetected g0) true,
                  [ServoWrite SERVO_CLOSED_ANGLE]))
    by (destruct g0, b0; reflexivity).
  rewrite Hb.
  pose proof (performAll_isOpen_servo cs
                (mkGate STATE_IDLE (_lastScannedCard g0) (clock b0)
                        (_eventCallback g0) (_vehicleWasDetected g0) true)
                SERVO_CLOSED_ANGLE Hall eq_refl) as H.
  destruct (performAll _ cs) as [g2 log2]. exact H.
Qed.

(** A grant, a manual opening during the closing delay, and a reset. *)
Lemma isOpen_matches_servo_witness :
  let cs := [(CallSetEventCallback true, mkBoard 10 HIGH);
             (CallUpdate, mkBoard 1000 LOW);
             (CallHandleCardScanned "0A1B2C3D" true 3 false,
              mkBoard 4000 LOW);
             (CallUpdate, mkBoard 9000 HIGH);
             (CallOpenGate 0, mkBoard 9500 HIGH);
             (CallReset, mkBoard 9900 HIGH)] in
  isOpen (fst (performAll new ((CallBegin, mkBoard 0 HIGH) :: cs)))
  = (lastAngle SERVO_CLOSED_ANGLE
               (snd (performAll new ((CallBegin, mkBoard 0 HIGH) :: cs)))
     =? SERVO_OPEN_ANGLE).
Proof.
  intros cs.
  apply (isOpen_matches_servo new (mkBoard 0 HIGH) cs).
  repeat constructor; discriminate.
Defined.

(** *** A vehicle that arrives during the closing delay *)

(** From the closing delay on, under a steady "present" reading: the
    gate is in the closing delay or idle, and nothing reaches the
    callback. *)
Lemma ticks_closing_delay_present (bs : list Board) :
  forall g,
    _initialized g = true ->
    _state g = STATE_CLOSING_DELAY
    \/ (_state g = STATE_IDLE /\ _vehicleWasDetected g = true) ->
    Forall (fun b => detects (irPin b) = true) bs ->
    (_state (fst (ticks g bs)) = STATE_CLOSING_DELAY
     \/ _state (fst (ticks g bs)) = STATE_IDLE)
    /\ events (snd (ticks g bs)) = []
    /\ (bs <> [] -> _vehicleWasDetected (fst (ticks g bs)) = true).
Proof.
  induction bs as [|b rest IH]; intros g Hinit Hst Hall.
  - cbn. split; [|split; [reflexivity | congruence]].
    destruct Hst as [H | [H _]]; [left | right]; exact H.
  - apply Forall_cons in Hall as [Hb Hrest]. cbn [ticks].
    assert (Hstep : exists g1 log1,
              tick g b = (g1, log1) /\ events log1 = []
              /\ _initialized g1 = true
              /\ _vehicleWasDetected g1 = true
              /\ (_state g1 = STATE_CLOSING_DELAY
                  \/ _state g1 = STATE_IDLE)).
    { destruct Hst as [Hcl | [Hid Hwas]].
      - rewrite (tick_closing_delay g b Hinit Hcl), Hb.
        destruct (ulong (clock b - _stateStartTime g) >=? GATE_CLOSE_DELAY);
          eexists _, _; (split; [reflexivity|]); cbn;
          repeat split; auto.
      - rewrite (tick_idle g b Hinit Hid), Hb, Hwas. cbn [andb negb].
        eexists _, _. split; [reflexivity|]. cbn. repeat split; auto. }
    destruct Hstep as (g1 & log1 & -> & Hev & Hinit1 & Hwas1 & Hst1).
    destruct (IH g1 Hinit1) as (Hs & He & _); [|exact Hrest|].
    { destruct Hst1 as [H|H]; [left; exact H | right; split; assumption]. }
    destruct (ticks g1 rest) as [g2 log2] eqn:Hr. cbn [fst snd] in *.
    split; [exact Hs|]. split.
    + unfold events in *. rewrite omap_app, Hev, He. reflexivity.
    + intros _. destruct rest as [|b' rest'].
      * cbn in Hr. injection Hr as <- _. exact Hwas1.
      * destruct (IH g1 Hinit1) as (_ & _ & Hw); [|exact Hrest|].
        { destruct Hst1 as [H|H]; [left; exact H | right; split; assumption]. }
        rewrite Hr in Hw. apply Hw. discriminate.
Qed.

(** X17: a vehicle that stands in front of the sensor from the closing
    delay on is never announced: whatever the times of the ticks, no
    event reaches the callback, and the gate enters neither
    [STATE_WAITING_CARD] nor [STATE_BARRIER_OPEN] while the vehicle
    stays. *)
Theorem vehicle_during_closing_delay_not_detected (g : GateController)
    (bs : list Board) :
  _initialized g = true -> _state g = STATE_CLOSING_DELAY ->
  Forall (fun b => detects (irPin b) = true) bs ->
  events (snd (ticks g bs)) = []
  /\ _state (fst (ticks g bs)) <> STATE_WAITING_CARD
  /\ _state (fst (ticks g bs)) <> STATE_BARRIER_OPEN.
Proof.
  intros Hinit Hst Hall.
  destruct (ticks_closing_delay_present bs g Hinit (or_introl Hst) Hall)
    as ([Hs|Hs] & He & _); rewrite Hs; repeat split; congruence.
Qed.

(** The next vehicle is already there when the barrier closes, and
    waits. *)
Lemma vehicle_during_closing_delay_not_detected_witness :
  let g := mkGate STATE_CLOSING_DELAY "0A1B2C3D" 9000 true false true in
  let bs := [mkBoard 10000 LOW; mkBoard 11000 LOW; mkBoard 12000 LOW;
             mkBoard 60000 LOW] in
  events (snd (ticks g bs)) = []
  /\ _state (fst (ticks g bs)) <> STATE_WAITING_CARD
  /\ _state (fst (ticks g bs)) <> STATE_BARRIER_OPEN.
Proof.
  intros g bs.
  apply (vehicle_during_closing_delay_not_detected g bs);
    try reflexivity.
  repeat constructor.
Defined.

End GateControllerFacts.

(** ** RFIDManager *)

Module RFIDManagerFacts.
Import Config Arduino ArduinoFacts RFIDManager.

(** [findCardIndex] answers [-1] exactly when no entry of the whitelist,
    active or not, carries the UID. *)
Lemma findCardIndex_loop_spec (l : list RFIDCard) (id : string) (k : Z) :
  0 <= k ->
  (findCardIndex_loop l id k = -1 /\ forall c, c ∈ l -> uid c <> id)
  \/ (0 <= findCardIndex_loop l id k /\ exists c, c ∈ l /\ uid c = id).
Proof.
  revert k. induction l as [|h rest IH]; intros k Hk;
    cbn [findCardIndex_loop].
  - left. split; [reflexivity|]. intros c Hc. inversion Hc.
  - destruct (equals id (uid h)) eqn:Heq.
    + right. split; [exact Hk|]. exists h. split; [left|].
      symmetry. apply equals_true. exact Heq.
    + assert (Hne : uid h <> id).
      { intros E. rewrite <- E, equals_refl in Heq. discriminate. }
      destruct (IH (k + 1)) as [[Hr Hall] | [Hr (c & Hc & Hu)]]; [lia| |].
      * left. split; [exact Hr|]. intros c Hc.
        apply elem_of_cons in Hc as [-> | Hc]; [exact Hne | exact (Hall c Hc)].
      * right. split; [exact Hr|]. exists c. split; [right; exact Hc | exact Hu].
Qed.

Lemma findCardIndex_present m id :
  (exists c, c ∈ whitelist m /\ uid c = id) -> findCardIndex m id <> -1.
Proof.
  intros (c & Hc & Hu). unfold findCardIndex.
  destruct (findCardIndex_loop_spec (whitelist m) id 0) as [[_ Hall] | [Hr _]];
    [lia | exact (False_ind _ (Hall c Hc Hu)) | lia].
Qed.

Lemma findCardIndex_absent m id :
  (forall c, c ∈ whitelist m -> uid c <> id) -> findCardIndex m id = -1.
Proof.
  intros Hall. unfold findCardIndex.
  destruct (findCardIndex_loop_spec (whitelist m) id 0)
    as [[Hr _] | [_ (c & Hc & Hu)]]; [lia | exact Hr |].
  exfalso. exact (Hall c Hc Hu).
Qed.

(** C8: [addCard] returns [false] and leaves the array, the count and the
    EEPROM buffer as they were when an entry with the UID exists or the
    count has reached [MAX_RFID_CARDS]; [removeCard] does the same when no
    entry carries the UID. *)
Theorem addCard_removeCard_failure_no_mutation (m : RFIDManager)
    (e : EEPROMData) (id name : string) (level : Z) (commit : bool) :
  ((exists c, c ∈ whitelist m /\ uid c = id) ->
   addCard m e id name level commit = (false, m, e))
  /\ (_numCards m >= MAX_RFID_CARDS ->
      addCard m e id name level commit = (false, m, e))
  /\ ((forall c, c ∈ whitelist m -> uid c <> id) ->
      removeCard m e id commit = (false, m, e)).
Proof.
  split; [|split].
  - intros Hp. apply findCardIndex_present in Hp. unfold addCard.
    apply Z.eqb_neq in Hp. rewrite Hp. reflexivity.
  - intros Hfull. unfold addCard.
    destruct (negb (findCardIndex m id =? -1)); [reflexivity|].
    apply Z.ge_le, Z.geb_le in Hfull. rewrite Hfull. reflexivity.
  - intros Ha. apply findCardIndex_absent in Ha. unfold removeCard.
    rewrite Ha. reflexivity.
Qed.

(** The default whitelist: a UID that is there, and one that is not; and
    a whitelist whose count is [MAX_RFID_CARDS]. *)
Lemma addCard_removeCard_failure_no_mutation_witness :
  let m := mkRFID (defaultCards ++ replicate 45 inhabitant) 5 true in
  let full := mkRFID (replicate 50 (mkCard "1A2B3C4D" true 0 "User1")) 50
                     true in
  let e := mkData (to_int EEPROM_MAGIC) 5 defaultCards in
  addCard m e "83DF0756" "Card1" 0 true = (false, m, e)
  /\ addCard full e "0A1B2C3D" "Admin" 1 true = (false, full, e)
  /\ removeCard m e "FFFFFFFF" true = (false, m, e).
Proof.
  intros m full e. split; [|split].
  - apply (proj1 (addCard_removeCard_failure_no_mutation m e "83DF0756"
                      "Card1" 0 true)).
    exists (mkCard "83DF0756" true ACCESS_REGULAR "Card1"). split.
    + apply (list_elem_of_lookup_2 _ 3%nat). reflexivity.
    + reflexivity.
  - apply (proj1 (proj2 (addCard_removeCard_failure_no_mutation full e
                             "0A1B2C3D" "Admin" 1 true))).
    vm_compute. discriminate.
  - apply (proj2 (proj2 (addCard_removeCard_failure_no_mutation m e
                             "FFFFFFFF" "" 0 true))).
    intros c Hc. change (c ∈ defaultCards) in Hc. unfold defaultCards in Hc.
    repeat (apply elem_of_cons in Hc as [-> | Hc]; [discriminate|]).
    inversion Hc.
Defined.

(** *** Adding and removing on the default whitelist *)

Example addCard_appends :
  let m := mkRFID (defaultCards ++ replicate 45 inhabitant) 5 true in
  let r := addCard m (mkData (to_int EEPROM_MAGIC) 5 defaultCards)
                   "CAFE0001" "Guest" ACCESS_TEMPORARY true in
  fst (fst r) = true
  /\ whitelist (snd (fst r))
     = defaultCards ++ [mkCard "CAFE0001" true ACCESS_TEMPORARY "Guest"]
  /\ snd r = mkData (to_int EEPROM_MAGIC) 6 (whitelist (snd (fst r))).
Proof. repeat split. Qed.

Example removeCard_compacts :
  let m := mkRFID (defaultCards ++ replicate 45 inhabitant) 5 true in
  let r := removeCard m (mkData (to_int EEPROM_MAGIC) 5 defaultCards)
                      "1A2B3C4D" true in
  fst (fst r) = true
  /\ map uid (whitelist (snd (fst r)))
     = ["0A1B2C3D"; "2A3B4C5D"; "83DF0756"; "739E3F13"]
  /\ getCardCount (snd (fst r)) = 4.
Proof. repeat split. Qed.

(** *** Inactive cards *)

Lemma isAuthorized_loop_inactive (l : list RFIDCard) (id : string) (lvl : Z) :
  (forall c, c ∈ l -> uid c = id -> isActive c = false) ->
  isAuthorized_loop l id lvl = (false, lvl).
Proof.
  induction l as [|h rest IH]; intros Hall; [reflexivity|].
  cbn [isAuthorized_loop].
  destruct (equals id (uid h)) eqn:Heq; cbn [andb].
  - apply equals_true in Heq. rewrite (Hall h); [|left|congruence].
    apply IH. intros c Hc. apply Hall. right. exact Hc.
  - apply IH. intros c Hc. apply Hall. right. exact Hc.
Qed.

Lemma unique_uid_same_card (l : list RFIDCard) c c' :
  NoDup (map uid l) -> c ∈ l -> c' ∈ l -> uid c = uid c' -> c = c'.
Proof.
  induction l as [|h rest IH]; intros Hnd Hc Hc' Hu; [inversion Hc|].
  cbn [map] in Hnd. apply NoDup_cons in Hnd as [Hh Hnd].
  assert (Hin : forall x, x ∈ rest -> uid x ∈ map uid rest).
  { intros x Hx. change (map uid rest) with (uid <$> rest).
    apply list_elem_of_fmap_2. exact Hx. }
  apply elem_of_cons in Hc as [-> | Hc];
    apply elem_of_cons in Hc' as [-> | Hc'].
  - reflexivity.
  - exfalso. apply Hh. rewrite Hu. apply Hin. exact Hc'.
  - exfalso. apply Hh. rewrite <- Hu. apply Hin. exact Hc.
  - apply IH; assumption.
Qed.

(** C10: an entry with UID [id] whose [isActive] flag is false makes
    [addCard] for [id] fail with nothing changed; and with unique UIDs in
    the whitelist, [isAuthorized] answers [false] for that same [id] (the
    caller's access level is not written). *)
Theorem inactive_card_blocks_registration (m : RFIDManager) (e : EEPROMData)
    (id name : string) (level : Z) (commit : bool) (c : RFIDCard) :
  c ∈ whitelist m -> uid c = id -> isActive c = false ->
  addCard m e id name level commit = (false, m, e)
  /\ (unique_uids m -> forall lvl, isAuthorized m id lvl = (false, lvl)).
Proof.
  intros Hc Hu Ha. split.
  - assert (Hp : findCardIndex m id <> -1)
      by (apply findCardIndex_present; exists c; split; assumption).
    unfold addCard. apply Z.eqb_neq in Hp. rewrite Hp. reflexivity.
  - intros Huniq lvl. unfold isAuthorized.
    apply isAuthorized_loop_inactive. intros c' Hc' Hu'.
    rewrite <- (unique_uid_same_card (whitelist m) c c' Huniq Hc Hc');
      [exact Ha | congruence].
Qed.

(** A whitelist loaded with the card "1A2B3C4D" deactivated. *)
Lemma inactive_card_blocks_registration_witness :
  let m := mkRFID [mkCard "0A1B2C3D" true 1 "Admin";
                   mkCard "1A2B3C4D" false 0 "User1"] 2 true in
  let e := mkData (to_int EEPROM_MAGIC) 2 (whitelist m) in
  addCard m e "1A2B3C4D" "User1" 0 true = (false, m, e)
  /\ isAuthorized m "1A2B3C4D" 7 = (false, 7).
Proof.
  intros m e.
  assert (Hc : mkCard "1A2B3C4D" false 0 "User1" ∈ whitelist m)
    by (apply (list_elem_of_lookup_2 _ 1%nat); reflexivity).
  split.
  - apply (inactive_card_blocks_registration m e "1A2B3C4D" "User1" 0 true
             (mkCard "1A2B3C4D" false 0 "User1") Hc); reflexivity.
  - apply (inactive_card_blocks_registration m e "1A2B3C4D" "User1" 0 true
             (mkCard "1A2B3C4D" false 0 "User1") Hc); try reflexivity.
    unfold unique_uids. change (map uid (whitelist m))
      with ["0A1B2C3D"; "1A2B3C4D"].
    apply NoDup_cons. split.
    + intros Hin. apply elem_of_cons in Hin as [Hin | Hin];
        [discriminate | inversion Hin].
    + apply NoDup_cons. split; [intros Hin; inversion Hin | constructor].
Defined.

(** *** Startup *)

Lemma snapshot_valid_iff (data : EEPROMData) :
  snapshot_valid data = true
  <-> to_uint (magic data) = EEPROM_MAGIC
      /\ 0 <= numCards data <= MAX_RFID_CARDS.
Proof.
  unfold snapshot_valid.
  rewrite !andb_true_iff, Z.eqb_eq, Z.geb_le, Z.leb_le. tauto.
Qed.

(** The tag that [saveToEEPROM] writes passes the tag test. *)
Lemma saved_magic_recognised : to_uint (to_int EEPROM_MAGIC) = EEPROM_MAGIC.
Proof. reflexivity. Qed.

(** A snapshot with the right tag and a count of 51 fails the check of
    [loadFromEEPROM], and the whitelist after [begin()] is empty: it is
    not the default set, and the first default card is not authorised. *)
Lemma begin_count_out_of_range_not_reseeded :
  let e := mkData (to_int EEPROM_MAGIC) 51 [] in
  let r := begin (new (replicate 50 inhabitant)) e true in
  snapshot_valid e = false
  /\ fst (fst r) = false
  /\ whitelist (snd (fst r)) = []
  /\ whitelist (snd (fst r)) <> defaultCards
  /\ getCardCount (snd (fst r)) <> DEFAULT_CARD_COUNT
  /\ fst (isAuthorized (snd (fst r)) "0A1B2C3D" 0) = false.
Proof.
  cbn zeta. repeat split; try reflexivity; vm_compute; discriminate.
Qed.

(** C7, as the code has it: [loadFromEEPROM] accepts a snapshot exactly
    when the tag is [EEPROM_MAGIC] and the count lies in
    [0, MAX_RFID_CARDS]. At startup a snapshot with a bad tag is replaced
    by the five default cards, which are then loaded. A snapshot with the
    right tag and a count out of range is rejected: [begin()] returns
    [false] and array, count and EEPROM buffer stay as they were. *)
Theorem begin_reseeds_on_bad_tag (m : RFIDManager) (e : EEPROMData)
    (commit : bool) :
  array_ok m ->
  (fst (loadFromEEPROM m e) = true
   <-> to_uint (magic e) = EEPROM_MAGIC
       /\ 0 <= numCards e <= MAX_RFID_CARDS)
  /\ (to_uint (magic e) <> EEPROM_MAGIC ->
      exists m',
        begin m e commit
        = (true, m', mkData (to_int EEPROM_MAGIC) DEFAULT_CARD_COUNT
                            defaultCards)
        /\ whitelist m' = defaultCards
        /\ getCardCount m' = DEFAULT_CARD_COUNT
        /\ _initialized m' = true)
  /\ (to_uint (magic e) = EEPROM_MAGIC ->
      numCards e < 0 \/ MAX_RFID_CARDS < numCards e ->
      begin m e commit
      = (false, mkRFID (_authorizedCards m) (_numCards m) true, e)).
Proof.
  intros Hlen. split; [|split].
  - rewrite <- snapshot_valid_iff. unfold loadFromEEPROM.
    destruct (snapshot_valid e); cbn [fst]; split; congruence.
  - intros Hbad. apply Z.eqb_neq in Hbad.
    unfold begin, initializeEEPROM. rewrite Hbad. cbn [negb].
    unfold array_ok in Hlen. destruct m as [a n init]. cbn [_authorizedCards] in Hlen.
    destruct a as [|c0 [|c1 [|c2 [|c3 [|c4 rest]]]]]; try discriminate Hlen.
    eexists. split; [reflexivity|]. repeat split.
  - intros Hgood Hrange. unfold begin, initializeEEPROM.
    apply Z.eqb_eq in Hgood. rewrite Hgood. cbn [negb].
    unfold loadFromEEPROM, snapshot_valid. rewrite Hgood. cbn [andb].
    replace ((numCards e >=? 0) && (numCards e <=? MAX_RFID_CARDS))
      with false; [reflexivity|].
    symmetry. apply andb_false_iff.
    destruct Hrange as [Hneg | Hbig]; [left | right].
    + destruct (Z.geb_spec (numCards e) 0); [lia | reflexivity].
    + apply Z.leb_gt. exact Hbig.
Qed.

(** A blank EEPROM (all bytes [0xFF]: tag and count read [-1]), and one
    with the right tag and a count of 51. *)
Lemma begin_reseeds_on_bad_tag_witness :
  let m := new (replicate 50 inhabitant) in
  let blank := mkData (-1) (-1) (replicate 50 inhabitant) in
  let corrupt := mkData (to_int EEPROM_MAGIC) 51 (replicate 50 inhabitant) in
  (exists m',
     begin m blank true
     = (true, m', mkData (to_int EEPROM_MAGIC) DEFAULT_CARD_COUNT defaultCards)
     /\ whitelist m' = defaultCards
     /\ getCardCount m' = DEFAULT_CARD_COUNT
     /\ _initialized m' = true)
  /\ begin m corrupt true
     = (false, mkRFID (_authorizedCards m) (_numCards m) true, corrupt).
Proof.
  intros m blank corrupt. split.
  - apply (begin_reseeds_on_bad_tag m blank true).
    + reflexivity.
    + vm_compute. discriminate.
  - apply (begin_reseeds_on_bad_tag m corrupt true).
    + reflexivity.
    + reflexivity.
    + right. reflexivity.
Defined.

(** *** The copy and shift loops *)

Lemma copy_loop_length src dst i count :
  length (copy_loop src dst i count) = length dst.
Proof.
  revert dst i. induction count as [|k IH]; intros dst i; [reflexivity|].
  cbn [copy_loop]. rewrite IH, length_insert. reflexivity.
Qed.

Lemma copy_loop_lookup src dst (i count j : nat) :
  copy_loop src dst i count !! j
  = if decide (i <= j < i + count /\ j < length dst)%nat
    then Some (src !!! j) else dst !! j.
Proof.
  revert dst i. induction count as [|k IH]; intros dst i.
  - cbn [copy_loop]. destruct (decide _) as [H|_]; [lia|reflexivity].
  - cbn [copy_loop]. rewrite IH, length_insert.
    destruct (decide (S i <= j < S i + k /\ j < length dst)%nat) as [H|H].
    + destruct (decide _) as [_|H']; [reflexivity | lia].
    + destruct (decide (i = j)) as [->|Hij].
      * destruct (decide (j < length dst)%nat) as [Hl|Hl].
        -- rewrite list_lookup_insert_eq by exact Hl.
           destruct (decide _) as [_|H']; [reflexivity | lia].
        -- rewrite list_insert_ge by lia.
           destruct (decide _) as [H'|_]; [lia | reflexivity].
      * rewrite list_lookup_insert_ne by exact Hij.
        destruct (decide _) as [H'|_]; [lia | reflexivity].
Qed.

(** Copying [n] entries and looking at the first [n]. *)
Lemma take_copy_loop src dst (n : nat) :
  (n <= length src)%nat -> (n <= length dst)%nat ->
  take n (copy_loop src dst 0 n) = take n src.
Proof.
  intros Hs Hd. apply list_eq. intros j.
  destruct (decide (j < n)%nat) as [Hj|Hj].
  - rewrite !lookup_take_lt by exact Hj. rewrite copy_loop_lookup.
    destruct (decide _) as [_|H]; [|lia].
    symmetry. apply list_lookup_lookup_total_lt. lia.
  - rewrite !lookup_take_ge by lia. reflexivity.
Qed.

Lemma shift_loop_length a i count :
  length (shift_loop a i count) = length a.
Proof.
  revert a i. induction count as [|k IH]; intros a i; [reflexivity|].
  cbn [shift_loop]. rewrite IH, length_insert. reflexivity.
Qed.

(** The shift loop moves entries [i+1 .. i+count] one place down. *)
Lemma shift_loop_lookup a (i count j : nat) :
  (i + count < length a)%nat ->
  shift_loop a i count !! j
  = if decide (i <= j < i + count)%nat then a !! S j else a !! j.
Proof.
  revert a i. induction count as [|k IH]; intros a i Hlen.
  - cbn [shift_loop]. destruct (decide _) as [H|_]; [lia|reflexivity].
  - cbn [shift_loop]. rewrite IH by (rewrite length_insert; lia).
    destruct (decide (S i <= j < S i + k)%nat) as [H|H].
    + rewrite list_lookup_insert_ne by lia.
      destruct (decide _) as [_|H']; [reflexivity | lia].
    + destruct (decide (i = j)) as [->|Hij].
      * rewrite list_lookup_insert_eq by lia.
        destruct (decide _) as [_|H']; [|lia].
        symmetry. apply list_lookup_lookup_total_lt. lia.
      * rewrite list_lookup_insert_ne by exact Hij.
        destruct (decide _) as [H'|_]; [lia | reflexivity].
Qed.

(** Shifting over the tail of the first [n] entries deletes entry [i]
    from them. *)
Lemma take_shift_loop a (i n : nat) :
  (i < n)%nat -> (n <= length a)%nat ->
  take (n - 1) (shift_loop a i (n - 1 - i)) = delete i (take n a).
Proof.
  intros Hi Hn. apply list_eq. intros j.
  destruct (decide (j < n - 1)%nat) as [Hj|Hj].
  - rewrite lookup_take_lt by exact Hj.
    rewrite shift_loop_lookup by lia.
    destruct (decide (i <= j < i + (n - 1 - i))%nat) as [H|H].
    + rewrite list_lookup_delete_ge by lia.
      rewrite lookup_take_lt by lia. reflexivity.
    + rewrite list_lookup_delete_lt by lia.
      rewrite lookup_take_lt by lia. reflexivity.
  - rewrite lookup_take_ge by lia. symmetry.
    apply lookup_ge_None. rewrite length_delete.
    + rewrite length_take_le by exact Hn. lia.
    + apply lookup_lt_is_Some. rewrite length_take_le by exact Hn. lia.
Qed.

(** *** Searching the whitelist *)

(** [findCardIndex] answers the index of the first entry with the
    UID. *)
Lemma findCardIndex_loop_first (l : list RFIDCard) (id : string) (k : Z) :
  (findCardIndex_loop l id k = -1 -> False) ->
  exists (i : nat) c,
    findCardIndex_loop l id k = k + Z.of_nat i
    /\ l !! i = Some c /\ uid c = id
    /\ forall (j : nat) c', (j < i)%nat -> l !! j = Some c' -> uid c' <> id.
Proof.
  revert k. induction l as [|h rest IH]; intros k Hne;
    cbn [findCardIndex_loop] in *.
  - exfalso. apply Hne. reflexivity.
  - destruct (equals id (uid h)) eqn:Heq.
    + exists 0%nat, h. repeat split; [lia | |intros j c' Hj; lia].
      symmetry. apply equals_true. exact Heq.
    + destruct (IH (k + 1) Hne) as (i & c & Hr & Hi & Hu & Hlt).
      exists (S i), c. repeat split; try assumption; [rewrite Hr; lia|].
      intros [|j] c' Hj Hl.
      * injection Hl as <-. intros E. rewrite <- E, equals_refl in Heq.
        discriminate.
      * apply (Hlt j); [lia | exact Hl].
Qed.

Lemma findCardIndex_first m id :
  findCardIndex m id <> -1 ->
  exists (i : nat) c,
    findCardIndex m id = Z.of_nat i
    /\ whitelist m !! i = Some c /\ uid c = id
    /\ forall (j : nat) c', (j < i)%nat -> whitelist m !! j = Some c' ->
                            uid c' <> id.
Proof.
  intros Hne. unfold findCardIndex in *.
  destruct (findCardIndex_loop_first (whitelist m) id 0 Hne)
    as (i & c & Hr & H).
  exists i, c. split; [rewrite Hr; lia | exact H].
Qed.

Lemma findCardIndex_absent_inv m id :
  findCardIndex m id = -1 -> forall c, c ∈ whitelist m -> uid c <> id.
Proof.
  intros Hr. unfold findCardIndex in Hr.
  destruct (findCardIndex_loop_spec (whitelist m) id 0)
    as [[_ Hall] | [Hpos _]]; [lia | exact Hall | lia].
Qed.

(** [isAuthorized]: the first entry that carries the UID and is active
    decides. *)
Lemma isAuthorized_loop_spec (l : list RFIDCard) (id : string) (lvl : Z) :
  (isAuthorized_loop l id lvl = (false, lvl)
   /\ forall c, c ∈ l -> uid c = id -> isActive c = false)
  \/ (exists (i : nat) c,
        l !! i = Some c /\ uid c = id /\ isActive c = true
        /\ isAuthorized_loop l id lvl = (true, accessLevel c)
        /\ forall (j : nat) c', (j < i)%nat -> l !! j = Some c' ->
                                uid c' = id -> isActive c' = false).
Proof.
  induction l as [|h rest IH]; cbn [isAuthorized_loop].
  - left. split; [reflexivity|]. intros c Hc. inversion Hc.
  - destruct (equals id (uid h) && isActive h) eqn:Hm.
    + apply andb_true_iff in Hm as [He Ha]. apply equals_true in He.
      right. exists 0%nat, h. repeat split; try congruence.
      intros j c' Hj. lia.
    + assert (Hh : uid h = id -> isActive h = false).
      { intros E. rewrite <- E, equals_refl in Hm. exact Hm. }
      destruct IH as [[Hr Hall] | (i & c & Hi & Hu & Ha & Hr & Hlt)].
      * left. split; [exact Hr|]. intros c Hc Hu.
        apply elem_of_cons in Hc as [-> | Hc]; [exact (Hh Hu)|].
        exact (Hall c Hc Hu).
      * right. exists (S i), c. repeat split; try assumption.
        intros [|j] c' Hj Hl Hu'.
        -- injection Hl as <-. exact (Hh Hu').
        -- apply (Hlt j); [lia | exact Hl | exact Hu'].
Qed.

(** X18: [isAuthorized] answers [true] exactly when some entry among the
    first [_numCards] carries the UID and is active; the level written
    to the caller is then the level of the first such entry, and with
    unique UIDs the level of the only entry with that UID. When the
    answer is [false] the caller's level is not written. *)
Theorem isAuthorized_iff_active_entry (m : RFIDManager) (id : string)
    (lvl : Z) :
  (fst (isAuthorized m id lvl) = true
   <-> exists c, c ∈ whitelist m /\ uid c = id /\ isActive c = true)
  /\ (fst (isAuthorized m id lvl) = false ->
      snd (isAuthorized m id lvl) = lvl)
  /\ (unique_uids m ->
      forall c, c ∈ whitelist m -> uid c = id -> isActive c = true ->
                isAuthorized m id lvl = (true, accessLevel c)).
Proof.
  unfold isAuthorized.
  destruct (isAuthorized_loop_spec (whitelist m) id lvl)
    as [[Hr Hall] | (i & c & Hi & Hu & Ha & Hr & Hlt)]; rewrite Hr;
    cbn [fst snd].
  - split; [|split].
    + split; [discriminate|]. intros (c & Hc & Hu & Ha).
      rewrite (Hall c Hc Hu) in Ha. discriminate.
    + reflexivity.
    + intros _ c Hc Hu Ha. rewrite (Hall c Hc Hu) in Ha. discriminate.
  - split; [|split].
    + split; [|reflexivity]. intros _. exists c.
      split; [exact (list_elem_of_lookup_2 _ _ _ Hi) | split; assumption].
    + discriminate.
    + intros Huniq c' Hc' Hu' _.
      rewrite (unique_uid_same_card (whitelist m) c' c Huniq Hc'
                 (list_elem_of_lookup_2 _ _ _ Hi)) by congruence.
      reflexivity.
Qed.

(** The default whitelist with "User1" deactivated. *)
Lemma isAuthorized_iff_active_entry_witness :
  let m := mkRFID [mkCard "0A1B2C3D" true 1 "Admin";
                   mkCard "1A2B3C4D" false 0 "User1"] 2 true in
  snd (isAuthorized m "1A2B3C4D" 7) = 7
  /\ isAuthorized m "0A1B2C3D" 7 = (true, 1).
Proof.
  intros m. split.
  - apply (isAuthorized_iff_active_entry m "1A2B3C4D" 7). reflexivity.
  - apply (proj2 (proj2 (isAuthorized_iff_active_entry m "0A1B2C3D" 7))
             ltac:(unfold unique_uids;
                   change (map uid (whitelist m))
                     with ["0A1B2C3D"; "1A2B3C4D"];
                   apply NoDup_cons; split;
                   [intros Hin; apply elem_of_cons in Hin as [Hin | Hin];
                    [discriminate | inversion Hin]
                   |apply NoDup_cons; split;
                    [intros Hin; inversion Hin | constructor]])
             (mkCard "0A1B2C3D" true 1 "Admin")).
    + apply (list_elem_of_lookup_2 _ 0%nat). reflexivity.
    + reflexivity.
    + reflexivity.
Defined.

(** *** What a successful mutation does to array and snapshot *)

Lemma whitelist_length m :
  array_ok m -> count_ok m ->
  length (whitelist m) = Z.to_nat (_numCards m).
Proof.
  intros Ha [H0 Hm]. unfold whitelist, array_ok in *.
  apply length_take_le. rewrite Ha. lia.
Qed.

Lemma saved_in_sync m commit :
  in_sync m (snd (saveToEEPROM m commit)).
Proof.
  unfold in_sync, saveToEEPROM, whitelist. cbn [snd magic numCards cards].
  repeat split. rewrite take_take, Nat.min_id. reflexivity.
Qed.

Lemma addCard_whitelist m e id name level commit :
  array_ok m -> 0 <= _numCards m < MAX_RFID_CARDS ->
  findCardIndex m id = -1 ->
  exists m',
    addCard m e id name level commit
    = (commit, m', snd (saveToEEPROM m' commit))
    /\ whitelist m'
       = whitelist m
         ++ [mkCard (toCharArray id 20) true level (toCharArray name 32)]
    /\ _numCards m' = _numCards m + 1
    /\ array_ok m'.
Proof.
  intros Ha Hn Habs. unfold addCard. rewrite Habs. cbn [Z.eqb negb].
  replace (_numCards m >=? MAX_RFID_CARDS) with false
    by (symmetry; destruct (Z.geb_spec (_numCards m) MAX_RFID_CARDS);
        [lia | reflexivity]).
  eexists. split; [reflexivity|]. split; [|split].
  - unfold whitelist. cbn [_authorizedCards _numCards].
    replace (Z.to_nat (_numCards m + 1)) with (S (Z.to_nat (_numCards m)))
      by lia.
    erewrite take_S_r.
    + rewrite take_insert_ge by lia. reflexivity.
    + apply list_lookup_insert_eq. unfold array_ok in Ha. rewrite Ha.
      unfold MAX_RFID_CARDS in *. lia.
  - reflexivity.
  - unfold array_ok. cbn [_authorizedCards]. rewrite length_insert.
    exact Ha.
Qed.

Lemma removeCard_whitelist m e id commit (i : nat) c :
  array_ok m -> count_ok m ->
  findCardIndex m id = Z.of_nat i -> whitelist m !! i = Some c ->
  exists m',
    removeCard m e id commit = (commit, m', snd (saveToEEPROM m' commit))
    /\ whitelist m' = delete i (whitelist m)
    /\ _numCards m' = _numCards m - 1
    /\ array_ok m' /\ count_ok m'.
Proof.
  intros Ha Hcnt Hr Hi.
  pose proof (whitelist_length m Ha Hcnt) as Hlen.
  assert (Hin : (i < Z.to_nat (_numCards m))%nat)
    by (rewrite <- Hlen; apply lookup_lt_Some in Hi; exact Hi).
  unfold removeCard. rewrite Hr.
  replace (Z.of_nat i =? -1) with false by (symmetry; apply Z.eqb_neq; lia).
  rewrite Nat2Z.id. eexists. split; [reflexivity|].
  split; [|split; [reflexivity | split]].
  - unfold whitelist. cbn [_authorizedCards _numCards].
    replace (Z.to_nat (_numCards m - 1)) with (Z.to_nat (_numCards m) - 1)%nat
      by lia.
    replace (Z.to_nat (_numCards m - 1 - Z.of_nat i))
      with (Z.to_nat (_numCards m) - 1 - i)%nat by lia.
    apply take_shift_loop; [exact Hin|].
    unfold array_ok in Ha. rewrite Ha. destruct Hcnt. lia.
  - unfold array_ok. cbn [_authorizedCards]. rewrite shift_loop_length.
    exact Ha.
  - unfold count_ok in *. cbn [_numCards]. lia.
Qed.

Lemma updateCard_whitelist m e id name level commit (i : nat) c :
  array_ok m -> count_ok m ->
  findCardIndex m id = Z.of_nat i -> whitelist m !! i = Some c ->
  exists m',
    updateCard m e id name level commit
    = (commit, m', snd (saveToEEPROM m' commit))
    /\ whitelist m'
       = <[i := mkCard (uid c) (isActive c)
                       (if level >=? 0 then level else accessLevel c)
                       (match name with
                        | Some n => toCharArray n 32
                        | None => ownerName c
                        end)]> (whitelist m)
    /\ _numCards m' = _numCards m
    /\ array_ok m'.
Proof.
  intros Ha Hcnt Hr Hi.
  pose proof (whitelist_length m Ha Hcnt) as Hlen.
  assert (Hin : (i < Z.to_nat (_numCards m))%nat)
    by (rewrite <- Hlen; apply lookup_lt_Some in Hi; exact Hi).
  unfold updateCard. rewrite Hr.
  replace (Z.of_nat i =? -1) with false by (symmetry; apply Z.eqb_neq; lia).
  rewrite Nat2Z.id. eexists. split; [reflexivity|].
  split; [|split; [reflexivity|]].
  - unfold whitelist. cbn [_authorizedCards _numCards].
    rewrite take_alter_lt by exact Hin.
    fold (whitelist m).
    rewrite (SlotManagerFacts.alter_as_insert _ _ _ _ Hi).
    f_equal. destruct c as [u a l o].
    destruct (level >=? 0), name; reflexivity.
  - unfold array_ok. cbn [_authorizedCards]. rewrite length_alter.
    exact Ha.
Qed.

(** *** Successful additions *)

Lemma isAuthorized_loop_app_absent (l k : list RFIDCard) id lvl :
  (forall c, c ∈ l -> uid c <> id) ->
  isAuthorized_loop (l ++ k) id lvl = isAuthorized_loop k id lvl.
Proof.
  induction l as [|h rest IH]; intros Hall; [reflexivity|].
  cbn [app isAuthorized_loop].
  destruct (equals id (uid h)) eqn:E; cbn [andb].
  - apply equals_true in E. exfalso. apply (Hall h); [left | congruence].
  - apply IH. intros c Hc. apply Hall. right. exact Hc.
Qed.

(** X19: [addCard] of a UID that no entry carries, below capacity,
    appends one active entry (UID cut to 19 characters, name to 31) and
    raises the count by one. The value returned is the answer of the
    EEPROM commit: when the commit fails the card is in the in-memory
    whitelist all the same, and the EEPROM buffer holds the new
    whitelist in either case. A UID of fewer than 20 characters is
    authorised at once, with the given level. *)
Theorem addCard_success (m : RFIDManager) (e : EEPROMData)
    (id name : string) (level : Z) (commit : bool) :
  array_ok m -> 0 <= _numCards m < MAX_RFID_CARDS ->
  (forall c, c ∈ whitelist m -> uid c <> id) ->
  exists m' e',
    addCard m e id name level commit = (commit, m', e')
    /\ whitelist m'
       = whitelist m
         ++ [mkCard (toCharArray id 20) true level (toCharArray name 32)]
    /\ getCardCount m' = getCardCount m + 1
    /\ array_ok m'
    /\ in_sync m' e'
    /\ ((String.length id < 20)%nat ->
        forall lvl, isAuthorized m' id lvl = (true, level)).
Proof.
  intros Ha Hn Habs.
  destruct (addCard_whitelist m e id name level commit Ha Hn
              (findCardIndex_absent m id Habs))
    as (m' & Hr & Hw & Hc & Ha').
  exists m', (snd (saveToEEPROM m' commit)).
  split; [exact Hr|]. split; [exact Hw|]. split; [exact Hc|].
  split; [exact Ha'|]. split; [apply saved_in_sync|].
  intros Hfit lvl. unfold isAuthorized. rewrite Hw.
  rewrite (isAuthorized_loop_app_absent _ _ _ _ Habs).
  cbn [isAuthorized_loop uid isActive accessLevel].
  rewrite (toCharArray_fits _ _ Hfit), equals_refl. reflexivity.
Qed.

(** A sixth card, added while the EEPROM commit fails. *)
Lemma addCard_success_witness :
  let m := mkRFID (defaultCards ++ replicate 45 inhabitant) 5 true in
  let e := mkData (to_int EEPROM_MAGIC) 5 defaultCards in
  exists m' e',
    addCard m e "CAFE0001" "Guest" 2 false = (false, m', e')
    /\ whitelist m'
       = whitelist m
         ++ [mkCard (toCharArray "CAFE0001" 20) true 2
                    (toCharArray "Guest" 32)]
    /\ getCardCount m' = getCardCount m + 1
    /\ array_ok m'
    /\ in_sync m' e'
    /\ ((String.length "CAFE0001" < 20)%nat ->
        forall lvl, isAuthorized m' "CAFE0001" lvl = (true, 2)).
Proof.
  intros m e.
  apply (addCard_success m e "CAFE0001" "Guest" 2 false).
  - reflexivity.
  - split; [discriminate | reflexivity].
  - intros c Hc. change (c ∈ defaultCards) in Hc. unfold defaultCards in Hc.
    repeat (apply elem_of_cons in Hc as [-> | Hc]; [discriminate|]).
    inversion Hc.
Defined.

(** *** Successful removals *)

Lemma unique_uids_lookup (l : list RFIDCard) (i j : nat) c c' :
  NoDup (map uid l) -> l !! i = Some c -> l !! j = Some c' ->
  uid c = uid c' -> i = j.
Proof.
  intros Hnd Hi Hj Hu. change (map uid l) with (uid <$> l) in Hnd.
  apply (NoDup_lookup (uid <$> l) i j (uid c) Hnd).
  - rewrite list_lookup_fmap, Hi. reflexivity.
  - rewrite list_lookup_fmap, Hj, Hu. reflexivity.
Qed.

Lemma unique_uids_delete (l : list RFIDCard) (i : nat) :
  NoDup (map uid l) -> NoDup (map uid (delete i l)).
Proof.
  intros Hnd. change (map uid l) with (uid <$> l) in Hnd.
  change (map uid (delete i l)) with (uid <$> delete i l).
  rewrite list_fmap_delete. apply (sublist_NoDup _ _ Hnd).
  apply sublist_delete.
Qed.

(** X20: [removeCard] of a UID that some entry carries removes the first
    such entry and closes the gap, keeping the order of the others; the
    count drops by one; the value returned is the answer of the EEPROM
    commit, and the EEPROM buffer holds the new whitelist. With unique
    UIDs the UID is then neither found nor authorised. *)
Theorem removeCard_success (m : RFIDManager) (e : EEPROMData)
    (id : string) (commit : bool) :
  array_ok m -> count_ok m ->
  (exists c, c ∈ whitelist m /\ uid c = id) ->
  exists (i : nat) c m' e',
    whitelist m !! i = Some c /\ uid c = id
    /\ (forall (j : nat) c', (j < i)%nat -> whitelist m !! j = Some c' ->
                             uid c' <> id)
    /\ removeCard m e id commit = (commit, m', e')
    /\ whitelist m' = delete i (whitelist m)
    /\ getCardCount m' = getCardCount m - 1
    /\ array_ok m' /\ count_ok m'
    /\ in_sync m' e'
    /\ (unique_uids m ->
        unique_uids m'
        /\ findCardIndex m' id = -1
        /\ forall lvl, isAuthorized m' id lvl = (false, lvl)).
Proof.
  intros Ha Hcnt Hp. pose proof (findCardIndex_present m id Hp) as Hne.
  destruct (findCardIndex_first m id Hne) as (i & c & Hr & Hi & Hu & Hlt).
  destruct (removeCard_whitelist m e id commit i c Ha Hcnt Hr Hi)
    as (m' & Hres & Hw & Hc & Ha' & Hcnt').
  exists i, c, m', (snd (saveToEEPROM m' commit)).
  split; [exact Hi|]. split; [exact Hu|]. split; [exact Hlt|].
  split; [exact Hres|]. split; [exact Hw|]. split; [exact Hc|].
  split; [exact Ha'|]. split; [exact Hcnt'|].
  split; [apply saved_in_sync|].
  intros Huniq. unfold unique_uids in *.
  assert (Habs : forall c', c' ∈ whitelist m' -> uid c' <> id).
  { intros c' Hc' Hu'. rewrite Hw in Hc'.
    apply list_elem_of_lookup_1 in Hc' as [j Hj].
    rewrite list_lookup_delete in Hj.
    destruct (decide (j < i)%nat) as [Hji|Hji].
    - assert (i = j)
        by (apply (unique_uids_lookup _ i j c c' Huniq Hi Hj); congruence).
      lia.
    - assert (i = S j)
        by (apply (unique_uids_lookup _ i (S j) c c' Huniq Hi Hj);
            congruence).
      lia. }
  split; [rewrite Hw; apply unique_uids_delete; exact Huniq|].
  split; [apply findCardIndex_absent; exact Habs|].
  intros lvl. unfold isAuthorized. apply isAuthorized_loop_inactive.
  intros c' Hc' Hu'. exfalso. exact (Habs c' Hc' Hu').
Qed.

(** The second default card is removed. *)
Lemma removeCard_success_witness :
  let m := mkRFID (defaultCards ++ replicate 45 inhabitant) 5 true in
  let e := mkData (to_int EEPROM_MAGIC) 5 defaultCards in
  exists (i : nat) c m' e',
    whitelist m !! i = Some c /\ uid c = "1A2B3C4D"
    /\ (forall (j : nat) c', (j < i)%nat -> whitelist m !! j = Some c' ->
                             uid c' <> "1A2B3C4D")
    /\ removeCard m e "1A2B3C4D" true = (true, m', e')
    /\ whitelist m' = delete i (whitelist m)
    /\ getCardCount m' = getCardCount m - 1
    /\ array_ok m' /\ count_ok m'
    /\ in_sync m' e'
    /\ (unique_uids m ->
        unique_uids m'
        /\ findCardIndex m' "1A2B3C4D" = -1
        /\ forall lvl, isAuthorized m' "1A2B3C4D" lvl = (false, lvl)).
Proof.
  intros m e.
  apply (removeCard_success m e "1A2B3C4D" true).
  - reflexivity.
  - split; [discriminate | discriminate].
  - exists (mkCard "1A2B3C4D" true ACCESS_REGULAR "User1"). split.
    + apply (list_elem_of_lookup_2 _ 1%nat). reflexivity.
    + reflexivity.
Defined.

(** *** Updates *)

Lemma isAuthorized_loop_insert (l : list RFIDCard) (i : nat) c c' id lvl :
  l !! i = Some c -> uid c' = uid c -> isActive c' = isActive c ->
  fst (isAuthorized_loop (<[i := c']> l) id lvl)
  = fst (isAuthorized_loop l id lvl).
Proof.
  revert i. induction l as [|h rest IH]; intros [|i] Hi Hu Ha;
    try discriminate.
  - injection Hi as ->. cbn [insert list_insert isAuthorized_loop].
    rewrite Hu, Ha.
    destruct (equals id (uid c) && isActive c); reflexivity.
  - cbn in Hi. cbn [insert list_insert isAuthorized_loop].
    destruct (equals id (uid h) && isActive h); [reflexivity|].
    apply IH; assumption.
Qed.

Lemma map_uid_insert (l : list RFIDCard) (i : nat) c c' :
  l !! i = Some c -> uid c' = uid c ->
  map uid (<[i := c']> l) = map uid l.
Proof.
  intros Hi Hu. change (map uid (<[i := c']> l)) with (uid <$> <[i := c']> l).
  change (map uid l) with (uid <$> l).
  rewrite list_fmap_insert. apply list_insert_id.
  rewrite list_lookup_fmap, Hi, Hu. reflexivity.
Qed.

(** X21: [updateCard] returns [false] and changes nothing when no entry
    carries the UID. Otherwise it rewrites the name (when one is given,
    cut to 31 characters) and the level (when not negative) of the first
    entry with the UID and of no other; UID, active flag and count stay,
    so the answer of [isAuthorized] is the same for every UID as
    before. *)
Theorem updateCard_contract (m : RFIDManager) (e : EEPROMData)
    (id : string) (name : option string) (level : Z) (commit : bool) :
  ((forall c, c ∈ whitelist m -> uid c <> id) ->
   updateCard m e id name level commit = (false, m, e))
  /\ (array_ok m -> count_ok m ->
      (exists c, c ∈ whitelist m /\ uid c = id) ->
      exists (i : nat) c m' e',
        whitelist m !! i = Some c /\ uid c = id
        /\ (forall (j : nat) c', (j < i)%nat ->
              whitelist m !! j = Some c' -> uid c' <> id)
        /\ updateCard m e id name level commit = (commit, m', e')
        /\ whitelist m'
           = <[i := mkCard (uid c) (isActive c)
                           (if level >=? 0 then level else accessLevel c)
                           (match name with
                            | Some n => toCharArray n 32
                            | None => ownerName c
                            end)]> (whitelist m)
        /\ getCardCount m' = getCardCount m
        /\ array_ok m'
        /\ in_sync m' e'
        /\ map uid (whitelist m') = map uid (whitelist m)
        /\ forall u lvl,
             fst (isAuthorized m' u lvl) = fst (isAuthorized m u lvl)).
Proof.
  split.
  - intros Habs. unfold updateCard.
    rewrite (findCardIndex_absent m id Habs). reflexivity.
  - intros Ha Hcnt Hp. pose proof (findCardIndex_present m id Hp) as Hne.
    destruct (findCardIndex_first m id Hne) as (i & c & Hr & Hi & Hu & Hlt).
    destruct (updateCard_whitelist m e id name level commit i c Ha Hcnt Hr Hi)
      as (m' & Hres & Hw & Hc & Ha').
    exists i, c, m', (snd (saveToEEPROM m' commit)).
    split; [exact Hi|]. split; [exact Hu|]. split; [exact Hlt|].
    split; [exact Hres|]. split; [exact Hw|]. split; [exact Hc|].
    split; [exact Ha'|]. split; [apply saved_in_sync|].
    split.
    + rewrite Hw. apply (map_uid_insert _ _ c); [exact Hi | reflexivity].
    + intros u lvl. unfold isAuthorized. rewrite Hw.
      apply (isAuthorized_loop_insert _ _ c); [exact Hi | | ]; reflexivity.
Qed.

(** "Card1" is promoted to administrator; the name is kept. *)
Lemma updateCard_contract_witness :
  let m := mkRFID (defaultCards ++ replicate 45 inhabitant) 5 true in
  let e := mkData (to_int EEPROM_MAGIC) 5 defaultCards in
  updateCard m e "FFFFFFFF" (Some "Nobody") 1 true = (false, m, e)
  /\ exists (i : nat) c m' e',
       whitelist m !! i = Some c /\ uid c = "83DF0756"
       /\ (forall (j : nat) c', (j < i)%nat ->
             whitelist m !! j = Some c' -> uid c' <> "83DF0756")
       /\ updateCard m e "83DF0756" None 1 true = (true, m', e')
       /\ whitelist m'
          = <[i := mkCard (uid c) (isActive c)
                          (if 1 >=? 0 then 1 else accessLevel c)
                          (ownerName c)]> (whitelist m)
       /\ getCardCount m' = getCardCount m
       /\ array_ok m'
       /\ in_sync m' e'
       /\ map uid (whitelist m') = map uid (whitelist m)
       /\ forall u lvl,
            fst (isAuthorized m' u lvl) = fst (isAuthorized m u lvl).
Proof.
  intros m e. split.
  - apply (proj1 (updateCard_contract m e "FFFFFFFF" (Some "Nobody") 1 true)).
    intros c Hc. change (c ∈ defaultCards) in Hc. unfold defaultCards in Hc.
    repeat (apply elem_of_cons in Hc as [-> | Hc]; [discriminate|]).
    inversion Hc.
  - apply (proj2 (updateCard_contract m e "83DF0756" None 1 true)).
    + reflexivity.
    + split; discriminate.
    + exists (mkCard "83DF0756" true ACCESS_REGULAR "Card1"). split.
      * apply (list_elem_of_lookup_2 _ 3%nat). reflexivity.
      * reflexivity.
Defined.

(** *** Invariants of the whitelist and its snapshot *)

Lemma defaultCards_unique : NoDup (map uid defaultCards).
Proof.
  cbn. repeat (apply NoDup_cons; split;
    [intros Hin; repeat (apply elem_of_cons in Hin as [Hin|Hin];
                         [discriminate|]); inversion Hin|]).
  constructor.
Qed.

Lemma resetToDefaults_whitelist m commit :
  array_ok m ->
  whitelist (fst (resetToDefaults m commit)) = defaultCards
  /\ whitelist_ok (fst (resetToDefaults m commit))
  /\ in_sync (fst (resetToDefaults m commit))
             (snd (resetToDefaults m commit)).
Proof.
  intros Ha. unfold resetToDefaults. cbn [fst snd].
  set (m' := mkRFID (copy_loop defaultCards (_authorizedCards m) 0 5)
                    DEFAULT_CARD_COUNT (_initialized m)).
  assert (Hw : whitelist m' = defaultCards).
  { unfold whitelist, m'. cbn [_authorizedCards _numCards].
    change (Z.to_nat DEFAULT_CARD_COUNT) with 5%nat.
    rewrite take_copy_loop; [reflexivity | cbn; lia |].
    unfold array_ok in Ha. rewrite Ha. unfold MAX_RFID_CARDS. lia. }
  split; [exact Hw|]. split; [|apply saved_in_sync].
  split; [|split].
  - unfold array_ok, m'. cbn [_authorizedCards].
    rewrite copy_loop_length. exact Ha.
  - unfold count_ok, m'. cbn. split; discriminate.
  - unfold unique_uids. rewrite Hw. apply defaultCards_unique.
Qed.

Lemma serve_preserves (st : RFIDManager * EEPROMData) (r : Request * bool) :
  whitelist_ok (fst st) -> in_sync (fst st) (snd st) -> request_fits r ->
  whitelist_ok (fst (serve st r))
  /\ in_sync (fst (serve st r)) (snd (serve st r)).
Proof.
  destruct st as [m e], r as [req commit]. cbn [fst snd].
  intros Hok Hsync Hfit. pose proof Hok as (Ha & Hcnt & Huniq).
  unfold serve. cbn [fst snd].
  destruct req as [id name level | id | id name level | | ].
  - (* addCard *)
    destruct (Z.eq_dec (findCardIndex m id) (-1)) as [Habs|Hpres].
    + destruct (Z_lt_le_dec (_numCards m) MAX_RFID_CARDS) as [Hroom|Hfull].
      * destruct (addCard_whitelist m e id name level commit Ha
                    (conj (proj1 Hcnt) Hroom) Habs)
          as (m' & -> & Hw & Hc & Ha').
        cbn [fst snd]. split; [|exact (saved_in_sync m' commit)].
        split; [exact Ha'|]. split.
        -- unfold count_ok in *. lia.
        -- unfold unique_uids in *. rewrite Hw.
           change (map uid (whitelist m ++ [mkCard (toCharArray id 20) true
                     level (toCharArray name 32)]))
             with (uid <$> (whitelist m ++ [mkCard (toCharArray id 20) true
                     level (toCharArray name 32)])).
           rewrite fmap_app. apply NoDup_app. split; [exact Huniq|].
           split; [|apply NoDup_singleton].
           intros u Hu Hin. cbn in Hin.
           apply list_elem_of_singleton in Hin. subst u.
           change (map uid (whitelist m)) with (uid <$> whitelist m) in Hu.
           apply list_elem_of_fmap in Hu as (c & Hcu & Hc').
           cbn [request_fits fst] in Hfit.
           rewrite (toCharArray_fits _ _ Hfit) in Hcu.
           exact (findCardIndex_absent_inv m id Habs c Hc' (eq_sym Hcu)).
      * unfold addCard. rewrite Habs. cbn [Z.eqb negb].
        replace (_numCards m >=? MAX_RFID_CARDS) with true
          by (symmetry; apply Z.geb_le; lia).
        cbn [fst snd]. split; assumption.
    + unfold addCard. apply Z.eqb_neq in Hpres. rewrite Hpres.
      cbn [negb fst snd]. split; assumption.
  - (* removeCard *)
    destruct (Z.eq_dec (findCardIndex m id) (-1)) as [Habs|Hpres].
    + unfold removeCard. rewrite Habs. cbn [Z.eqb fst snd].
      split; assumption.
    + destruct (findCardIndex_first m id Hpres) as (i & c & Hr & Hi & _).
      destruct (removeCard_whitelist m e id commit i c Ha Hcnt Hr Hi)
        as (m' & -> & Hw & _ & Ha' & Hc').
      cbn [fst snd]. split; [|exact (saved_in_sync m' commit)].
      split; [exact Ha'|]. split; [exact Hc'|].
      unfold unique_uids in *. rewrite Hw. apply unique_uids_delete.
      exact Huniq.
  - (* updateCard *)
    destruct (Z.eq_dec (findCardIndex m id) (-1)) as [Habs|Hpres].
    + unfold updateCard. rewrite Habs. cbn [Z.eqb fst snd].
      split; assumption.
    + destruct (findCardIndex_first m id Hpres) as (i & c & Hr & Hi & _).
      destruct (updateCard_whitelist m e id name level commit i c Ha Hcnt
                  Hr Hi)
        as (m' & -> & Hw & Hc' & Ha').
      cbn [fst snd]. split; [|exact (saved_in_sync m' commit)].
      split; [exact Ha'|]. split.
      * unfold count_ok in *. rewrite Hc'. exact Hcnt.
      * unfold unique_uids in *. rewrite Hw.
        rewrite (map_uid_insert _ _ c); [exact Huniq | exact Hi |].
        reflexivity.
  - (* clearAllCards *)
    unfold clearAllCards. cbn [fst snd].
    split; [|exact (saved_in_sync (mkRFID (_authorizedCards m) 0
                                     (_initialized m)) commit)].
    split; [exact Ha|]. split.
    + unfold count_ok. cbn. split; [reflexivity | discriminate].
    + unfold unique_uids, whitelist. cbn. constructor.
  - (* resetToDefaults *)
    destruct (resetToDefaults_whitelist m commit Ha) as (_ & Hok' & Hs).
    split; assumption.
Qed.

Lemma serveAll_preserves (rs : list (Request * bool)) :
  forall st,
    whitelist_ok (fst st) -> in_sync (fst st) (snd st) ->
    Forall request_fits rs ->
    whitelist_ok (fst (serveAll st rs))
    /\ in_sync (fst (serveAll st rs)) (snd (serveAll st rs)).
Proof.
  unfold serveAll. induction rs as [|r rest IH]; intros st Hok Hs Hfit;
    [split; assumption|].
  apply Forall_cons in Hfit as [Hr Hrest]. cbn [foldl].
  destruct (serve_preserves st r Hok Hs Hr) as [Hok' Hs'].
  apply IH; assumption.
Qed.

(** X22: a whitelist with unique UIDs, a count within
    [0, MAX_RFID_CARDS] and a matching EEPROM snapshot keeps all three
    through any sequence of [addCard], [removeCard], [updateCard],
    [clearAllCards] and [resetToDefaults], whatever the EEPROM commits
    answer, as long as the UIDs handed to [addCard] have fewer than 20
    characters. *)
Theorem whitelist_invariants (m : RFIDManager) (e : EEPROMData)
    (rs : list (Request * bool)) :
  whitelist_ok m -> in_sync m e -> Forall request_fits rs ->
  0 <= getCardCount (fst (serveAll (m, e) rs)) <= MAX_RFID_CARDS
  /\ length (_authorizedCards (fst (serveAll (m, e) rs)))
     = Z.to_nat MAX_RFID_CARDS
  /\ unique_uids (fst (serveAll (m, e) rs))
  /\ in_sync (fst (serveAll (m, e) rs)) (snd (serveAll (m, e) rs)).
Proof.
  intros Hok Hs Hfit.
  destruct (serveAll_preserves rs (m, e) Hok Hs Hfit)
    as ((Ha & Hc & Hu) & Hs').
  split; [exact Hc|]. split; [exact Ha|]. split; [exact Hu | exact Hs'].
Qed.

(** From the factory whitelist: a card is added twice, one is removed,
    one renamed, with a failing commit in between. *)
Lemma whitelist_invariants_witness :
  let st0 := resetToDefaults (new (replicate 50 inhabitant)) true in
  let rs := [(ReqAddCard "CAFE0001" "Guest" 2, true);
             (ReqAddCard "CAFE0001" "Guest" 2, true);
             (ReqRemoveCard "1A2B3C4D", false);
             (ReqUpdateCard "83DF0756" (Some "Owner") (-1), true)] in
  0 <= getCardCount (fst (serveAll (fst st0, snd st0) rs)) <= MAX_RFID_CARDS
  /\ length (_authorizedCards (fst (serveAll (fst st0, snd st0) rs)))
     = Z.to_nat MAX_RFID_CARDS
  /\ unique_uids (fst (serveAll (fst st0, snd st0) rs))
  /\ in_sync (fst (serveAll (fst st0, snd st0) rs))
             (snd (serveAll (fst st0, snd st0) rs)).
Proof.
  intros st0 rs.
  assert (Ha : array_ok (new (replicate 50 inhabitant))) by reflexivity.
  apply (whitelist_invariants (fst st0) (snd st0) rs).
  - apply (resetToDefaults_whitelist _ true Ha).
  - apply (resetToDefaults_whitelist _ true Ha).
  - repeat constructor; cbn; lia.
Defined.

(** *** Restart *)

(** X23: restart. When the EEPROM snapshot matches a whitelist whose
    count is within bounds, [begin()] on a newly constructed manager
    leaves the snapshot alone, returns [true] and yields the same
    whitelist: the same count, and the same answer of [isAuthorized] for
    every UID. *)
Theorem restart_restores_whitelist (m : RFIDManager) (e : EEPROMData)
    (storage : list RFIDCard) (commit : bool) :
  array_ok m -> count_ok m -> in_sync m e ->
  length storage = Z.to_nat MAX_RFID_CARDS ->
  exists m2,
    begin (new storage) e commit = (true, m2, e)
    /\ whitelist m2 = whitelist m
    /\ getCardCount m2 = getCardCount m
    /\ _initialized m2 = true
    /\ forall id lvl, isAuthorized m2 id lvl = isAuthorized m id lvl.
Proof.
  intros Ha Hcnt (Hmagic & Hnum & Hcards) Hlen.
  pose proof (whitelist_length m Ha Hcnt) as Hwl.
  unfold begin, initializeEEPROM.
  apply Z.eqb_eq in Hmagic. rewrite Hmagic. cbn [negb].
  unfold loadFromEEPROM, snapshot_valid. rewrite Hmagic, Hnum.
  replace (_numCards m >=? 0) with true
    by (symmetry; apply Z.geb_le; apply Hcnt).
  replace (_numCards m <=? MAX_RFID_CARDS) with true
    by (symmetry; apply Z.leb_le; apply Hcnt).
  cbn [andb new _authorizedCards _numCards _initialized].
  eexists. split; [reflexivity|].
  assert (Hw : whitelist
                 (mkRFID (copy_loop (cards e) storage 0
                            (Z.to_nat (_numCards m)))
                         (_numCards m) true)
               = whitelist m).
  { unfold whitelist at 1. cbn [_authorizedCards _numCards].
    rewrite take_copy_loop.
    - rewrite <- Hnum. exact Hcards.
    - rewrite Hnum in Hcards.
      assert (Hl : length (take (Z.to_nat (_numCards m)) (cards e))
                   = Z.to_nat (_numCards m)) by (rewrite Hcards; exact Hwl).
      rewrite length_take in Hl. lia.
    - rewrite Hlen. destruct Hcnt. lia. }
  split; [exact Hw|]. split; [reflexivity|]. split; [reflexivity|].
  intros id lvl. unfold isAuthorized. rewrite Hw. reflexivity.
Qed.

(** The snapshot left by a removal, read back after a restart. *)
Lemma restart_restores_whitelist_witness :
  let m0 := mkRFID (defaultCards ++ replicate 45 inhabitant) 5 true in
  let r := removeCard m0 (mkData (to_int EEPROM_MAGIC) 5 defaultCards)
                      "1A2B3C4D" true in
  exists m2,
    begin (new (replicate 50 inhabitant)) (snd r) true = (true, m2, snd r)
    /\ whitelist m2 = whitelist (snd (fst r))
    /\ getCardCount m2 = getCardCount (snd (fst r))
    /\ _initialized m2 = true
    /\ forall id lvl,
         isAuthorized m2 id lvl = isAuthorized (snd (fst r)) id lvl.
Proof.
  intros m0 r.
  apply (restart_restores_whitelist (snd (fst r)) (snd r)
           (replicate 50 inhabitant) true).
  - reflexivity.
  - split; discriminate.
  - repeat split.
  - reflexivity.
Defined.

(** *** The text of a card UID *)

Lemma append_assoc' (s1 s2 s3 : string) :
  String.append (String.append s1 s2) s3
  = String.append s1 (String.append s2 s3).
Proof.
  induction s1 as [|c s1 IH]; [reflexivity|]. cbn. rewrite IH. reflexivity.
Qed.

Lemma append_empty_r (s : string) : String.append s "" = s.
Proof.
  induction s as [|c s IH]; [reflexivity|]. cbn. rewrite IH. reflexivity.
Qed.

(** A byte adds its high and its low hex digit to the text. *)
Lemma readCard_loop_step (b : Z) (rest : list Z) (acc : string) :
  0 <= b < 256 ->
  readCard_loop (b :: rest) acc
  = readCard_loop rest
      (String.append acc
         (String (hexDigit (b / 16))
                 (String (hexDigit (b mod 16)) EmptyString))).
Proof.
  intros Hb. cbn [readCard_loop]. f_equal. unfold String_HEX.
  destruct (Z.ltb_spec b 16) as [Hlt|Hge].
  - rewrite append_assoc'. cbn [String.append].
    rewrite Z.div_small, Z.mod_small by lia. reflexivity.
  - reflexivity.
Qed.

Lemma readCard_loop_acc (bytes : list Z) (acc : string) :
  Forall (fun b => 0 <= b < 256) bytes ->
  readCard_loop bytes acc = String.append acc (readCard_loop bytes "").
Proof.
  intros Hall. revert acc.
  induction Hall as [|b rest Hb _ IH]; intros acc.
  - cbn. rewrite append_empty_r. reflexivity.
  - rewrite !readCard_loop_step by exact Hb.
    rewrite (IH (String.append acc _)), (IH (String.append "" _)).
    rewrite append_assoc'. reflexivity.
Qed.

Lemma readCard_loop_cons (b : Z) (rest : list Z) :
  0 <= b < 256 -> Forall (fun b => 0 <= b < 256) rest ->
  toUpperCase (readCard_loop (b :: rest) "")
  = String (toupper (hexDigit (b / 16)))
           (String (toupper (hexDigit (b mod 16)))
                   (toUpperCase (readCard_loop rest ""))).
Proof.
  intros Hb Hrest. rewrite readCard_loop_step by exact Hb.
  rewrite readCard_loop_acc by exact Hrest. reflexivity.
Qed.

Lemma hex_digit_cases (d : Z) :
  0 <= d < 16 ->
  d = 0 \/ d = 1 \/ d = 2 \/ d = 3 \/ d = 4 \/ d = 5 \/ d = 6 \/ d = 7
  \/ d = 8 \/ d = 9 \/ d = 10 \/ d = 11 \/ d = 12 \/ d = 13 \/ d = 14
  \/ d = 15.
Proof. lia. Qed.

Lemma upper_hex_digit (d : Z) :
  0 <= d < 16 -> isUpperHex (toupper (hexDigit d)) = true.
Proof.
  intros Hd. apply hex_digit_cases in Hd.
  repeat (destruct Hd as [-> | Hd]; [reflexivity|]). subst d. reflexivity.
Qed.

Lemma upper_hex_digit_inj (d d' : Z) :
  0 <= d < 16 -> 0 <= d' < 16 ->
  toupper (hexDigit d) = toupper (hexDigit d') -> d = d'.
Proof.
  intros Hd Hd' E. apply hex_digit_cases in Hd. apply hex_digit_cases in Hd'.
  repeat (destruct Hd as [-> | Hd]);
    try subst d;
    repeat (destruct Hd' as [-> | Hd']);
    try subst d';
    first [reflexivity | vm_compute in E; discriminate E].
Qed.

Lemma byte_digits (b : Z) :
  0 <= b < 256 -> 0 <= b / 16 < 16 /\ 0 <= b mod 16 < 16.
Proof.
  intros Hb. split.
  - split; [apply Z.div_pos; lia | apply Z.div_lt_upper_bound; lia].
  - apply Z.mod_pos_bound. lia.
Qed.

Lemma readCard_text_length (bytes : list Z) :
  Forall (fun b => 0 <= b < 256) bytes ->
  String.length (toUpperCase (readCard_loop bytes ""))
  = (2 * length bytes)%nat.
Proof.
  induction 1 as [|b rest Hb Hrest IH]; [reflexivity|].
  rewrite readCard_loop_cons by assumption.
  cbn [String.length length]. rewrite IH. lia.
Qed.

Lemma readCard_text_inj (bytes : list Z) :
  Forall (fun b => 0 <= b < 256) bytes ->
  forall bytes',
    Forall (fun b => 0 <= b < 256) bytes' ->
    toUpperCase (readCard_loop bytes' "")
    = toUpperCase (readCard_loop bytes "") ->
    bytes' = bytes.
Proof.
  induction 1 as [|b rest Hb Hrest IH]; intros bytes' Hall' E.
  - destruct Hall' as [|b' rest' Hb' Hrest']; [reflexivity|].
    rewrite readCard_loop_cons in E by assumption. discriminate E.
  - destruct Hall' as [|b' rest' Hb' Hrest'].
    + rewrite readCard_loop_cons in E by assumption. discriminate E.
    + rewrite !readCard_loop_cons in E by assumption.
      injection E as Eh El Er.
      destruct (byte_digits b Hb) as [Hh Hl].
      destruct (byte_digits b' Hb') as [Hh' Hl'].
      apply upper_hex_digit_inj in Eh; [|assumption..].
      apply upper_hex_digit_inj in El; [|assumption..].
      f_equal.
      * rewrite (Z.div_mod b 16), (Z.div_mod b' 16) by lia. lia.
      * apply IH; assumption.
Qed.

(** X24: when the reader of the gate presents a card, [readCard]
    returns two characters per UID byte, each one of 0-9 and A-F (never
    lower case), and different UIDs give different texts. A 4-byte UID
    gives 8 characters, a 7-byte UID 14, a 10-byte UID 20. *)
Theorem readCard_hex_text (r : Readers) (gate : GateType)
    (bytes : list Z) :
  match gate with
  | GATE_ENTRANCE => _rfidEntrance r
  | GATE_EXIT => _rfidExit r
  end = Some bytes ->
  Forall (fun b => 0 <= b < 256) bytes ->
  String.length (readCard r gate) = (2 * length bytes)%nat
  /\ forallb isUpperHex (list_ascii_of_string (readCard r gate)) = true
  /\ forall r' gate' bytes',
       match gate' with
       | GATE_ENTRANCE => _rfidEntrance r'
       | GATE_EXIT => _rfidExit r'
       end = Some bytes' ->
       Forall (fun b => 0 <= b < 256) bytes' ->
       readCard r' gate' = readCard r gate -> bytes' = bytes.
Proof.
  intros Hr Hall. unfold readCard at 1 2 4. rewrite Hr.
  split; [apply readCard_text_length; exact Hall|]. split.
  - clear Hr. induction Hall as [|b rest Hb Hrest IH]; [reflexivity|].
    rewrite readCard_loop_cons by assumption.
    destruct (byte_digits b Hb) as [Hh Hl].
    cbn [list_ascii_of_string forallb].
    rewrite (upper_hex_digit _ Hh), (upper_hex_digit _ Hl), IH.
    reflexivity.
  - intros r' gate' bytes' Hr' Hall' E. unfold readCard in E.
    rewrite Hr' in E. apply (readCard_text_inj bytes Hall bytes' Hall' E).
Qed.

(** The card 0x0A 0x1B 0x2C 0x3D at the entrance. *)
Lemma readCard_hex_text_witness :
  let r := mkReaders (Some [10; 27; 44; 61]) None in
  readCard r GATE_ENTRANCE = "0A1B2C3D"
  /\ String.length (readCard r GATE_ENTRANCE) = (2 * 4)%nat
  /\ forallb isUpperHex (list_ascii_of_string (readCard r GATE_ENTRANCE))
     = true.
Proof.
  intros r.
  assert (Hall : Forall (fun b => 0 <= b < 256) [10; 27; 44; 61])
    by (repeat constructor; lia).
  split; [reflexivity|].
  destruct (readCard_hex_text r GATE_ENTRANCE [10; 27; 44; 61] eq_refl Hall)
    as (H1 & H2 & _).
  split; [exact H1 | exact H2].
Defined.

End RFIDManagerFacts.

(** ** Card reader and slot allocator together *)

Module SystemFacts.
Import Config Arduino ArduinoFacts.

(** X25: the text [readCard] returns for a card UID of at most 9 bytes
    (the 4-byte and 7-byte UIDs) fits the 20-byte UID buffers unchanged,
    and after [begin()] and any calls two consecutive [allocateSlot]
    calls for it give the same result: the same slot number (or [-1]
    both times) and the state the first call left. *)
Theorem card_uid_allocated_idempotently (r : RFIDManager.Readers)
    (gate : RFIDManager.GateType) (bytes : list Z)
    (m0 : SlotManager.SlotManager) (calls : list (SlotManager.Op * Z))
    (e1 t1 e2 t2 : Z) :
  match gate with
  | RFIDManager.GATE_ENTRANCE => RFIDManager._rfidEntrance r
  | RFIDManager.GATE_EXIT => RFIDManager._rfidExit r
  end = Some bytes ->
  Forall (fun b => 0 <= b < 256) bytes -> (length bytes <= 9)%nat ->
  toCharArray (RFIDManager.readCard r gate) 20 = RFIDManager.readCard r gate
  /\ SlotManager.allocateSlot
       (snd (SlotManager.allocateSlot
               (SlotManager.run (snd (SlotManager.begin m0)) calls)
               (RFIDManager.readCard r gate) e1 t1))
       (RFIDManager.readCard r gate) e2 t2
     = SlotManager.allocateSlot
         (SlotManager.run (snd (SlotManager.begin m0)) calls)
         (RFIDManager.readCard r gate) e1 t1.
Proof.
  intros Hr Hall Hlen.
  assert (Hfit : (String.length (RFIDManager.readCard r gate) < 20)%nat).
  { unfold RFIDManager.readCard. rewrite Hr.
    rewrite (RFIDManagerFacts.readCard_text_length bytes Hall). lia. }
  split.
  - apply toCharArray_fits. exact Hfit.
  - apply SlotManagerFacts.allocateSlot_twice; [|exact Hfit].
    apply SlotManagerFacts.reachable_Inv.
Qed.

(** A 7-byte card at the entrance, scanned twice. *)
Lemma card_uid_allocated_idempotently_witness :
  let r := RFIDManager.mkReaders (Some [4; 161; 178; 195; 212; 229; 246])
                                 None in
  let uid := RFIDManager.readCard r RFIDManager.GATE_ENTRANCE in
  let m := SlotManager.run (snd (SlotManager.begin (SlotManager.new []))) [] in
  toCharArray uid 20 = uid
  /\ SlotManager.allocateSlot (snd (SlotManager.allocateSlot m uid 0 1000))
                              uid 0 2000
     = SlotManager.allocateSlot m uid 0 1000.
Proof.
  intros r uid m.
  apply (card_uid_allocated_idempotently r RFIDManager.GATE_ENTRANCE
           [4; 161; 178; 195; 212; 229; 246] (SlotManager.new []) []
           0 1000 0 2000).
  - reflexivity.
  - repeat constructor; lia.
  - cbn. lia.
Defined.

End SystemFacts.

(** ** LCDDisplay *)

Module LCDDisplayFacts.
Import Config Arduino LCDDisplay.

Lemma chars_length (s : string) :
  String.length s = length (list_ascii_of_string s).
Proof. induction s as [|c s IH]; cbn; congruence. Qed.

Lemma chars_append (a b : string) :
  list_ascii_of_string (String.append a b)
  = list_ascii_of_string a ++ list_ascii_of_string b.
Proof. induction a as [|c a IH]; cbn; congruence. Qed.

Lemma chars_substring (n : nat) (s : string) :
  list_ascii_of_string (String.substring 0 n s)
  = take n (list_ascii_of_string s).
Proof.
  revert n. induction s as [|c s IH]; intros [|n]; cbn; try reflexivity.
  rewrite IH. reflexivity.
Qed.

Lemma chars_inj (a b : string) :
  list_ascii_of_string a = list_ascii_of_string b -> a = b.
Proof.
  intros H. rewrite <- (string_of_list_ascii_of_string a),
    <- (string_of_list_ascii_of_string b), H. reflexivity.
Qed.

(** With enough fuel the loop stops because the line is full. *)
Lemma formatLine_pad_chars (fuel : nat) (s : string) :
  (16 - String.length s <= fuel)%nat ->
  list_ascii_of_string (formatLine_pad fuel s)
  = list_ascii_of_string s
    ++ replicate (16 - String.length s) (Ascii.ascii_of_nat 32).
Proof.
  revert s. induction fuel as [|fuel IH]; intros s Hfuel.
  - cbn [formatLine_pad]. replace (16 - String.length s)%nat with 0%nat by lia.
    cbn. rewrite app_nil_r. reflexivity.
  - cbn [formatLine_pad]. unfold LCD_COLS.
    destruct (Z.ltb_spec (Z.of_nat (String.length s)) 16) as [Hlt|Hge].
    + rewrite IH.
      * rewrite chars_append, <- app_assoc. f_equal.
        rewrite chars_length, chars_append, length_app, <- chars_length.
        cbn [list_ascii_of_string length app].
        replace (16 - String.length s)%nat
          with (S (16 - (String.length s + 1)))%nat by lia.
        reflexivity.
      * rewrite chars_length, chars_append, length_app, <- chars_length.
        cbn [list_ascii_of_string length]. lia.
    + replace (16 - String.length s)%nat with 0%nat by lia.
      cbn. rewrite app_nil_r. reflexivity.
Qed.

Lemma formatLine_chars (text : string) :
  list_ascii_of_string (formatLine text)
  = take 16 (list_ascii_of_string text
             ++ replicate 16 (Ascii.ascii_of_nat 32)).
Proof.
  unfold formatLine, LCD_COLS. change (Z.to_nat 16) with 16%nat.
  destruct (Z.gtb_spec (Z.of_nat (String.length text)) 16) as [Hgt|Hle].
  - assert (Hlen : String.length (String.substring 0 16 text) = 16%nat).
    { rewrite chars_length, chars_substring, length_take, <- chars_length.
      lia. }
    rewrite formatLine_pad_chars by lia. rewrite Hlen. cbn [Nat.sub replicate].
    rewrite app_nil_r, chars_substring.
    rewrite take_app_le by (rewrite <- chars_length; lia). reflexivity.
  - rewrite formatLine_pad_chars by lia.
    rewrite take_app_ge by (rewrite <- chars_length; lia).
    rewrite <- chars_length, take_replicate. f_equal. f_equal. lia.
Qed.

Lemma formatLine_length (text : string) :
  String.length (formatLine text) = 16%nat.
Proof.
  rewrite chars_length, formatLine_chars, length_take, length_app,
    length_replicate. lia.
Qed.

Lemma formatLine_full (text : string) :
  String.length text = 16%nat -> formatLine text = text.
Proof.
  intros Hlen. apply chars_inj. rewrite formatLine_chars.
  rewrite take_app_le by (rewrite <- chars_length; lia).
  apply take_ge. rewrite <- chars_length. lia.
Qed.

(** X27: [formatLine] always returns exactly 16 characters: the first 16
    characters of the text followed by blanks; the padding loop stops
    because the line is full, and a line already formatted is returned
    unchanged. *)
Theorem formatLine_sixteen_columns (text : string) :
  String.length (formatLine text) = 16%nat
  /\ list_ascii_of_string (formatLine text)
     = take 16 (list_ascii_of_string text
                ++ replicate 16 (Ascii.ascii_of_nat 32))
  /\ (Z.of_nat (String.length (formatLine text)) <? LCD_COLS) = false
  /\ formatLine (formatLine text) = formatLine text.
Proof.
  pose proof (formatLine_length text) as Hlen.
  split; [exact Hlen|]. split; [apply formatLine_chars|]. split.
  - rewrite Hlen. reflexivity.
  - apply formatLine_full, Hlen.
Qed.

Lemma updateLine_initialized d row text :
  _initialized (fst (updateLine d row text)) = _initialized d.
Proof.
  unfold updateLine.
  destruct (negb (_initialized d) || (row >? 1)); [reflexivity|].
  destruct (row =? 0); reflexivity.
Qed.

Lemma showMessage_initialized d line1 line2 :
  _initialized d = true ->
  showMessage d line1 line2
  = (mkDisplay (formatLine line1) (formatLine line2) true,
     [LcdSetCursor 0 0; LcdPrint (formatLine line1);
      LcdSetCursor 0 1; LcdPrint (formatLine line2)]).
Proof.
  intros Hinit. destruct d as [l1 l2 i]. cbn in Hinit. subst i.
  reflexivity.
Qed.

(** X28: on an initialised display whose two stored lines have 16
    characters (as [updateLine] leaves them), [showTemporaryMessage]
    prints the two formatted message lines, waits [duration], prints the
    two saved lines again as they were, and leaves the object as it was
    before the call. *)
Theorem showTemporaryMessage_restores (d : LCDDisplay)
    (line1 line2 : string) (duration : Z) :
  _initialized d = true ->
  String.length (_line1Content d) = 16%nat ->
  String.length (_line2Content d) = 16%nat ->
  showTemporaryMessage d line1 line2 duration
  = (d,
     [LcdSetCursor 0 0; LcdPrint (formatLine line1);
      LcdSetCursor 0 1; LcdPrint (formatLine line2);
      Delay duration;
      LcdSetCursor 0 0; LcdPrint (_line1Content d);
      LcdSetCursor 0 1; LcdPrint (_line2Content d)]).
Proof.
  intros Hinit H1 H2. unfold showTemporaryMessage. rewrite Hinit.
  cbn [negb]. rewrite (showMessage_initialized d line1 line2 Hinit).
  rewrite showMessage_initialized by reflexivity.
  rewrite (formatLine_full _ H1), (formatLine_full _ H2).
  destruct d as [l1 l2 i]. cbn in Hinit. subst i. reflexivity.
Qed.

(** After "Welcome" / "Slots: 3/10" a temporary "Access denied". *)
Lemma showTemporaryMessage_restores_witness :
  let d := fst (showMessage (snd (fst (begin new))) "Welcome" "Slots: 3/10") in
  showTemporaryMessage d "Access denied" "" 2000
  = (d,
     [LcdSetCursor 0 0; LcdPrint (formatLine "Access denied");
      LcdSetCursor 0 1; LcdPrint (formatLine "");
      Delay 2000;
      LcdSetCursor 0 0; LcdPrint (_line1Content d);
      LcdSetCursor 0 1; LcdPrint (_line2Content d)]).
Proof.
  intros d.
  apply (showTemporaryMessage_restores d "Access denied" "" 2000);
    reflexivity.
Defined.

Lemma updateLine_cases d row text :
  updateLine d row text = (d, [])
  \/ (_initialized d = true /\ row <= 1
      /\ exists d',
          updateLine d row text
          = (d', [LcdSetCursor 0 row; LcdPrint (formatLine text)])
          /\ _initialized d' = true
          /\ ((_line1Content d' = formatLine text
               /\ _line2Content d' = _line2Content d)
              \/ (_line1Content d' = _line1Content d
                  /\ _line2Content d' = formatLine text))).
Proof.
  unfold updateLine. destruct (_initialized d) eqn:Hinit; cbn [negb orb];
    [|left; reflexivity].
  destruct (Z.gtb_spec row 1) as [Hgt|Hle]; [left; reflexivity|].
  right. split; [reflexivity|]. split; [exact Hle|].
  eexists. split; [reflexivity|].
  destruct (row =? 0); cbn; split; auto.
Qed.

(** One call keeps the stored lines formatted, prints only full lines at
    the start of a row (the raw [print] and [setCursor] apart), and does
    nothing before [begin]. *)
Lemma perform_formatted d c :
  line_ok (_line1Content d) -> line_ok (_line2Content d) ->
  line_ok (_line1Content (fst (perform d c)))
  /\ line_ok (_line2Content (fst (perform d c)))
  /\ (forall text, LcdPrint text ∈ snd (perform d c) ->
        String.length text = 16%nat \/ c = CallPrint text)
  /\ (forall col row, LcdSetCursor col row ∈ snd (perform d c) ->
        (col = 0 /\ row <= 1) \/ c = CallSetCursor col row)
  /\ (_initialized d = false -> c <> CallBegin -> perform d c = (d, [])).
Proof.
  intros H1 H2.
  assert (Hfmt : forall t, line_ok (formatLine t))
    by (intros t; right; apply formatLine_length).
  assert (Hupd : forall row text,
    line_ok (_line1Content (fst (updateLine d row text)))
    /\ line_ok (_line2Content (fst (updateLine d row text)))
    /\ (forall t, LcdPrint t ∈ snd (updateLine d row text) ->
          String.length t = 16%nat)
    /\ (forall col r, LcdSetCursor col r ∈ snd (updateLine d row text) ->
          col = 0 /\ r <= 1)
    /\ (_initialized d = false -> updateLine d row text = (d, []))).
  { intros row text.
    destruct (updateLine_cases d row text)
      as [-> | (Hinit & Hrow & d' & -> & _ & Hl)]; cbn [fst snd].
    - split; [exact H1|]. split; [exact H2|]. split; [|split].
      + intros t Hin. rewrite elem_of_nil in Hin. tauto.
      + intros col r Hin. rewrite elem_of_nil in Hin. tauto.
      + reflexivity.
    - assert (line_ok (_line1Content d') /\ line_ok (_line2Content d'))
        as [A B].
      { destruct Hl as [[-> ->] | [-> ->]]; split; auto. }
      split; [exact A|]. split; [exact B|]. split; [|split].
      + intros t Hin. rewrite !elem_of_cons, elem_of_nil in Hin.
        destruct Hin as [Hin | [Hin | []]]; inversion Hin.
        apply formatLine_length.
      + intros col r Hin. rewrite !elem_of_cons, elem_of_nil in Hin.
        destruct Hin as [Hin | [Hin | []]]; inversion Hin; subst.
        split; [reflexivity | exact Hrow].
      + intros Hi. congruence. }
  destruct c as [ | | row text | l1 l2 | l1 l2 dur | col row | text | on
                | avail total row | gate status row ]; cbn [perform].
  - cbn [begin fst snd _line1Content _line2Content].
    split; [exact H1|]. split; [exact H2|].
    split; [intros t Hin | split; [intros col r Hin | intros _ Hc]];
      rewrite ?elem_of_cons, ?elem_of_nil in *;
      [ | | congruence];
      (destruct Hin as [Hin | [Hin | [Hin | [Hin | []]]]]; inversion Hin).
  - unfold clear. destruct (_initialized d); cbn [negb fst snd];
      (split; [first [exact H1 | left; reflexivity]|]);
      (split; [first [exact H2 | left; reflexivity]|]);
      (split; [intros t Hin | split; [intros col r Hin | intros Hi _]]);
      rewrite ?elem_of_cons, ?elem_of_nil in *;
      try congruence; try tauto;
      (destruct Hin as [Hin | []]; inversion Hin).
  - destruct (Hupd row text) as (A & B & C & D & E).
    split; [exact A|]. split; [exact B|]. split; [|split].
    + intros t Hin. left. exact (C t Hin).
    + intros col r Hin. left. exact (D col r Hin).
    + intros Hi _. exact (E Hi).
  - destruct (_initialized d) eqn:Hinit.
    + rewrite (showMessage_initialized d l1 l2 Hinit). cbn [fst snd].
      split; [apply Hfmt|]. split; [apply Hfmt|].
      split; [intros t Hin | split; [intros col r Hin | intros Hi _]];
        rewrite ?elem_of_cons, ?elem_of_nil in *; try congruence;
        left;
        (destruct Hin as [Hin | [Hin | [Hin | [Hin | []]]]]; inversion Hin;
         subst; first [apply formatLine_length | split; [reflexivity | lia]]).
    + unfold showMessage. rewrite Hinit. cbn [negb fst snd].
      split; [exact H1|]. split; [exact H2|].
      split; [intros t Hin | split; [intros col r Hin | intros Hi _]];
        rewrite ?elem_of_nil in *; tauto.
  - destruct (_initialized d) eqn:Hinit.
    + unfold showTemporaryMessage. rewrite Hinit. cbn [negb].
      rewrite (showMessage_initialized d l1 l2 Hinit).
      rewrite showMessage_initialized by reflexivity. cbn [fst snd app].
      split; [apply Hfmt|]. split; [apply Hfmt|].
      split; [intros t Hin | split; [intros col r Hin | intros Hi _]];
        rewrite ?elem_of_cons, ?elem_of_nil in *; try congruence;
        left;
        (destruct Hin as [Hin | [Hin | [Hin | [Hin | [Hin | [Hin | [Hin
                           | [Hin | [Hin | []]]]]]]]]]; inversion Hin;
         subst; first [apply formatLine_length | split; [reflexivity | lia]]).
    + unfold showTemporaryMessage. rewrite Hinit. cbn [negb fst snd].
      split; [exact H1|]. split; [exact H2|].
      split; [intros t Hin | split; [intros col r Hin | intros Hi _]];
        rewrite ?elem_of_nil in *; tauto.
  - unfold setCursor. destruct (_initialized d); cbn [negb fst snd];
      (split; [exact H1|]); (split; [exact H2|]);
      (split; [intros t Hin | split; [intros c0 r Hin | intros Hi _]]);
      rewrite ?elem_of_cons, ?elem_of_nil in *;
      try congruence; try tauto;
      (destruct Hin as [Hin | []]; inversion Hin; subst; right; reflexivity).
  - unfold print. destruct (_initialized d); cbn [negb fst snd];
      (split; [exact H1|]); (split; [exact H2|]);
      (split; [intros t Hin | split; [intros c0 r Hin | intros Hi _]]);
      rewrite ?elem_of_cons, ?elem_of_nil in *;
      try congruence; try tauto;
      (destruct Hin as [Hin | []]; inversion Hin; subst; right; reflexivity).
  - unfold setBacklight. destruct (_initialized d), on; cbn [negb fst snd];
      (split; [exact H1|]); (split; [exact H2|]);
      (split; [intros t Hin | split; [intros c0 r Hin | intros Hi _]]);
      rewrite ?elem_of_cons, ?elem_of_nil in *;
      try congruence; try tauto;
      (destruct Hin as [Hin | []]; inversion Hin).
  - unfold displaySlotStatus.
    destruct (_initialized d) eqn:Hinit; cbn [negb fst snd].
    + destruct (Hupd row
                  (String.append
                     (String.append
                        (String.append "Slots: " (String_int avail)) "/")
                     (String_int total)))
        as (A & B & C & D & E).
      split; [exact A|]. split; [exact B|]. split; [|split].
      * intros t Hin. left. exact (C t Hin).
      * intros col r Hin. left. exact (D col r Hin).
      * intros Hi _. congruence.
    + split; [exact H1|]. split; [exact H2|].
      split; [intros t Hin | split; [intros col r Hin | intros Hi _]];
        rewrite ?elem_of_nil in *; tauto.
  - unfold displayGateStatus.
    destruct (_initialized d) eqn:Hinit; cbn [negb fst snd].
    + destruct (Hupd row (String.append (String.append gate ": ") status))
        as (A & B & C & D & E).
      split; [exact A|]. split; [exact B|]. split; [|split].
      * intros t Hin. left. exact (C t Hin).
      * intros col r Hin. left. exact (D col r Hin).
      * intros Hi _. congruence.
    + split; [exact H1|]. split; [exact H2|].
      split; [intros t Hin | split; [intros col r Hin | intros Hi _]];
        rewrite ?elem_of_nil in *; tauto.
Qed.

Lemma performAll_formatted d calls :
  line_ok (_line1Content d) -> line_ok (_line2Content d) ->
  line_ok (_line1Content (fst (performAll d calls)))
  /\ line_ok (_line2Content (fst (performAll d calls)))
  /\ (forall text, LcdPrint text ∈ snd (performAll d calls) ->
        String.length text = 16%nat \/ CallPrint text ∈ calls)
  /\ (forall col row, LcdSetCursor col row ∈ snd (performAll d calls) ->
        (col = 0 /\ row <= 1) \/ CallSetCursor col row ∈ calls)
  /\ (_initialized d = false -> CallBegin ∉ calls ->
      performAll d calls = (d, [])).
Proof.
  revert d. induction calls as [|c rest IH]; intros d H1 H2.
  - cbn [performAll fst snd].
    split; [exact H1|]. split; [exact H2|].
    split; [intros t Hin | split; [intros col r Hin | reflexivity]];
      rewrite elem_of_nil in Hin; tauto.
  - cbn [performAll].
    destruct (perform_formatted d c H1 H2) as (A & B & C & D & E).
    destruct (perform d c) as [d1 log1] eqn:Hp. cbn [fst snd] in *.
    destruct (IH d1 A B) as (A' & B' & C' & D' & E').
    destruct (performAll d1 rest) as [d2 log2] eqn:Hq. cbn [fst snd] in *.
    split; [exact A'|]. split; [exact B'|]. split; [|split].
    + intros t Hin. rewrite elem_of_app in Hin. rewrite elem_of_cons.
      destruct Hin as [Hin|Hin].
      * destruct (C t Hin) as [?| ->]; auto.
      * destruct (C' t Hin); auto.
    + intros col r Hin. rewrite elem_of_app in Hin. rewrite elem_of_cons.
      destruct Hin as [Hin|Hin].
      * destruct (D col r Hin) as [?| ->]; auto.
      * destruct (D' col r Hin); auto.
    + intros Hi Hno. rewrite not_elem_of_cons in Hno.
      destruct Hno as [Hc Hrest].
      specialize (E Hi (not_eq_sym Hc)). injection E as -> ->.
      specialize (E' Hi Hrest). injection E' as -> ->. reflexivity.
Qed.

(** X29: from the constructor on, whatever is called of the ten public
    methods ([begin], [clear], [updateLine], [showMessage],
    [showTemporaryMessage], [setCursor], [print], [setBacklight],
    [displaySlotStatus], [displayGateStatus]): each stored line
    is empty or 16 characters wide; every text sent to the LCD has 16
    characters and every cursor position is the start of row 0 or 1,
    unless the caller used the raw [print] or [setCursor]; and as long
    as [begin] has not been called nothing is sent and nothing stored. *)
Theorem display_lines_stay_formatted (calls : list Call) :
  line_ok (_line1Content (fst (performAll new calls)))
  /\ line_ok (_line2Content (fst (performAll new calls)))
  /\ (forall text, LcdPrint text ∈ snd (performAll new calls) ->
        String.length text = 16%nat \/ CallPrint text ∈ calls)
  /\ (forall col row, LcdSetCursor col row ∈ snd (performAll new calls) ->
        (col = 0 /\ row <= 1) \/ CallSetCursor col row ∈ calls)
  /\ (CallBegin ∉ calls -> performAll new calls = (new, [])).
Proof.
  destruct (performAll_formatted new calls) as (A & B & C & D & E);
    [left; reflexivity | left; reflexivity |].
  split; [exact A|]. split; [exact B|]. split; [exact C|].
  split; [exact D|]. intros Hno. apply E; [reflexivity | exact Hno].
Qed.

(** A display used before [begin()]. *)
Lemma display_lines_stay_formatted_witness :
  performAll new [CallShowMessage "Welcome" ""; CallDisplaySlotStatus 3 10 1;
                  CallClear]
  = (new, []).
Proof.
  apply (display_lines_stay_formatted
           [CallShowMessage "Welcome" ""; CallDisplaySlotStatus 3 10 1;
            CallClear]).
  rewrite !not_elem_of_cons. repeat split; try discriminate.
  apply not_elem_of_nil.
Defined.

End LCDDisplayFacts.

(** ** TimeSync *)

Module TimeSyncFacts.
Import Config Arduino TimeSync.

(** [n] failed calls bring [attempts] to [maxAttempts]: the loop ends at
    the next call, whatever its answer. *)
Lemma begin_loop_exhausted (answers : nat -> bool) (n : nat) :
  forall (fuel call : nat) (attempts : Z),
    (n < fuel)%nat -> attempts + Z.of_nat n = maxAttempts ->
    (forall j, (j < n)%nat -> answers (call + j)%nat = false) ->
    begin_loop fuel answers call attempts
    = (maxAttempts, S (call + n), replicate n (Delay 500)).
Proof.
  unfold maxAttempts.
  induction n as [|n IH]; intros fuel call attempts Hfuel Hatt Hans.
  - destruct fuel as [|fuel]; [lia|]. cbn [begin_loop]. unfold maxAttempts.
    replace attempts with 10 by lia.
    rewrite Z.ltb_irrefl, andb_false_r, Nat.add_0_r. reflexivity.
  - destruct fuel as [|fuel]; [lia|]. cbn [begin_loop]. unfold maxAttempts.
    pose proof (Hans 0%nat ltac:(lia)) as H0. rewrite Nat.add_0_r in H0.
    rewrite H0. cbn [negb andb].
    destruct (Z.ltb_spec attempts 10) as [_|Hge]; [|lia].
    rewrite (IH fuel (S call) (attempts + 1)); [| lia | lia |].
    + replace (S call + n)%nat with (call + S n)%nat by lia. reflexivity.
    + intros j Hj. replace (S call + j)%nat with (call + S j)%nat by lia.
      apply Hans. lia.
Qed.

(** The first successful call, after [k] failed ones, ends the loop. *)
Lemma begin_loop_answered (answers : nat -> bool) (k : nat) :
  forall (fuel call : nat) (attempts : Z),
    (k < fuel)%nat -> attempts + Z.of_nat k < maxAttempts ->
    (forall j, (j < k)%nat -> answers (call + j)%nat = false) ->
    answers (call + k)%nat = true ->
    begin_loop fuel answers call attempts
    = (attempts + Z.of_nat k, S (call + k), replicate k (Delay 500)).
Proof.
  unfold maxAttempts.
  induction k as [|k IH]; intros fuel call attempts Hfuel Hatt Hans Hyes.
  - destruct fuel as [|fuel]; [lia|]. cbn [begin_loop].
    rewrite Nat.add_0_r in *. rewrite Hyes. cbn [negb andb replicate].
    replace (attempts + Z.of_nat 0) with attempts by lia. reflexivity.
  - destruct fuel as [|fuel]; [lia|]. cbn [begin_loop]. unfold maxAttempts.
    pose proof (Hans 0%nat ltac:(lia)) as H0. rewrite Nat.add_0_r in H0.
    rewrite H0. cbn [negb andb].
    destruct (Z.ltb_spec attempts 10) as [_|Hge]; [|lia].
    rewrite (IH fuel (S call) (attempts + 1)); [| lia | lia | |].
    + replace (S call + k)%nat with (call + S k)%nat by lia.
      replace (attempts + 1 + Z.of_nat k) with (attempts + Z.of_nat (S k))
        by lia.
      reflexivity.
    + intros j Hj. replace (S call + j)%nat with (call + S j)%nat by lia.
      apply Hans. lia.
    + replace (S call + k)%nat with (call + S k)%nat by lia. exact Hyes.
Qed.

(** The first index below [n] with a positive answer, if there is one. *)
Lemma first_answer (answers : nat -> bool) (n : nat) :
  (forall j, (j < n)%nat -> answers j = false)
  \/ (exists k, (k < n)%nat /\ answers k = true
                /\ forall j, (j < k)%nat -> answers j = false).
Proof.
  induction n as [|n [IH | (k & Hk & Hyes & Hno)]].
  - left. intros j Hj. lia.
  - destruct (answers n) eqn:Hn.
    + right. exists n. split; [lia|]. split; [exact Hn | exact IH].
    + left. intros j Hj. destruct (decide (j = n)) as [->|Hne];
        [exact Hn | apply IH; lia].
  - right. exists k. split; [lia|]. split; assumption.
Qed.

(** X30: [begin] reports success, and sets [_synced], exactly when one
    of the first 10 [getLocalTime] calls succeeds; it then stops at the
    first such call, after one 500 ms delay per failed call.  After 10
    failed calls it asks once more and reports failure whatever that
    11th answer is, having waited 5 seconds.  The loop never needs more
    than 11 evaluations of its condition. *)
Theorem begin_synced_iff_answer_within_ten (ts : TimeSync)
    (answers : nat -> bool) (fuel : nat) :
  (11 <= fuel)%nat ->
  begin_with fuel ts answers = begin ts answers
  /\ _synced (snd (fst (fst (begin ts answers))))
     = fst (fst (fst (begin ts answers)))
  /\ (fst (fst (fst (begin ts answers))) = true
      <-> exists k, (k < 10)%nat /\ answers k = true)
  /\ (forall k, (k < 10)%nat -> answers k = true ->
        (forall j, (j < k)%nat -> answers j = false) ->
        begin ts answers
        = (true, mkTimeSync true (_bootTime ts), S k,
           ConfigTime GMT_OFFSET_SEC DAYLIGHT_OFFSET_SEC NTP_SERVER
             :: replicate k (Delay 500)))
  /\ ((forall j, (j < 10)%nat -> answers j = false) ->
      begin ts answers
      = (false, mkTimeSync false (_bootTime ts), 11%nat,
         ConfigTime GMT_OFFSET_SEC DAYLIGHT_OFFSET_SEC NTP_SERVER
           :: replicate 10 (Delay 500))).
Proof.
  intros Hfuel.
  assert (Hyes : forall f k, (11 <= f)%nat -> (k < 10)%nat ->
            answers k = true ->
            (forall j, (j < k)%nat -> answers j = false) ->
            begin_with f ts answers
            = (true, mkTimeSync true (_bootTime ts), S k,
               ConfigTime GMT_OFFSET_SEC DAYLIGHT_OFFSET_SEC NTP_SERVER
                 :: replicate k (Delay 500))).
  { intros f k Hf Hk Hans Hno. unfold begin_with.
    rewrite (begin_loop_answered answers k f 0 0);
      [| lia | unfold maxAttempts; lia | exact Hno | exact Hans].
    destruct (Z.ltb_spec (0 + Z.of_nat k) maxAttempts) as [_|Hge];
      [reflexivity | unfold maxAttempts in Hge; lia]. }
  assert (Hnone : forall f, (11 <= f)%nat ->
            (forall j, (j < 10)%nat -> answers j = false) ->
            begin_with f ts answers
            = (false, mkTimeSync false (_bootTime ts), 11%nat,
               ConfigTime GMT_OFFSET_SEC DAYLIGHT_OFFSET_SEC NTP_SERVER
                 :: replicate 10 (Delay 500))).
  { intros f Hf Hno. unfold begin_with.
    rewrite (begin_loop_exhausted answers 10 f 0 0);
      [| lia | reflexivity | exact Hno].
    reflexivity. }
  assert (H11 : (11 <= S (Z.to_nat maxAttempts))%nat)
    by (unfold maxAttempts; lia).
  unfold begin.
  destruct (first_answer answers 10) as [Hno | (k & Hk & Hans & Hno)].
  - rewrite (Hnone fuel Hfuel Hno), (Hnone _ H11 Hno). cbn [fst snd].
    split; [reflexivity|]. split; [reflexivity|]. split; [|split].
    + split; [discriminate|]. intros (k & Hk & Hans).
      rewrite (Hno k Hk) in Hans. discriminate.
    + intros k Hk Hans _. rewrite (Hno k Hk) in Hans. discriminate.
    + reflexivity.
  - rewrite (Hyes fuel k Hfuel Hk Hans Hno), (Hyes _ k H11 Hk Hans Hno).
    cbn [fst snd].
    split; [reflexivity|]. split; [reflexivity|]. split; [|split].
    + split; [intros _; exists k; auto | reflexivity].
    + intros k' Hk' Hans' Hno'.
      assert (k' = k).
      { destruct (Nat.lt_trichotomy k' k) as [Hlt | [Heq | Hgt]];
          [| exact Heq |].
        - rewrite (Hno k' Hlt) in Hans'. discriminate.
        - rewrite (Hno' k Hgt) in Hans. discriminate. }
      subst k'. reflexivity.
    + intros Hall. rewrite (Hall k Hk) in Hans. discriminate.
Qed.

(** The SNTP client answers from the 11th call on: one call too late. *)
Lemma begin_synced_iff_answer_within_ten_witness :
  begin (new 0) (fun k => (10 <=? k)%nat)
  = (false, mkTimeSync false 0, 11%nat,
     ConfigTime GMT_OFFSET_SEC DAYLIGHT_OFFSET_SEC NTP_SERVER
       :: replicate 10 (Delay 500)).
Proof.
  apply (proj2 (proj2 (proj2 (proj2
           (begin_synced_iff_answer_within_ten
              (new 0) (fun k => (10 <=? k)%nat) 11 (le_n 11)))))).
  intros j Hj. apply Nat.leb_gt. exact Hj.
Defined.

End TimeSyncFacts.
